(** * SheetMind action engine (frontend/deploy/Code.gs): a shallow embedding

    The Apps Script file [Code.gs] drives a spreadsheet through the host
    service [SpreadsheetApp].  This development embeds the script's own
    functions as Rocq functions over an explicit model of the host document
    and proves properties of the column codec, the payload guard, the
    handlers [setFormula] and [_deleteRows], the dispatcher, the plan
    executor and the undo operation.

    Conventions.
    - JavaScript numbers that hold row/column indices are integers ([Z]).
      The script computes with doubles, which are exact on integers up to
      [MAX_SAFE_INTEGER] in magnitude; statements about the arithmetic of
      [_letterToColumn] and [parseInt] on arbitrary input carry that bound.
    - JavaScript strings are [string], one [ascii] per code unit: the
      strings of the model are those whose code units are below 256.  On
      these, [\s] is TAB, LF, VT, FF, CR, SPACE and NBSP (160), [\d] is
      [0-9], and letter case is interpreted for [A-Z] and [a-z].
    - A call that may throw runs in the monad [M]: the result is either
      [Returned v] or [Thrown msg], and the effects made before a throw stay
      in the state, as in JavaScript. *)

From Stdlib Require Import ZArith Ascii String List Lia Bool Sorted.
From stdpp Require Import base option list gmap strings pretty fin_maps sorting.

Local Open Scope string_scope.
Local Open Scope list_scope.
Local Open Scope Z_scope.

(** ** JavaScript string primitives *)

(** [Number.MAX_SAFE_INTEGER]: up to here every integer is a double, and
    sums and products of integers that stay below it are computed exactly. *)
Definition MAX_SAFE_INTEGER : Z := 2 ^ 53 - 1.

(** [s.charCodeAt(i)] for a code unit below 256. *)
Definition charCode (ch : ascii) : Z := Z.of_nat (nat_of_ascii ch).

(** [String.fromCharCode(n)]. *)
Definition fromCharCode (n : Z) : ascii := ascii_of_nat (Z.to_nat n).

(** ** Column index codec ([_colLetter], [_letterToColumn]) *)

Module Codec.

(** The [while (c > 0)] loop of [_colLetter]; [letter] is the accumulator
    that the loop prepends to.  [fuel] bounds the number of iterations. *)
Fixpoint _colLetter_loop (fuel : nat) (c : Z) (letter : string) : string :=
  match fuel with
  | O => letter
  | S fuel' =>
      if 0 <? c then
        let mod_ := Z.rem (c - 1) 26 in
        _colLetter_loop fuel' ((c - 1) / 26) (String (fromCharCode (65 + mod_)) letter)
      else letter
  end.

(** The body of [_colLetter] after a cache miss: the letters of [col]. *)
Definition colLetter_compute (col : Z) : string :=
  _colLetter_loop (Z.to_nat col) col "".

(** [_colLetter(col)] with the module-level memo table [_colCache] passed
    explicitly.  A cached entry is used only when it is truthy, i.e. a
    non-empty string. *)
Definition _colLetter (col : Z) (cache : gmap Z string) : string * gmap Z string :=
  match cache !! col with
  | Some (String ch rest) => (String ch rest, cache)
  | _ =>
      let letter := colLetter_compute col in
      (letter, <[col := letter]> cache)
  end.

(** [_letterToColumn(letter)]: the [for] loop over the code units.  The
    result is the script's as long as it stays within [MAX_SAFE_INTEGER]
    (the accumulator only grows), which holds up to eleven capitals. *)
Fixpoint _letterToColumn_loop (letter : string) (col : Z) : Z :=
  match letter with
  | EmptyString => col
  | String ch rest => _letterToColumn_loop rest (col * 26 + (charCode ch - 64))
  end.

Definition _letterToColumn (letter : string) : Z := _letterToColumn_loop letter 0.

(** The memo tables that the script can build: the empty table of a fresh
    execution context, extended by calls of [_colLetter] only. *)
Inductive cache_reachable : gmap Z string → Prop :=
  | cache_init : cache_reachable ∅
  | cache_step col cache :
      cache_reachable cache → cache_reachable (snd (_colLetter col cache)).

End Codec.

(** ASCII character classes used by the script's regular expressions. *)
Definition is_upper (ch : ascii) : bool := (65 <=? charCode ch) && (charCode ch <=? 90).
Definition is_lower (ch : ascii) : bool := (97 <=? charCode ch) && (charCode ch <=? 122).
Definition is_digit (ch : ascii) : bool := (48 <=? charCode ch) && (charCode ch <=? 57).

(** [\s] on code units below 256: TAB, LF, VT, FF, CR, SPACE and the
    no-break space (160). *)
Definition is_space (ch : ascii) : bool :=
  ((9 <=? charCode ch) && (charCode ch <=? 13)) || (charCode ch =? 32)
  || (charCode ch =? 160).

Definition upper_char (ch : ascii) : ascii :=
  if is_lower ch then fromCharCode (charCode ch - 32) else ch.

(** [s.toUpperCase()] on ASCII. *)
Fixpoint toUpperCase (s : string) : string :=
  match s with
  | EmptyString => EmptyString
  | String ch rest => String (upper_char ch) (toUpperCase rest)
  end.

(** Longest prefix whose characters satisfy [p], and the rest. *)
Fixpoint span (p : ascii → bool) (s : string) : string * string :=
  match s with
  | EmptyString => (EmptyString, EmptyString)
  | String ch rest =>
      if p ch then let '(a, b) := span p rest in (String ch a, b)
      else (EmptyString, s)
  end.

Fixpoint str_forall (p : ascii → bool) (s : string) : bool :=
  match s with
  | EmptyString => true
  | String ch rest => p ch && str_forall p rest
  end.

(** [parseInt(s)] for a string of decimal digits; the script's value as
    long as it stays within [MAX_SAFE_INTEGER]. *)
Fixpoint parseInt_loop (s : string) (acc : Z) : Z :=
  match s with
  | EmptyString => acc
  | String ch rest => parseInt_loop rest (acc * 10 + (charCode ch - 48))
  end.
Definition parseInt (s : string) : Z := parseInt_loop s 0.

(** [cell.match(/^([A-Z]+)(\d+)$/)]: the two capture groups, when the whole
    string is one or more capital letters followed by one or more digits. *)
Definition match_cell_ref (cell : string) : option (string * string) :=
  let '(letters, rest) := span is_upper cell in
  match letters, rest with
  | String _ _, String _ _ =>
      if str_forall is_digit rest then Some (letters, rest) else None
  | _, _ => None
  end.

(** Case-insensitive prefix test; returns what follows the prefix. *)
Fixpoint strip_prefix_ci (name s : string) : option string :=
  match name, s with
  | EmptyString, _ => Some s
  | String a name', String b s' =>
      if Ascii.eqb (upper_char a) (upper_char b) then strip_prefix_ci name' s' else None
  | String _ _, EmptyString => None
  end.

Fixpoint skip_spaces (s : string) : string :=
  match s with
  | String ch rest => if is_space ch then skip_spaces rest else s
  | EmptyString => EmptyString
  end.

(** The function names of the [autoSpillFormulas] pattern in [setFormula]. *)
Definition autoSpillNames : list string :=
  ["UNIQUE"; "FILTER"; "SORT"; "SORTN"; "SEQUENCE"; "ARRAYFORMULA";
   "SPLIT"; "TRANSPOSE"; "FLATTEN"].

(** [autoSpillFormulas.test(formula)] for the pattern
    [/^=\s*(UNIQUE|FILTER|SORT|SORTN|SEQUENCE|ARRAYFORMULA|SPLIT|TRANSPOSE|FLATTEN)\s*\(/i]:
    an equals sign, optional blanks, one of the names in any letter case,
    optional blanks, an opening parenthesis.  The alternation backtracks,
    so the pattern matches when some name does. *)
Definition isAutoSpill (formula : string) : bool :=
  match formula with
  | String "=" rest =>
      let rest' := skip_spaces rest in
      existsb (λ name,
        match strip_prefix_ci name rest' with
        | Some after =>
            match skip_spaces after with
            | String "(" _ => true
            | _ => false
            end
        | None => false
        end) autoSpillNames
  | _ => false
  end.

(** The double-quote character (code 34). *)
Definition dquote : ascii := fromCharCode 34.

(** [JSON.stringify] of a string value. *)
Definition hex_digit (n : Z) : ascii :=
  if n <? 10 then fromCharCode (48 + n) else fromCharCode (87 + n).

Fixpoint json_escape (s : string) : string :=
  match s with
  | EmptyString => EmptyString
  | String ch rest =>
      let c := charCode ch in
      let tail := json_escape rest in
      if c =? 34 then String "\" (String dquote tail)
      else if c =? 92 then String "\" (String "\" tail)
      else if c =? 8 then String "\" (String "b" tail)
      else if c =? 12 then String "\" (String "f" tail)
      else if c =? 10 then String "\" (String "n" tail)
      else if c =? 13 then String "\" (String "r" tail)
      else if c =? 9 then String "\" (String "t" tail)
      else if c <? 32 then
        String "\" (String "u" (String "0" (String "0"
          (String (hex_digit (c / 16)) (String (hex_digit (c mod 16)) tail)))))
      else String ch tail
  end.

Definition json_string (s : string) : string :=
  String dquote (json_escape s +:+ String dquote EmptyString).

(** ** The host document

    The spreadsheet service is not part of the script; it is modelled by the
    state below.  A sheet is its name, its non-empty cells keyed by
    (row, column), both 1-based, and the number of rows of its grid.  Cell
    contents are kept in their string form; the empty string is an empty
    cell and is never stored.  A cell holds the text last written to it:
    what the host makes of that text (evaluating a formula, reading a
    number, adjusting the references of a copied formula, formatting for
    display) is outside the model. *)

Record Rect := mkRect { r_row : Z; r_col : Z; r_rows : Z; r_cols : Z }.

Record Sheet := mkSheet {
  sheetName : string;
  cells : gmap (Z * Z) string;
  maxRows : Z
}.

(** [activeRange] is the user's selection on the active sheet
    ([ss.getActiveRange()]), when there is one. *)
Record Workbook := mkWorkbook {
  sheets : list Sheet;
  activeIndex : nat;
  activeRange : option Rect
}.

(** Mutating host calls, recorded in the order they are issued. *)
Inductive HostCall :=
  | HFlush
  | HInsertSheet (name : string)
  | HClearSheet (name : string)
  | HDeleteSheet (name : string)
  | HCopySheet (source : string)
  | HSetName (old new : string)
  | HSetFormula (sheet : string) (rc : Rect) (formula : string)
  | HSetValues (sheet : string) (rc : Rect) (values : list (list string))
  | HCopyTo (sheet : string) (src dst : Rect)
  | HDeleteRows (sheet : string) (start count : Z)
  | HClear (sheet : string) (rc : Rect)
  | HClearContent (sheet : string) (rc : Rect)
  | HClearFormat (sheet : string) (rc : Rect).

(** The state a script run works on: the document, the script's memo table
    [_colCache], and the log of mutating host calls. *)
Record World := mkWorld {
  book : Workbook;
  colCache : gmap Z string;
  trace : list HostCall
}.

Inductive Outcome (A : Type) : Type :=
  | Returned (v : A)
  | Thrown (msg : string).
Arguments Returned {A} v.
Arguments Thrown {A} msg.

Definition M (A : Type) : Type := World → Outcome A * World.

Definition ret {A} (v : A) : M A := λ w, (Returned v, w).
Definition throw {A} (msg : string) : M A := λ w, (Thrown msg, w).
Definition bind {A B} (m : M A) (k : A → M B) : M B :=
  λ w, match m w with
       | (Returned v, w') => k v w'
       | (Thrown msg, w') => (Thrown msg, w')
       end.


#[global] Instance M_ret : MRet M := @ret.
#[global] Instance M_bind : MBind M := λ A B k m, bind m k.

Definition log (c : HostCall) : M unit :=
  λ w, (Returned tt, mkWorld (book w) (colCache w) (trace w ++ [c])).

Definition get_book : M Workbook := λ w, (Returned (book w), w).
Definition put_book (b : Workbook) : M unit :=
  λ w, (Returned tt, mkWorld b (colCache w) (trace w)).

(** [SpreadsheetApp.flush()]. *)
Definition flush : M unit := log HFlush.

(** *** Cells *)

Definition set_cell (r c : Z) (v : string) (m : gmap (Z * Z) string) : gmap (Z * Z) string :=
  if decide (v = EmptyString) then delete (r, c) m else <[(r, c) := v]> m.

Definition get_cell (r c : Z) (m : gmap (Z * Z) string) : string :=
  default EmptyString (m !! (r, c)).

Definition rect_cells (rc : Rect) : list (Z * Z) :=
  r ← seqZ (r_row rc) (r_rows rc); c ← seqZ (r_col rc) (r_cols rc); [(r, c)].

Definition fill_rect (rc : Rect) (v : string) (m : gmap (Z * Z) string) : gmap (Z * Z) string :=
  foldl (λ acc rc', set_cell rc'.1 rc'.2 v acc) m (rect_cells rc).

(** [sheet.getLastRow()] / [sheet.getLastColumn()]: the largest row
    (column) that holds content, 0 on an empty sheet. *)
Definition last_row (m : gmap (Z * Z) string) : Z :=
  map_fold (λ k _ acc, Z.max k.1 acc) 0 m.
Definition last_col (m : gmap (Z * Z) string) : Z :=
  map_fold (λ k _ acc, Z.max k.2 acc) 0 m.

(** [range.getValues()]: one list per row. *)
Definition rect_values (rc : Rect) (m : gmap (Z * Z) string) : list (list string) :=
  (λ r, (λ c, get_cell r c m) <$> seqZ (r_col rc) (r_cols rc)) <$> seqZ (r_row rc) (r_rows rc).

(** Writing below the grid extends the grid. *)
Definition grow_to (rc : Rect) (rows : Z) : Z := Z.max rows (r_row rc + r_rows rc - 1).

(** Effect of [sheet.deleteRows(start, count)] on the cells: the rows
    [start .. start+count-1] disappear and the rows below move up. *)
Definition shift_rows (start count : Z) (m : gmap (Z * Z) string) : gmap (Z * Z) string :=
  list_to_map (omap (λ kv : (Z * Z) * string,
    let '((r, c), v) := kv in
    if r <? start then Some ((r, c), v)
    else if r <? start + count then None
    else Some ((r - count, c), v)) (map_to_list m)).

(** *** A1 notation, as the host resolves it

    Two forms are modelled: a single cell ([B2]) and a rectangle
    ([A1:C10]), letters in either case.  Any other text does not resolve,
    and the host call throws. *)
Definition is_letter (ch : ascii) : bool := is_upper ch || is_lower ch.

Definition a1_cell (s : string) : option (Z * Z) :=
  let '(letters, rest) := span is_letter s in
  match letters, rest with
  | String _ _, String _ _ =>
      if str_forall is_digit rest && (1 <=? parseInt rest)
      then Some (parseInt rest, Codec._letterToColumn (toUpperCase letters))
      else None
  | _, _ => None
  end.

Fixpoint split_colon (s : string) : option (string * string) :=
  match s with
  | EmptyString => None
  | String ":" rest => Some (EmptyString, rest)
  | String ch rest =>
      match split_colon rest with
      | Some (a, b) => Some (String ch a, b)
      | None => None
      end
  end.

Definition a1_rect (s : string) : option Rect :=
  match split_colon s with
  | None =>
      match a1_cell s with
      | Some (r, c) => Some (mkRect r c 1 1)
      | None => None
      end
  | Some (a, b) =>
      match a1_cell a, a1_cell b with
      | Some (r1, c1), Some (r2, c2) =>
          Some (mkRect (Z.min r1 r2) (Z.min c1 c2)
                       (Z.abs (r2 - r1) + 1) (Z.abs (c2 - c1) + 1))
      | _, _ => None
      end
  end.

(** [range.getA1Notation()]. *)
Definition cell_a1 (r c : Z) : string := Codec.colLetter_compute c +:+ pretty r.
Definition rect_a1 (rc : Rect) : string :=
  if (r_rows rc =? 1) && (r_cols rc =? 1) then cell_a1 (r_row rc) (r_col rc)
  else cell_a1 (r_row rc) (r_col rc) +:+ ":"
       +:+ cell_a1 (r_row rc + r_rows rc - 1) (r_col rc + r_cols rc - 1).

(** *** Host calls on the document

    A sheet object is represented by its position in [sheets]. *)

(** [ss.getSheetByName(name)]; [undefined] names no sheet. *)
Definition getSheetByName (name : option string) : M (option nat) :=
  λ w, (Returned (n ← name; fst <$> list_find (λ s, sheetName s = n) (sheets (book w))), w).

(** [ss.getActiveSheet()] / [SpreadsheetApp.getActiveSheet()]. *)
Definition getActiveSheet : M nat :=
  λ w, match sheets (book w) !! activeIndex (book w), sheets (book w) with
       | Some _, _ => (Returned (activeIndex (book w)), w)
       | None, _ :: _ => (Returned 0%nat, w)
       | None, [] => (Thrown "No active sheet", w)
       end.

(** [ss.getSheets().length]. *)
Definition getSheets_length : M Z :=
  λ w, (Returned (Z.of_nat (length (sheets (book w)))), w).

Definition read_sheet (sh : nat) : M Sheet :=
  λ w, match sheets (book w) !! sh with
       | Some s => (Returned s, w)
       | None => (Thrown "Invalid sheet object", w)
       end.

Definition write_sheet (sh : nat) (s : Sheet) : M unit :=
  λ w, (Returned tt,
        mkWorld (mkWorkbook (<[sh := s]> (sheets (book w))) (activeIndex (book w))
                            (activeRange (book w)))
                (colCache w) (trace w)).

(** [sheet.getName()]. *)
Definition sheet_getName (sh : nat) : M string := s ← read_sheet sh; mret (sheetName s).

(** [sheet.getLastRow()]. *)
Definition sheet_getLastRow (sh : nat) : M Z := s ← read_sheet sh; mret (last_row (cells s)).

(** [sheet.getRange(row, column, numRows, numColumns)]: coordinates start
    at 1 and a range has at least one row and one column. *)
Definition sheet_getRange (sh : nat) (row col numRows numCols : Z) : M Rect :=
  if (1 <=? row) && (1 <=? col) && (1 <=? numRows) && (1 <=? numCols)
  then mret (mkRect row col numRows numCols)
  else throw "The coordinates of the range are outside the dimensions of the sheet.".

(** [sheet.getRange(a1Notation)]. *)
Definition sheet_getRangeA1 (sh : nat) (a1 : string) : M Rect :=
  match a1_rect a1 with
  | Some rc => mret rc
  | None => throw "Range not found"
  end.

(** [range.setFormula(formula)]. *)
Definition range_setFormula (sh : nat) (rc : Rect) (formula : string) : M unit :=
  s ← read_sheet sh;
  write_sheet sh (mkSheet (sheetName s) (fill_rect rc formula (cells s))
                          (grow_to rc (maxRows s)));;
  log (HSetFormula (sheetName s) rc formula).

(** [range.setValues(values)]: the array must have the range's shape.
    The cells of the range take the texts given. *)
Definition set_row (r c : Z) (vals : list string) (m : gmap (Z * Z) string) : gmap (Z * Z) string :=
  foldl (λ acc cv, set_cell r cv.1 cv.2 acc) m (zip (seqZ c (Z.of_nat (length vals))) vals).

Definition set_block (rc : Rect) (values : list (list string)) (m : gmap (Z * Z) string)
    : gmap (Z * Z) string :=
  foldl (λ acc rv, set_row rv.1 (r_col rc) rv.2 acc) m
        (zip (seqZ (r_row rc) (Z.of_nat (length values))) values).

Definition range_setValues (sh : nat) (rc : Rect) (values : list (list string)) : M unit :=
  if (Z.of_nat (length values) =? r_rows rc)
     && forallb (λ row, Z.of_nat (length row) =? r_cols rc) values
  then
    s ← read_sheet sh;
    write_sheet sh (mkSheet (sheetName s) (set_block rc values (cells s))
                            (grow_to rc (maxRows s)));;
    log (HSetValues (sheetName s) rc values)
  else throw "The number of rows or columns in the data does not match the range.".

(** [source.copyTo(dest)] for a one-cell source: the source cell's content
    is written to every cell of the destination.  (The host also shifts the
    relative references of a copied formula; contents are not interpreted
    here.) *)
Definition range_copyTo (sh : nat) (src dst : Rect) : M unit :=
  s ← read_sheet sh;
  write_sheet sh (mkSheet (sheetName s)
                          (fill_rect dst (get_cell (r_row src) (r_col src) (cells s)) (cells s))
                          (grow_to dst (maxRows s)));;
  log (HCopyTo (sheetName s) src dst).

(** [range.clear()], [range.clearContent()], [range.clearFormat()]. *)
Definition range_clear (sh : nat) (rc : Rect) : M unit :=
  s ← read_sheet sh;
  write_sheet sh (mkSheet (sheetName s) (fill_rect rc EmptyString (cells s)) (maxRows s));;
  log (HClear (sheetName s) rc).

Definition range_clearContent (sh : nat) (rc : Rect) : M unit :=
  s ← read_sheet sh;
  write_sheet sh (mkSheet (sheetName s) (fill_rect rc EmptyString (cells s)) (maxRows s));;
  log (HClearContent (sheetName s) rc).

Definition range_clearFormat (sh : nat) (rc : Rect) : M unit :=
  s ← read_sheet sh; log (HClearFormat (sheetName s) rc).

(** [sheet.clear()]. *)
Definition sheet_clear (sh : nat) : M unit :=
  s ← read_sheet sh;
  write_sheet sh (mkSheet (sheetName s) ∅ (maxRows s));;
  log (HClearSheet (sheetName s)).

(** [sheet.deleteRows(rowPosition, howMany)]: the rows must lie inside the
    grid, and the host refuses to delete every row of a sheet. *)
Definition sheet_deleteRows (sh : nat) (start count : Z) : M unit :=
  s ← read_sheet sh;
  if (1 <=? start) && (1 <=? count) && (start + count - 1 <=? maxRows s)
     && (count <? maxRows s)
  then
    write_sheet sh (mkSheet (sheetName s) (shift_rows start count (cells s))
                            (maxRows s - count));;
    log (HDeleteRows (sheetName s) start count)
  else throw "Those rows are out of bounds.".

(** [ss.insertSheet(name)]: a new sheet of 1000 rows, which becomes the
    active sheet, with its first cell selected. *)
Definition insertSheet (name : string) : M unit :=
  b ← get_book;
  put_book (mkWorkbook (sheets b ++ [mkSheet name ∅ 1000]) (length (sheets b))
                       (Some (mkRect 1 1 1 1)));;
  log (HInsertSheet name).

(** [ss.deleteSheet(sheet)].  The host call itself is modelled without any
    guard, so that every guard is the script's own. *)
Definition deleteSheet (sh : nat) : M unit :=
  s ← read_sheet sh;
  b ← get_book;
  put_book (mkWorkbook (delete sh (sheets b)) (activeIndex b) (activeRange b));;
  log (HDeleteSheet (sheetName s)).

(** [sheet.setName(name)]: the host rejects a name another sheet has. *)
Definition sheet_setName (sh : nat) (name : string) : M unit :=
  s ← read_sheet sh;
  b ← get_book;
  if existsb (λ js : nat * Sheet, negb (js.1 =? sh)%nat && String.eqb (sheetName js.2) name)
             (imap pair (sheets b))
  then throw ("A sheet with the name " +:+ name +:+ " already exists.")
  else
    write_sheet sh (mkSheet name (cells s) (maxRows s));;
    log (HSetName (sheetName s) name).

(** [sheet.copyTo(ss)]: a copy is added to the workbook under a
    provisional name; the result is the new sheet object. *)
Definition sheet_copyTo (sh : nat) : M nat :=
  s ← read_sheet sh;
  b ← get_book;
  put_book (mkWorkbook (sheets b ++ [mkSheet ("Copy of " +:+ sheetName s) (cells s) (maxRows s)])
                       (activeIndex b) (activeRange b));;
  log (HCopySheet (sheetName s));;
  mret (length (sheets b)).

(** ** Actions

    An action is the JSON object the planner sends.  Fields are kept at the
    types the handlers use them at; a field the script tests for presence
    is an [option] ([None] is [undefined]). *)

Record Condition := mkCondition {
  cond_column : string;         (* condition.column *)
  cond_empty : bool;            (* truthiness of condition.empty *)
  cond_value : option string    (* String(condition.value); None when undefined *)
}.

Record Action := mkAction {
  a_action : option string;     (* the tag, action.action *)
  a_sheet : option string;
  a_name : string;
  a_cell : string;
  a_formula : string;
  a_fillDown : bool;
  a_range : string;
  a_values : list (list string);
  a_sourceCell : string;
  a_lastRow : Z;
  a_rows : option (list Z);
  a_condition : option Condition;
  a_type : option string;
  a_oldName : string;
  a_newName : string;
  a_source : string;
  a_sourceSheet : string;
  a_destSheet : string;
  a_destCell : string;
  a_dataSheet : option string;
  a_labelColumn : option string;
  a_other : list (string * string)   (* every other field, uninterpreted *)
}.

(** String conversion of a possibly undefined string, as in ["..." + x]. *)
Definition js_str (x : option string) : string := default "undefined" x.

(** [x || y] on possibly undefined strings: the empty string is falsy. *)
Definition js_or (x y : option string) : option string :=
  match x with
  | Some (String _ _) => x
  | _ => y
  end.

Definition js_truthy (x : option string) : bool :=
  match x with
  | Some (String _ _) => true
  | _ => false
  end.

(** ** Handlers *)

(** [_getSheet(sheetName)]. *)
Definition _getSheet (sheetName : option string) : M nat :=
  if js_truthy sheetName then
    sheet ← getSheetByName sheetName;
    match sheet with
    | Some sh => mret sh
    | None => throw ("Sheet not found: " +:+ js_str sheetName)
    end
  else getActiveSheet.

(** [sheetName ? ss.getSheetByName(sheetName) : ss.getActiveSheet()]. *)
Definition sheet_or_active (sheetName : option string) : M (option nat) :=
  if js_truthy sheetName then getSheetByName sheetName
  else (sh ← getActiveSheet; mret (Some sh)).

(** [createSheet(name)]. *)
Definition createSheet (name : string) : M string :=
  existing ← getSheetByName (Some name);
  match existing with
  | Some sh =>
      sheet_clear sh;;
      mret ("Cleared existing sheet '" +:+ name +:+ "'")
  | None =>
      insertSheet name;;
      mret ("Created sheet '" +:+ name +:+ "'")
  end.

(** [setFormula(sheetName, cell, formula, fillDown)]. *)
Definition setFormula (sheetName : option string) (cell formula : string) (fillDown : bool)
    : M string :=
  sheet ← getSheetByName sheetName;
  match sheet with
  | None => mret ("Sheet '" +:+ js_str sheetName +:+ "' not found")
  | Some sh =>
      range ← sheet_getRangeA1 sh cell;
      range_setFormula sh range formula;;
      let autoSpill := isAutoSpill formula in
      if fillDown && negb autoSpill then
        flush;;
        match match_cell_ref cell with
        | Some (colLetter, digits) =>
            let startRow := parseInt digits in
            let colIndex := Codec._letterToColumn colLetter in
            let refCol := if 1 <? colIndex then colIndex - 1 else colIndex + 1 in
            lastDataRow ← sheet_getLastRow sh;
            if startRow <? lastDataRow then
              let numRows := lastDataRow - startRow in
              sourceRange ← sheet_getRange sh startRow colIndex 1 1;
              destRange ← sheet_getRange sh startRow colIndex (numRows + 1) 1;
              range_copyTo sh sourceRange destRange
            else mret tt
        | None => mret tt
        end;;
        mret ("Set formula in " +:+ js_str sheetName +:+ "!" +:+ cell +:+ " (filled down)")
      else if fillDown && autoSpill then
        mret ("Set formula in " +:+ js_str sheetName +:+ "!" +:+ cell
              +:+ " (auto-spill, fillDown skipped)")
      else
        mret ("Set formula in " +:+ js_str sheetName +:+ "!" +:+ cell)
  end.

(** [setValues(sheetName, rangeStr, values)]. *)
Definition setValues (sheetName : option string) (rangeStr : string)
    (values : list (list string)) : M string :=
  sheet ← getSheetByName sheetName;
  match sheet with
  | None => mret ("Sheet '" +:+ js_str sheetName +:+ "' not found")
  | Some sh =>
      range ← sheet_getRangeA1 sh rangeStr;
      range_setValues sh range values;;
      mret ("Set values in " +:+ js_str sheetName +:+ "!" +:+ rangeStr)
  end.

(** [autoFillDown(sheetName, sourceCell, lastRow)]. *)
Definition autoFillDown (sheetName : option string) (sourceCell : string) (lastRow : Z)
    : M string :=
  sheet ← getSheetByName sheetName;
  match sheet with
  | None => mret ("Sheet '" +:+ js_str sheetName +:+ "' not found")
  | Some sh =>
      match match_cell_ref sourceCell with
      | None => mret ("Invalid cell reference: " +:+ sourceCell)
      | Some (colLetter, digits) =>
          let startRow := parseInt digits in
          let colIndex := Codec._letterToColumn colLetter in
          if lastRow <=? startRow then mret "lastRow must be greater than source row"
          else
            sourceRange ← sheet_getRange sh startRow colIndex 1 1;
            destRange ← sheet_getRange sh startRow colIndex (lastRow - startRow + 1) 1;
            range_copyTo sh sourceRange destRange;;
            mret ("Filled formula from " +:+ sourceCell +:+ " down to row " +:+ pretty lastRow)
      end
  end.

(** [JSON.stringify] of an array of arrays of strings. *)
Definition json_array (items : list string) : string :=
  "[" +:+ String.concat "," items +:+ "]".
Definition json_values (values : list (list string)) : string :=
  json_array ((λ row, json_array (json_string <$> row)) <$> values).

(** [JSON.stringify(readRange(sheetName, rangeStr))], the [readRange] case
    of the dispatcher. *)
Definition readRange_json (sheetName : option string) (rangeStr : string) : M string :=
  sheet ← getSheetByName sheetName;
  match sheet with
  | None =>
      mret ("{" +:+ json_string "error" +:+ ":"
            +:+ json_string ("Sheet '" +:+ js_str sheetName +:+ "' not found")
            +:+ "," +:+ json_string "values" +:+ ":[]}")
  | Some sh =>
      range ← sheet_getRangeA1 sh rangeStr;
      s ← read_sheet sh;
      mret ("{" +:+ json_string "sheet" +:+ ":" +:+ json_string (js_str sheetName)
            +:+ "," +:+ json_string "range" +:+ ":" +:+ json_string rangeStr
            +:+ "," +:+ json_string "values" +:+ ":" +:+ json_values (rect_values range (cells s))
            +:+ "}")
  end.

(** [_clearRange(sheetName, rangeStr, type)]. *)
Definition _clearRange (sheetName : option string) (rangeStr : string) (type : option string)
    : M string :=
  sh ← _getSheet sheetName;
  range ← sheet_getRangeA1 sh rangeStr;
  (if decide (type = Some "contents") then range_clearContent sh range
   else if decide (type = Some "formatting") then range_clearFormat sh range
   else range_clear sh range);;
  mret ("Cleared " +:+ js_str (js_or type (Some "all")) +:+ " from "
        +:+ js_str sheetName +:+ "!" +:+ rangeStr).

(** [_renameSheet(oldName, newName)]. *)
Definition _renameSheet (oldName newName : string) : M string :=
  sheet ← getSheetByName (Some oldName);
  match sheet with
  | None => mret ("Sheet not found: " +:+ oldName)
  | Some sh =>
      sheet_setName sh newName;;
      mret ("Renamed sheet '" +:+ oldName +:+ "' to '" +:+ newName +:+ "'")
  end.

(** [_copySheet(sourceName, newName)]. *)
Definition _copySheet (sourceName newName : string) : M string :=
  sheet ← getSheetByName (Some sourceName);
  match sheet with
  | None => mret ("Sheet not found: " +:+ sourceName)
  | Some sh =>
      copy ← sheet_copyTo sh;
      sheet_setName copy newName;;
      mret ("Copied sheet '" +:+ sourceName +:+ "' as '" +:+ newName +:+ "'")
  end.

(** [_deleteSheet(name)]. *)
Definition _deleteSheet (name : string) : M string :=
  sheet ← getSheetByName (Some name);
  match sheet with
  | None => mret ("Sheet not found: " +:+ name)
  | Some sh =>
      n ← getSheets_length;
      if n <=? 1 then mret "Cannot delete the last sheet"
      else
        deleteSheet sh;;
        mret ("Deleted sheet '" +:+ name +:+ "'")
  end.

(** *** [_deleteRows] *)

(** [rows.sort(function(a, b) { return b - a; })]: descending order. *)
Definition sort_desc (rows : list Z) : list Z := merge_sort (flip Z.le) rows.

(** The scan of the condition column, [for (r = values.length - 1; r >= 1; r--)]:
    from the last row of the column up to the second, collecting [r + 1]
    for every matching value. *)
Definition condition_rows (condition : Condition) (values : list (list string)) : list Z :=
  omap (λ r : nat,
    let cellVal := default EmptyString (row ← values !! r; row !! 0%nat) in
    let shouldDelete :=
      if cond_empty condition then bool_decide (cellVal = EmptyString)
      else match cond_value condition with
           | Some v => bool_decide (cellVal = v)
           | None => false
           end in
    if shouldDelete then Some (Z.of_nat r + 1) else None)
  (reverse (seq 1 (length values - 1))).

(** The inner loop
    [while (i + count < rows.length && rows[i + count] === start - count) count++];
    [rest] is [rows] from index [i + count] on. *)
Fixpoint run_length (start : Z) (count : nat) (rest : list Z) : nat :=
  match rest with
  | r :: rest' =>
      if r =? start - Z.of_nat count then run_length start (S count) rest' else count
  | [] => count
  end.

(** The outer loop [while (i < rows.length)]; [rows] is the sorted array
    from index [i] on.  Every iteration advances [i] by [count >= 1], so
    [length rows] iterations are enough. *)
Fixpoint deleteRows_loop (fuel : nat) (sh : nat) (rows : list Z) (deleted : Z) : M Z :=
  match fuel, rows with
  | S fuel', start :: rest =>
      let count := run_length start 1 rest in
      sheet_deleteRows sh (start - Z.of_nat count + 1) (Z.of_nat count);;
      deleteRows_loop fuel' sh (drop count rows) (deleted + Z.of_nat count)
  | _, _ => mret deleted
  end.

(** The row list that [_deleteRows] works on: the scan result when a
    condition is given, the [rows] argument otherwise. *)
Definition deleteRows_rows (sh : nat) (rows : option (list Z)) (condition : option Condition)
    : M (option (list Z)) :=
  match condition with
  | Some cond =>
      let colIndex := Codec._letterToColumn (toUpperCase (cond_column cond)) in
      lastRow ← sheet_getLastRow sh;
      dataRange ← sheet_getRange sh 1 colIndex lastRow 1;
      s ← read_sheet sh;
      mret (Some (condition_rows cond (rect_values dataRange (cells s))))
  | None => mret rows
  end.

(** [_deleteRows(sheetName, rows, condition)]. *)
Definition _deleteRows (sheetName : option string) (rows : option (list Z))
    (condition : option Condition) : M string :=
  sh ← _getSheet sheetName;
  rows ← deleteRows_rows sh rows condition;
  match rows with
  | None | Some [] => mret "No rows to delete"
  | Some rows =>
      let rows := sort_desc rows in
      deleted ← deleteRows_loop (length rows) sh rows 0;
      name ← sheet_getName sh;
      mret ("Deleted " +:+ pretty deleted +:+ " row(s) from " +:+ name)
  end.

(** ** Dispatcher

    The handlers that format, chart, filter, sort, validate, resize, merge,
    search or copy ranges only call methods of the sheet they resolved (and
    of ranges of that sheet).  Their effect on the model is left open: it
    is a parameter that may read the whole workbook and returns an outcome
    and the new state of that one sheet. *)

Section Engine.

Variable local_effect : string → Action → Workbook → Sheet → Outcome string * Sheet.

(** Run the open part of handler [handler] on sheet [sh]. *)
Definition run_local (handler : string) (action : Action) (sh : nat) : M string :=
  s ← read_sheet sh;
  b ← get_book;
  match local_effect handler action b s with
  | (Returned msg, s') => write_sheet sh s';; mret msg
  | (Thrown msg, s') => write_sheet sh s';; throw msg
  end.

(** Handlers that start with [SpreadsheetApp.getActiveSheet()]:
    [_applyFilter], [_applySort], [_applyHighlight], [_setCellValue],
    [_insertColumn], [_createChart]. *)
Definition on_active_sheet (handler : string) (action : Action) : M string :=
  sh ← getActiveSheet; run_local handler action sh.

(** Handlers that start with [_getSheet(sheetName)]:
    [_applyNumberFormat], [_setBorders], [_freeze], [_autoResizeColumns],
    [_deleteColumns], [_mergeCells], [_conditionalFormat],
    [_setDataValidation], [_findReplace]. *)
Definition on_getSheet (handler : string) (action : Action) : M string :=
  sh ← _getSheet (a_sheet action); run_local handler action sh.

(** [formatRange(sheetName, rangeStr, options)]. *)
Definition formatRange (action : Action) : M string :=
  sheet ← getSheetByName (a_sheet action);
  match sheet with
  | None => mret ("Sheet '" +:+ js_str (a_sheet action) +:+ "' not found")
  | Some sh => run_local "formatRange" action sh
  end.

(** [_createChartOnSheet], [_createChartFromColumns] and
    [_deleteChartsOnSheet]: the named sheet, or the active one. *)
Definition on_sheet_or_active (handler : string) (sheetName : option string)
    (action : Action) : M string :=
  sheet ← sheet_or_active sheetName;
  match sheet with
  | None => mret ("Sheet not found: " +:+ js_str sheetName)
  | Some sh => run_local handler action sh
  end.

(** [_copyRange(sourceSheetName, sourceRangeStr, destSheetName, destCell, valuesOnly)]:
    the copy writes to the destination sheet. *)
Definition _copyRange (action : Action) : M string :=
  srcSheet ← getSheetByName (Some (a_sourceSheet action));
  match srcSheet with
  | None => mret ("Source sheet not found: " +:+ a_sourceSheet action)
  | Some _ =>
      destSheet ← getSheetByName (Some (a_destSheet action));
      match destSheet with
      | None => mret ("Destination sheet not found: " +:+ a_destSheet action)
      | Some dest => run_local "copyRange" action dest
      end
  end.

(** The [switch] of [executeSheetAction]: one handler per tag. *)
Definition handlers : list (string * (Action → M string)) :=
  [ ("filter", on_active_sheet "filter");
    ("sort", on_active_sheet "sort");
    ("highlight", on_active_sheet "highlight");
    ("setValue", on_active_sheet "setValue");
    ("insertColumn", on_active_sheet "insertColumn");
    ("chart", on_active_sheet "chart");
    ("createChart", λ action,
       let chartSheet := js_or (a_dataSheet action) (a_sheet action) in
       if negb (bool_decide (a_range action = EmptyString)) && negb (js_truthy (a_labelColumn action))
       then on_sheet_or_active "createChartOnSheet" chartSheet action
       else on_sheet_or_active "createChartFromColumns" chartSheet action);
    ("createSheet", λ action, createSheet (a_name action));
    ("setFormula", λ action,
       setFormula (a_sheet action) (a_cell action) (a_formula action) (a_fillDown action));
    ("setValues", λ action, setValues (a_sheet action) (a_range action) (a_values action));
    ("autoFillDown", λ action,
       autoFillDown (a_sheet action) (a_sourceCell action) (a_lastRow action));
    ("formatRange", formatRange);
    ("readRange", λ action, readRange_json (a_sheet action) (a_range action));
    ("deleteCharts", λ action, on_sheet_or_active "deleteCharts" (a_sheet action) action);
    ("numberFormat", on_getSheet "numberFormat");
    ("setBorders", on_getSheet "setBorders");
    ("freeze", on_getSheet "freeze");
    ("autoResize", on_getSheet "autoResize");
    ("deleteRows", λ action,
       _deleteRows (a_sheet action) (a_rows action) (a_condition action));
    ("deleteColumns", on_getSheet "deleteColumns");
    ("mergeCells", on_getSheet "mergeCells");
    ("clearRange", λ action, _clearRange (a_sheet action) (a_range action) (a_type action));
    ("copyRange", _copyRange);
    ("conditionalFormat", on_getSheet "conditionalFormat");
    ("dataValidation", on_getSheet "dataValidation");
    ("renameSheet", λ action, _renameSheet (a_oldName action) (a_newName action));
    ("copySheet", λ action, _copySheet (a_source action) (a_newName action));
    ("deleteSheet", λ action, _deleteSheet (a_name action));
    ("findReplace", on_getSheet "findReplace") ].

(** The tags the dispatcher recognises. *)
Definition recognized (tag : string) : Prop := tag ∈ (fst <$> handlers).

Fixpoint lookup_handler (tag : string) (table : list (string * (Action → M string)))
    : option (Action → M string) :=
  match table with
  | [] => None
  | (t, h) :: table' => if String.eqb tag t then Some h else lookup_handler tag table'
  end.

(** [executeSheetAction(action)]. *)
Definition executeSheetAction (action : Action) : M string :=
  if negb (js_truthy (a_action action)) then mret "No action provided"
  else
    match lookup_handler (js_str (a_action action)) handlers with
    | Some handler => handler action
    | None => mret ("Unknown action: " +:+ js_str (a_action action))
    end.

(** ** Plan executor *)

(** The [action] property of a step: an action object, some other truthy
    value such as a tag string, or nothing. *)
Inductive StepAction :=
  | StepObject (action : Action)
  | StepString (s : string)
  | StepMissing.

Record Step := mkStep {
  step_step : option Z;         (* step.step *)
  step_action : StepAction      (* step.action *)
}.

Record StepResult := mkStepResult {
  res_step : Z;
  res_status : string;
  res_result : string
}.

(** [executeSheetAction(step.action || step)].  When [step.action] is not
    an object, the value handed to the dispatcher (a string, or the step
    itself with a falsy [action]) has no truthy [action] property, which
    the dispatcher answers with its first line. *)
Definition dispatch_step (step : Step) : M string :=
  match step_action step with
  | StepObject action => executeSheetAction action
  | StepString _ | StepMissing => mret "No action provided"
  end.

(** [step.step || (i + 1)]. *)
Definition step_number (step : Step) (i : Z) : Z :=
  match step_step step with
  | Some n => if n =? 0 then i + 1 else n
  | None => i + 1
  end.

(** The [for] loop of [executeStepPlan], from index [i] on, with the
    [try]/[catch] around the dispatch and the [break] in the handler. *)
Fixpoint executeStepPlan_loop (steps : list Step) (i : Z) (results : list StepResult)
    : World → list StepResult * World :=
  λ w,
  match steps with
  | [] => (results, w)
  | step :: rest =>
      match dispatch_step step w with
      | (Returned result, w1) =>
          let results1 := (results ++ [mkStepResult (step_number step i) "done" result])%list in
          executeStepPlan_loop rest (i + 1) results1 (snd (flush w1))
      | (Thrown message, w1) =>
          ((results ++ [mkStepResult (step_number step i) "error" ("Error: " +:+ message)])%list, w1)
      end
  end.

(** [executeStepPlan(steps)]. *)
Definition executeStepPlan (steps : list Step) : World → list StepResult * World :=
  executeStepPlan_loop steps 0 [].

End Engine.

(** ** Undo *)

Record UndoEntry := mkUndoEntry { entry_sheet : string; entry_range : string }.

Record UndoInfo := mkUndoInfo {
  sheetsToDelete : list string;
  cellsToClear : list UndoEntry
}.

(** First loop of [undoSheetActions]: delete the created sheets. *)
Fixpoint undo_delete_loop (names : list string) (results : list string) : M (list string) :=
  match names with
  | [] => mret results
  | name :: rest =>
      sheet ← getSheetByName (Some name);
      match sheet with
      | Some sh =>
          n ← getSheets_length;
          if 1 <? n then
            deleteSheet sh;;
            undo_delete_loop rest (results ++ ["Deleted sheet '" +:+ name +:+ "'"])%list
          else
            undo_delete_loop rest (results ++ ["Cannot delete '" +:+ name +:+ "' (last sheet)"])%list
      | None => undo_delete_loop rest results
      end
  end.

(** Second loop: clear the modified ranges on the sheets that exist. *)
Fixpoint undo_clear_loop (entries : list UndoEntry) (results : list string) : M (list string) :=
  match entries with
  | [] => mret results
  | entry :: rest =>
      targetSheet ← getSheetByName (Some (entry_sheet entry));
      match targetSheet with
      | Some sh =>
          range ← sheet_getRangeA1 sh (entry_range entry);
          range_clear sh range;;
          undo_clear_loop rest
            (results ++ ["Cleared " +:+ entry_sheet entry +:+ "!" +:+ entry_range entry])%list
      | None => undo_clear_loop rest results
      end
  end.

(** The [results] array at the end of [undoSheetActions]. *)
Definition undo_results (undoInfo : UndoInfo) : M (list string) :=
  results ← undo_delete_loop (sheetsToDelete undoInfo) [];
  undo_clear_loop (cellsToClear undoInfo) results.

(** [undoSheetActions(undoInfo)]; a missing list counts as empty. *)
Definition undoSheetActions (undoInfo : option UndoInfo) : M string :=
  match undoInfo with
  | None => mret "Nothing to undo"
  | Some info =>
      results ← undo_results info;
      match results with
      | [] => mret "Nothing to undo"
      | _ => mret (String.concat "; " results)
      end
  end.

(** ** Payload guard ([_readSheetData], [getSheetData]) *)

Definition MAX_ROWS : Z := 2000.
Definition MAX_CELLS : Z := 50000.

Record SheetData := mkSheetData {
  sd_sheetName : string;
  sd_dataRange : string;
  sd_cells : gmap string string;
  sd_totalRows : Z;
  sd_totalColumns : Z;
  sd_truncated : bool;
  sd_truncatedReason : option string;
  sd_cellCount : option Z;
  sd_selectedRange : option string;          (* null without a selection *)
  sd_selectedValues : list (list string)
}.

(** [sheet.getDataRange()]: from A1 to the last row and column with
    content; one cell on an empty sheet. *)
Definition sheet_getDataRange (s : Sheet) : Rect :=
  mkRect 1 1 (Z.max 1 (last_row (cells s))) (Z.max 1 (last_col (cells s))).

(** The memoised [_colLetter(col)] as a step of the script. *)
Definition colLetterM (col : Z) : M string :=
  λ w, let '(letter, cache) := Codec._colLetter col (colCache w) in
       (Returned letter, mkWorld (book w) cache (trace w)).

(** [for (c = 0; c < numCols; c++) colLetters[c] = _colLetter(startCol + c)]. *)
Fixpoint colLetters_loop (cols : list Z) : M (list string) :=
  match cols with
  | [] => mret []
  | col :: rest =>
      letter ← colLetterM col;
      letters ← colLetters_loop rest;
      mret (letter :: letters)
  end.

(** The two nested loops that fill the [cells] object: one entry per
    non-empty value, keyed by column letter and row number. *)
Definition row_cells (colLetters : list string) (rowNum : Z) (row : list string)
    (acc : gmap string string) : gmap string string :=
  foldl (λ (acc' : gmap string string) (lv : string * string),
           if decide (lv.2 = EmptyString) then acc'
           else <[lv.1 +:+ pretty rowNum := lv.2]> acc')
        acc (zip colLetters row).

Definition build_cells (colLetters : list string) (startRow : Z) (values : list (list string))
    : gmap string string :=
  foldl (λ acc rv, row_cells colLetters rv.1 rv.2 acc) ∅
        (zip (seqZ startRow (Z.of_nat (length values))) values).

(** The block of values that [_readSheetData] reads:
    [sheet.getRange(startRow, startCol, rowsToRead, numCols).getValues()]. *)
Definition read_block (s : Sheet) : list (list string) :=
  let dataRange := sheet_getDataRange s in
  let rowsToRead := Z.min (r_rows dataRange) MAX_ROWS in
  rect_values (mkRect (r_row dataRange) (r_col dataRange) rowsToRead (r_cols dataRange))
              (cells s).

(** [ss.getActiveRange()]: the selection, or [null]. *)
Definition getActiveRange : M (option Rect) :=
  λ w, (Returned (activeRange (book w)), w).

(** [selection.getValues()]: the selection lies on the active sheet, and
    all of its rows and columns are read. *)
Definition selection_getValues (selection : Rect) : M (list (list string)) :=
  sh ← getActiveSheet;
  s ← read_sheet sh;
  mret (rect_values selection (cells s)).

(** [_readSheetData(sheet)]. *)
Definition _readSheetData (sh : nat) : M SheetData :=
  s ← read_sheet sh;
  let dataRange := sheet_getDataRange s in
  let numRows := r_rows dataRange in
  let numCols := r_cols dataRange in
  let startRow := r_row dataRange in
  let startCol := r_col dataRange in
  let rowsToRead := Z.min numRows MAX_ROWS in
  readRange ← sheet_getRange sh startRow startCol rowsToRead numCols;
  let values := rect_values readRange (cells s) in
  colLetters ← colLetters_loop (seqZ startCol numCols);
  let cells := build_cells colLetters startRow values in
  selection ← getActiveRange;
  let selectedRange := rect_a1 <$> selection in
  selectedValues ← match selection with
                   | Some rc => selection_getValues rc
                   | None => mret []
                   end;
  let cellCount := Z.of_nat (size cells) in
  if MAX_CELLS <? cellCount then
    mret (mkSheetData (sheetName s) (rect_a1 dataRange) ∅ numRows numCols true
            (Some ("Sheet has " +:+ pretty cellCount +:+ " cells (max " +:+ pretty MAX_CELLS
                   +:+ "). Please select a smaller range."))
            (Some cellCount) selectedRange selectedValues)
  else
    mret (mkSheetData (sheetName s) (rect_a1 dataRange) cells numRows numCols
            (MAX_ROWS <? numRows) None None selectedRange selectedValues).

(** [getSheetData()]. *)
Definition getSheetData : M SheetData :=
  sh ← getActiveSheet; _readSheetData sh.

(** ** Vocabulary of the statements *)

(** The case labels of the [switch] in [executeSheetAction]. *)
Definition action_kinds : list string :=
  [ "filter"; "sort"; "highlight"; "setValue"; "insertColumn"; "chart"; "createChart";
    "createSheet"; "setFormula"; "setValues"; "autoFillDown"; "formatRange"; "readRange";
    "deleteCharts"; "numberFormat"; "setBorders"; "freeze"; "autoResize"; "deleteRows";
    "deleteColumns"; "mergeCells"; "clearRange"; "copyRange"; "conditionalFormat";
    "dataValidation"; "renameSheet"; "copySheet"; "deleteSheet"; "findReplace" ].

(** An outcome is an error when the call threw. *)
Definition is_error {A} (o : Outcome A) : bool :=
  match o with
  | Thrown _ => true
  | Returned _ => false
  end.

(** The state after the steps [steps] have all been dispatched and flushed
    in turn, starting from [w]. *)
Definition run_steps (eff : string → Action → Workbook → Sheet → Outcome string * Sheet)
    (steps : list Step) (w : World) : World :=
  foldl (λ w' step, snd (flush (snd (dispatch_step eff step w')))) w steps.

(** The outcome of dispatching step [i] of a plan in the state that the
    steps before it leave behind. *)
Definition outcome_at (eff : string → Action → Workbook → Sheet → Outcome string * Sheet)
    (steps : list Step) (w : World) (i : nat) : option (Outcome string * World) :=
  step ← steps !! i;
  Some (dispatch_step eff step (run_steps eff (take i steps) w)).

(** The operations the engine offers to its callers. *)
Inductive EngineOp :=
  | OpExecuteSheetAction (action : Action)
  | OpExecuteStepPlan (steps : list Step)
  | OpUndoSheetActions (undoInfo : option UndoInfo)
  | OpGetSheetData.

Definition run_op (eff : string → Action → Workbook → Sheet → Outcome string * Sheet)
    (op : EngineOp) (w : World) : World :=
  match op with
  | OpExecuteSheetAction action => snd (executeSheetAction eff action w)
  | OpExecuteStepPlan steps => snd (executeStepPlan eff steps w)
  | OpUndoSheetActions undoInfo => snd (undoSheetActions undoInfo w)
  | OpGetSheetData => snd (getSheetData w)
  end.

(** The states the engine can reach from a document the host opened, which
    has at least one sheet. *)
Inductive reachable (eff : string → Action → Workbook → Sheet → Outcome string * Sheet)
    : World → Prop :=
  | reachable_init w : sheets (book w) ≠ [] → reachable eff w
  | reachable_step w op : reachable eff w → reachable eff (run_op eff op w).

(** The last populated row of one column. *)
Definition last_row_of_column (col : Z) (m : gmap (Z * Z) string) : Z :=
  map_fold (λ k _ acc, if k.2 =? col then Z.max k.1 acc else acc) 0 m.

(** Rows covered by a batch of [deleteRows] calls (start, count). *)
Definition batch_rows (calls : list (Z * Z)) : list Z :=
  calls ≫= λ sc, seqZ sc.1 sc.2.

(** ** Sample documents and actions *)

(** A local effect that changes nothing and returns the handler's name. *)
Definition inert_effect : string → Action → Workbook → Sheet → Outcome string * Sheet :=
  λ handler _ _ s, (Returned handler, s).

Definition blank_action (tag : string) (sheet : option string) : Action :=
  mkAction (Some tag) sheet EmptyString EmptyString EmptyString false EmptyString []
           EmptyString 0 None None None EmptyString EmptyString EmptyString EmptyString
           EmptyString EmptyString None None [].

Definition act_createSheet (name : string) : Action :=
  mkAction (Some "createSheet") None name EmptyString EmptyString false EmptyString []
           EmptyString 0 None None None EmptyString EmptyString EmptyString EmptyString
           EmptyString EmptyString None None [].

Definition act_deleteSheet (name : string) : Action :=
  mkAction (Some "deleteSheet") None name EmptyString EmptyString false EmptyString []
           EmptyString 0 None None None EmptyString EmptyString EmptyString EmptyString
           EmptyString EmptyString None None [].

Definition act_setFormula (sheet cell formula : string) (fillDown : bool) : Action :=
  mkAction (Some "setFormula") (Some sheet) EmptyString cell formula fillDown EmptyString []
           EmptyString 0 None None None EmptyString EmptyString EmptyString EmptyString
           EmptyString EmptyString None None [].

Definition act_setValues (sheet range : string) (values : list (list string)) : Action :=
  mkAction (Some "setValues") (Some sheet) EmptyString EmptyString EmptyString false range values
           EmptyString 0 None None None EmptyString EmptyString EmptyString EmptyString
           EmptyString EmptyString None None [].

Definition act_deleteRows (sheet : string) (rows : list Z) : Action :=
  mkAction (Some "deleteRows") (Some sheet) EmptyString EmptyString EmptyString false EmptyString []
           EmptyString 0 (Some rows) None None EmptyString EmptyString EmptyString EmptyString
           EmptyString EmptyString None None [].

Definition plan_step (action : Action) : Step := mkStep None (StepObject action).

(** A column of [n] values ["v"] from row [row] down. *)
Definition column_block (col row n : Z) : gmap (Z * Z) string → gmap (Z * Z) string :=
  fill_rect (mkRect row col n 1) "v".

Definition one_sheet_world (s : Sheet) : World := mkWorld (mkWorkbook [s] 0 None) ∅ [].

(** Kinds whose handler looks the sheet [action.sheet] up with
    [getSheetByName] and answers "Sheet '<name>' not found" when there is
    none. *)
Definition soft_missing_kinds : list string :=
  [ "setFormula"; "setValues"; "autoFillDown"; "formatRange" ].

(** Kinds whose handler resolves the sheet with [_getSheet], which throws
    when a named sheet does not exist. *)
Definition hard_missing_kinds : list string :=
  [ "numberFormat"; "setBorders"; "freeze"; "autoResize"; "deleteRows"; "deleteColumns";
    "mergeCells"; "clearRange"; "conditionalFormat"; "dataValidation"; "findReplace" ].

(** A five-step plan whose third step names a sheet that does not exist. *)
Definition sample_plan : list Step :=
  [ plan_step (act_createSheet "Summary");
    plan_step (act_setValues "Summary" "A1:B1" [["Region"; "Total"]]);
    plan_step (act_deleteRows "Archive" [2; 3]);
    plan_step (act_setFormula "Summary" "B2" "=SUM(Data!B:B)" false);
    plan_step (act_createSheet "Report") ].

Definition sample_world : World := one_sheet_world (mkSheet "Data" ∅ 1000).

(** Every entry of a memo table is the computed spelling of its key. *)
Definition cache_sound (cache : gmap Z string) : Prop :=
  ∀ k s, cache !! k = Some s → s = Codec.colLetter_compute k.

(** [keeps_nonempty m]: whether [m] returns or throws, a workbook that had
    a sheet before still has one after. *)
Definition nonempty (w : World) : Prop := sheets (book w) ≠ [].

Definition keeps_nonempty {A} (m : M A) : Prop :=
  ∀ w, nonempty w → nonempty (snd (m w)).




(** A ledger for a one-sheet workbook: the sheet itself, a sheet that does
    not exist, and two ranges to clear. *)
Definition summary_sheet : Sheet :=
  mkSheet "Summary" (column_block 1 1 5 (column_block 2 1 5 ∅)) 1000.

Definition sample_undo : UndoInfo :=
  mkUndoInfo ["Scratch"; "Summary"]
             [mkUndoEntry "Summary" "A2:B3"; mkUndoEntry "Gone" "A1"; mkUndoEntry "Summary" "B5"].

(** A sheet "Orders": keys in column A, rows 2 to 11, and a notes column D
    that runs from row 1 to row 20. *)
Definition orders_sheet : Sheet :=
  mkSheet "Orders" (column_block 1 2 10 (column_block 4 1 20 ∅)) 1000.

(** The same sheet without the notes column. *)
Definition orders_sheet_plain : Sheet :=
  mkSheet "Orders" (column_block 1 2 10 ∅) 1000.

(** The column that the comment in [setFormula] calls the adjacent one:
    the column to the left, or the one to the right of column 1. *)
Definition adjacent_column (colIndex : Z) : Z :=
  if 1 <? colIndex then colIndex - 1 else colIndex + 1.

(** The [cells] object that the loops of [_readSheetData] fill before the
    size check: one entry per non-empty value of the block that was read. *)
Definition built_cells (s : Sheet) : gmap string string :=
  let dataRange := sheet_getDataRange s in
  build_cells (Codec.colLetter_compute <$> seqZ (r_col dataRange) (r_cols dataRange))
              (r_row dataRange) (read_block s).

(** The (start, count) arguments of the [sheet.deleteRows] calls that the
    batching loop of [_deleteRows] issues for the sorted array [rows], in
    the order it issues them. *)
Fixpoint delete_batches (fuel : nat) (rows : list Z) : list (Z * Z) :=
  match fuel, rows with
  | S fuel', start :: rest =>
      let count := run_length start 1 rest in
      (start - Z.of_nat count + 1, Z.of_nat count) :: delete_batches fuel' (drop count rows)
  | _, _ => []
  end.

(** A list of rows in strictly descending order. *)
Definition strict_desc (rows : list Z) : Prop := StronglySorted (λ a b : Z, b < a) rows.

(** Batch [b] comes after batch [a] in a bottom-up deletion of maximal
    runs: it lies wholly below [a], with at least one kept row between the
    two. *)
Definition batch_below (a b : Z * Z) : Prop := b.1 + b.2 < a.1.

(** A twenty-row sheet. *)
Definition twenty_rows : Sheet :=
  mkSheet "Log" (column_block 1 1 20 ∅) 20.

(** Number of rows of [rows] that lie above row [r] on the sheet (smaller
    row numbers): how far row [r] moves up when [rows] are deleted. *)
Definition rows_above (rows : list Z) (r : Z) : Z :=
  Z.of_nat (length (filter (λ x, x < r) rows)).

(** A workbook with the two sample sheets, "Orders" active. *)
Definition two_sheet_world : World :=
  mkWorld (mkWorkbook [orders_sheet; summary_sheet] 0 None) ∅ [].

(** One step of the inner loop of [_readSheetData], on a key and its
    value: an empty value is skipped, any other is stored under the key. *)
Definition put_cell (acc : gmap string string) (kv : string * string) : gmap string string :=
  if decide (kv.2 = EmptyString) then acc else <[kv.1 := kv.2]> acc.

(** The keys and values that the loops of [_readSheetData] go through for
    the block of [nr] rows and [nc] columns at the top left of the sheet,
    row by row. *)
Definition block_entries (nr nc : Z) (m : gmap (Z * Z) string) : list (string * string) :=
  r ← seqZ 1 nr; c ← seqZ 1 nc; [(cell_a1 r c, get_cell r c m)].

(** ** Listing and reading sheets by name *)

Record SheetInfo := mkSheetInfo {
  si_name : string;
  si_rowCount : Z;
  si_isActive : bool
}.

(** [getAllSheets()].  The callback of [sheets.map] reads
    [activeSheet.getName()] for every sheet; the name is read once here. *)
Definition getAllSheets : M (list SheetInfo) :=
  activeSheet ← getActiveSheet;
  activeName ← sheet_getName activeSheet;
  b ← get_book;
  mret ((λ sheet, mkSheetInfo (sheetName sheet) (last_row (cells sheet))
                              (bool_decide (sheetName sheet = activeName)))
          <$> sheets b).

(** [getSheetDataByName(sheetName)]: the payload of [_readSheetData], or
    the object [{ error: ... }] when no sheet has the name. *)
Definition getSheetDataByName (sheetName : option string) : M (string + SheetData) :=
  sheet ← sheet_or_active sheetName;
  match sheet with
  | None => mret (inl ("Sheet not found: " +:+ js_str sheetName))
  | Some sh => d ← _readSheetData sh; mret (inr d)
  end.

(** ** Vocabulary for steps that name a missing sheet *)

(** Kinds that work on one sheet given by name in a field of their own:
    [renameSheet] ([oldName]), [copySheet] ([source]), [deleteSheet]
    ([name]).  Their handlers answer "Sheet not found: <name>" when no sheet
    has the name. *)
Definition named_sheet (tag : string) (action : Action) : option string :=
  if String.eqb tag "renameSheet" then Some (a_oldName action)
  else if String.eqb tag "copySheet" then Some (a_source action)
  else if String.eqb tag "deleteSheet" then Some (a_name action)
  else None.

(** Kinds that work on the named sheet, or on the active sheet when no
    name is given: [deleteCharts] ([sheet]) and [createChart] ([dataSheet],
    else [sheet]).  Their handlers answer "Sheet not found: <name>" when a
    name is given that no sheet has. *)
Definition chart_sheet (tag : string) (action : Action) : option (option string) :=
  if String.eqb tag "deleteCharts" then Some (a_sheet action)
  else if String.eqb tag "createChart" then Some (js_or (a_dataSheet action) (a_sheet action))
  else None.

(** The executor records the first step as done with result [msg], leaves
    the document as it is, and goes on with the remaining steps. *)
Definition step_done (eff : string → Action → Workbook → Sheet → Outcome string * Sheet)
    (step : Step) (rest : list Step) (i : Z) (results : list StepResult) (w : World)
    (msg : string) : Prop :=
  executeStepPlan_loop eff (step :: rest) i results w
  = executeStepPlan_loop eff rest (i + 1)
      (results ++ [mkStepResult (step_number step i) "done" msg]) (snd (flush w)).

(** The executor records the first step as an error with message [msg],
    leaves the document as it is, and runs none of the remaining steps. *)
Definition step_halts (eff : string → Action → Workbook → Sheet → Outcome string * Sheet)
    (step : Step) (rest : list Step) (i : Z) (results : list StepResult) (w : World)
    (msg : string) : Prop :=
  executeStepPlan_loop eff (step :: rest) i results w
  = (results ++ [mkStepResult (step_number step i) "error" ("Error: " +:+ msg)], w).

(** No sheet has the name ([undefined] names no sheet). *)
Definition no_sheet (name : option string) (w : World) : Prop :=
  getSheetByName name w = (Returned None, w).

(** The object [{ error: "Sheet '<name>' not found", values: [] }] of
    [readRange], as the dispatcher returns it. *)
Definition readRange_missing (sheetName : option string) : string :=
  "{" +:+ json_string "error" +:+ ":"
  +:+ json_string ("Sheet '" +:+ js_str sheetName +:+ "' not found")
  +:+ "," +:+ json_string "values" +:+ ":[]}".

(** ** Vocabulary for the payload of [_readSheetData] *)

(** The sheet that [getActiveSheet] answers with. *)
Definition active_sheet (b : Workbook) : option Sheet :=
  match sheets b !! activeIndex b with
  | Some s => Some s
  | None => head (sheets b)
  end.

(** The values of the selection: every row and column of the selected
    range on the active sheet; nothing without a selection. *)
Definition selected_values (b : Workbook) : list (list string) :=
  match activeRange b, active_sheet b with
  | Some rc, Some a => rect_values rc (cells a)
  | _, _ => []
  end.

(** Number of values in an array of rows. *)
Definition value_count (values : list (list string)) : Z :=
  Z.of_nat (length (concat values)).

(** A sheet of 2001 full rows and 26 columns (52,026 non-empty cells), all
    of it selected. *)
Definition tall_sheet : Sheet :=
  mkSheet "Ledger" (fill_rect (mkRect 1 1 2001 26) "x" ∅) 2001.

Definition selected_world : World :=
  mkWorld (mkWorkbook [tall_sheet] 0 (Some (mkRect 1 1 2001 26))) ∅ [].

(** The payload that [_readSheetData] returns for sheet [s] of workbook
    [b], as a function of the two. *)
Definition payload_of (s : Sheet) (b : Workbook) : SheetData :=
  let dataRange := sheet_getDataRange s in
  let cellCount := Z.of_nat (size (built_cells s)) in
  if MAX_CELLS <? cellCount then
    mkSheetData (sheetName s) (rect_a1 dataRange) ∅ (r_rows dataRange) (r_cols dataRange) true
      (Some ("Sheet has " +:+ pretty cellCount +:+ " cells (max " +:+ pretty MAX_CELLS
             +:+ "). Please select a smaller range."))
      (Some cellCount) (rect_a1 <$> activeRange b) (selected_values b)
  else
    mkSheetData (sheetName s) (rect_a1 dataRange) (built_cells s) (r_rows dataRange)
      (r_cols dataRange) (MAX_ROWS <? r_rows dataRange) None None
      (rect_a1 <$> activeRange b) (selected_values b).

(** * Properties *)

(** ** Column codec *)

Section CodecFacts.
Import Codec.

Lemma charCode_fromCharCode (n : Z) : 0 ≤ n < 256 → charCode (fromCharCode n) = n.
Proof.
  intros Hn. unfold charCode, fromCharCode.
  rewrite nat_ascii_embedding by lia. lia.
Qed.

Lemma string_app_cons (ch : ascii) (s t : string) :
  (String ch s +:+ t = String ch (s +:+ t))%string.
Proof. reflexivity. Qed.

Lemma string_app_assoc (s t u : string) :
  (s +:+ (t +:+ u) = (s +:+ t) +:+ u)%string.
Proof.
  induction s as [|ch s IH]; [done|].
  by rewrite !string_app_cons, IH.
Qed.

Lemma colLetter_loop_acc (fuel : nat) : ∀ c acc,
  _colLetter_loop fuel c acc = (_colLetter_loop fuel c "" +:+ acc)%string.
Proof.
  induction fuel as [|fuel IH]; intros c acc; simpl; [done|].
  destruct (0 <? c); [|done].
  rewrite IH. rewrite (IH _ (String _ "")).
  by rewrite <- string_app_assoc.
Qed.

Lemma letterToColumn_loop_app (s1 s2 : string) : ∀ col,
  _letterToColumn_loop (s1 +:+ s2) col
  = _letterToColumn_loop s2 (_letterToColumn_loop s1 col).
Proof.
  induction s1 as [|ch s1 IH]; intros col; [done|].
  rewrite string_app_cons. simpl. apply IH.
Qed.

(** Decoding what the encoder loop produced gives the number back, for
    every non-negative start value and any fuel that covers it. *)
Lemma letterToColumn_colLetter_loop (fuel : nat) : ∀ c,
  0 ≤ c → (Z.to_nat c ≤ fuel)%nat →
  _letterToColumn (_colLetter_loop fuel c "") = c.
Proof.
  induction fuel as [|fuel IH]; intros c Hc Hfuel.
  - simpl. unfold _letterToColumn. simpl. lia.
  - simpl. destruct (Z.ltb_spec 0 c) as [Hpos|Hle].
    + rewrite colLetter_loop_acc. unfold _letterToColumn.
      rewrite letterToColumn_loop_app. simpl.
      fold (_letterToColumn (_colLetter_loop fuel ((c - 1) / 26) "")).
      assert (Hq : 0 ≤ (c - 1) / 26 < c).
      { split; [apply Z.div_pos; lia|].
        apply Z.le_lt_trans with (c - 1); [|lia].
        apply Z.div_le_upper_bound; lia. }
      rewrite IH by lia.
      rewrite Z.rem_mod_nonneg by lia.
      pose proof (Z.mod_pos_bound (c - 1) 26 ltac:(lia)) as Hm.
      rewrite charCode_fromCharCode by lia.
      pose proof (Z.div_mod (c - 1) 26 ltac:(lia)). lia.
    + unfold _letterToColumn. simpl. lia.
Qed.

Lemma letterToColumn_colLetter_compute (n : Z) :
  0 ≤ n → _letterToColumn (colLetter_compute n) = n.
Proof. intros Hn. apply letterToColumn_colLetter_loop; lia. Qed.

Lemma colLetter_cache_sound (col : Z) (cache : gmap Z string) :
  cache_sound cache →
  fst (_colLetter col cache) = colLetter_compute col
  ∧ cache_sound (snd (_colLetter col cache)).
Proof.
  intros Hs. unfold _colLetter.
  destruct (cache !! col) as [[|ch rest]|] eqn:Hc; simpl.
  - split; [done|]. intros k s. rewrite lookup_insert.
    case_decide; [naive_solver|apply Hs].
  - split; [by apply Hs|done].
  - split; [done|]. intros k s. rewrite lookup_insert.
    case_decide; [naive_solver|apply Hs].
Qed.

Lemma cache_reachable_sound (cache : gmap Z string) :
  cache_reachable cache → cache_sound cache.
Proof.
  induction 1 as [|col cache _ IH].
  - intros k s. by rewrite lookup_empty.
  - by apply colLetter_cache_sound.
Qed.

End CodecFacts.

(** C8. For every integer n in [1, 18278], decoding the letters produced by
    the encoder returns n; this holds with any memo table the script can
    have built, and the memoised answer is the computed one, so the memo
    table changes no result. *)
Theorem colLetter_roundtrip (n : Z) (cache : gmap Z string) :
  Codec.cache_reachable cache →
  1 ≤ n ≤ 18278 →
  Codec._letterToColumn (fst (Codec._colLetter n cache)) = n
  ∧ fst (Codec._colLetter n cache) = fst (Codec._colLetter n ∅).
Proof.
  intros Hreach Hn.
  destruct (colLetter_cache_sound n cache (cache_reachable_sound _ Hreach)) as [-> _].
  split; [apply letterToColumn_colLetter_compute; lia|].
  unfold Codec._colLetter. by rewrite lookup_empty.
Qed.

Lemma colLetter_roundtrip_witness :
  Codec._letterToColumn
    (fst (Codec._colLetter 703 (snd (Codec._colLetter 703 ∅)))) = 703
  ∧ fst (Codec._colLetter 703 (snd (Codec._colLetter 703 ∅)))
    = fst (Codec._colLetter 703 ∅).
Proof.
  apply (colLetter_roundtrip 703 (snd (Codec._colLetter 703 ∅))).
  - apply Codec.cache_step, Codec.cache_init.
  - lia.
Defined.

(** ** The execution monad *)

Ltac unfold_monad :=
  unfold mbind, M_bind, mret, M_ret, bind, ret, throw in *.

Lemma bind_returned {A B} (m : M A) (k : A → M B) (w w' : World) (v : A) :
  m w = (Returned v, w') → (m ≫= k) w = k v w'.
Proof. intros H. unfold_monad. by rewrite H. Qed.

Lemma bind_thrown {A B} (m : M A) (k : A → M B) (w w' : World) (msg : string) :
  m w = (Thrown msg, w') → (m ≫= k) w = (Thrown msg, w').
Proof. intros H. unfold_monad. by rewrite H. Qed.

Lemma bind_ret_l {A B} (v : A) (k : A → M B) (w : World) :
  (mret v ≫= k) w = k v w.
Proof. reflexivity. Qed.

(** ** Dispatcher *)

Lemma handlers_kinds eff : (fst <$> handlers eff) = action_kinds.
Proof. reflexivity. Qed.

Lemma lookup_handler_None (tag : string) (table : list (string * (Action → M string))) :
  tag ∉ (fst <$> table) → lookup_handler tag table = None.
Proof.
  induction table as [|[t h] table IH]; intros Hnot; simpl; [done|].
  rewrite fmap_cons, not_elem_of_cons in Hnot. destruct Hnot as [Hne Hnot].
  destruct (String.eqb_spec tag t) as [->|_]; [done|]. by apply IH.
Qed.

Lemma lookup_handler_Some (tag : string) (table : list (string * (Action → M string))) h :
  lookup_handler tag table = Some h → (tag, h) ∈ table.
Proof.
  induction table as [|[t h'] table IH]; simpl; [done|].
  destruct (String.eqb_spec tag t) as [->|_].
  - intros [= ->]. apply list_elem_of_here.
  - intros H. apply list_elem_of_further. by apply IH.
Qed.

Lemma js_truthy_Some (tag : string) : tag ≠ EmptyString → js_truthy (Some tag) = true.
Proof. by destruct tag. Qed.

(** C7 (as the code has it). An action whose tag is a non-empty string
    outside the recognised kinds runs no handler and leaves the state
    unchanged; the dispatcher answers with the ordinary string
    "Unknown action: <tag>", which is a returned value, not a thrown error,
    so a plan records the step as done. *)
Theorem unknown_action_reported
    (eff : string → Action → Workbook → Sheet → Outcome string * Sheet)
    (action : Action) (tag : string) (w : World) :
  a_action action = Some tag →
  tag ≠ EmptyString →
  tag ∉ action_kinds →
  executeSheetAction eff action w = (Returned ("Unknown action: " +:+ tag), w)
  ∧ fst (executeStepPlan eff [plan_step action] w)
    = [mkStepResult 1 "done" ("Unknown action: " +:+ tag)].
Proof.
  intros Htag Hne Hnot.
  assert (Hexec : executeSheetAction eff action w
                  = (Returned ("Unknown action: " +:+ tag), w)).
  { unfold executeSheetAction. rewrite Htag, js_truthy_Some by done.
    cbn [negb]. change (js_str (Some tag)) with tag.
    rewrite lookup_handler_None; [done|]. by rewrite handlers_kinds. }
  split; [done|].
  unfold executeStepPlan. cbn [executeStepPlan_loop].
  change (dispatch_step eff (plan_step action) w) with (executeSheetAction eff action w).
  by rewrite Hexec.
Qed.

Lemma unknown_action_reported_witness :
  executeSheetAction inert_effect (blank_action "transposeSheet" None)
    (one_sheet_world (mkSheet "Data" ∅ 1000))
  = (Returned "Unknown action: transposeSheet", one_sheet_world (mkSheet "Data" ∅ 1000))
  ∧ fst (executeStepPlan inert_effect [plan_step (blank_action "transposeSheet" None)]
           (one_sheet_world (mkSheet "Data" ∅ 1000)))
    = [mkStepResult 1 "done" "Unknown action: transposeSheet"].
Proof.
  apply (unknown_action_reported inert_effect (blank_action "transposeSheet" None)
           "transposeSheet").
  - reflexivity.
  - discriminate.
  - apply (bool_decide_unpack _). by vm_compute.
Defined.

(** C7 (as stated) fails: for the unrecognised tag "transposeSheet" the
    dispatcher's outcome is not an error, and the plan executor records the
    step with status "done". *)
Lemma unknown_action_is_not_an_error :
  is_error (fst (executeSheetAction inert_effect (blank_action "transposeSheet" None)
                   (one_sheet_world (mkSheet "Data" ∅ 1000)))) = false
  ∧ (res_status <$> fst (executeStepPlan inert_effect
                           [plan_step (blank_action "transposeSheet" None)]
                           (one_sheet_world (mkSheet "Data" ∅ 1000))))
    = ["done"].
Proof. split; reflexivity. Qed.

(** ** Plan executor *)

Section PlanFacts.
Variable eff : string → Action → Workbook → Sheet → Outcome string * Sheet.

Lemma run_steps_cons step steps w :
  run_steps eff (step :: steps) w
  = run_steps eff steps (snd (flush (snd (dispatch_step eff step w)))).
Proof. reflexivity. Qed.

Lemma outcome_at_0 step steps w :
  outcome_at eff (step :: steps) w 0 = Some (dispatch_step eff step w).
Proof. reflexivity. Qed.

Lemma outcome_at_S step steps w i :
  outcome_at eff (step :: steps) w (S i)
  = outcome_at eff steps (snd (flush (snd (dispatch_step eff step w)))) i.
Proof. unfold outcome_at. simpl. by destruct (steps !! i). Qed.

(** A run in which every step returns: one "done" entry per step, and the
    final state is the state after all of them. *)
Lemma executeStepPlan_loop_all_done steps : ∀ i results w,
  (∀ j, (j < length steps)%nat →
        ∃ r w1, outcome_at eff steps w j = Some (Returned r, w1)) →
  (res_status <$> fst (executeStepPlan_loop eff steps i results w))
    = (res_status <$> results) ++ replicate (length steps) "done"
  ∧ snd (executeStepPlan_loop eff steps i results w) = run_steps eff steps w.
Proof.
  induction steps as [|step steps IH]; intros i results w Hall.
  - simpl. by rewrite app_nil_r.
  - destruct (Hall 0%nat ltac:(simpl; lia)) as (r & w1 & H0).
    rewrite outcome_at_0 in H0. injection H0 as H0.
    cbn [executeStepPlan_loop]. rewrite H0.
    destruct (IH (i + 1) (results ++ [mkStepResult (step_number step i) "done" r])
                 (snd (flush w1))) as [IH1 IH2].
    { intros j Hj. specialize (Hall (S j) ltac:(simpl; lia)).
      rewrite outcome_at_S, H0 in Hall. exact Hall. }
    rewrite IH1, IH2. rewrite run_steps_cons, H0.
    split; [|done]. rewrite fmap_app. simpl. by rewrite <- app_assoc.
Qed.

(** A run whose first throwing step is step [k] (0-based): [k] "done"
    entries, then one "error" entry, and the final state is the one the
    throwing dispatch left. *)
Lemma executeStepPlan_loop_first_error steps : ∀ k i results w msg w1,
  (∀ j, (j < k)%nat → ∃ r w2, outcome_at eff steps w j = Some (Returned r, w2)) →
  outcome_at eff steps w k = Some (Thrown msg, w1) →
  (res_status <$> fst (executeStepPlan_loop eff steps i results w))
    = (res_status <$> results) ++ replicate k "done" ++ ["error"]
  ∧ snd (executeStepPlan_loop eff steps i results w) = w1.
Proof.
  induction steps as [|step steps IH]; intros k i results w msg w1 Hbefore Hk.
  - by destruct k.
  - destruct k as [|k].
    + rewrite outcome_at_0 in Hk. injection Hk as Hk.
      cbn [executeStepPlan_loop]. rewrite Hk. simpl. by rewrite fmap_app.
    + destruct (Hbefore 0%nat ltac:(lia)) as (r & w2 & H0).
      rewrite outcome_at_0 in H0. injection H0 as H0.
      cbn [executeStepPlan_loop]. rewrite H0.
      rewrite outcome_at_S, H0 in Hk.
      destruct (IH k (i + 1) (results ++ [mkStepResult (step_number step i) "done" r])
                   (snd (flush w2)) msg w1) as [IH1 IH2]; [|done|].
      { intros j Hj. specialize (Hbefore (S j) ltac:(lia)).
        rewrite outcome_at_S, H0 in Hbefore. exact Hbefore. }
      rewrite IH1, IH2. split; [|done].
      rewrite fmap_app. simpl. by rewrite <- app_assoc.
Qed.

End PlanFacts.

(** C1. If the dispatch of step i (counting from 1) throws and the steps
    before it returned, the report has exactly i entries, the first i-1 with
    status "done" and the last with status "error", and the final state is
    the state the failing dispatch left on top of the effects of steps
    1..i-1: no later step runs and nothing is rolled back.  If every step
    returns, the report has one "done" entry per step. *)
Theorem executeStepPlan_report
    (eff : string → Action → Workbook → Sheet → Outcome string * Sheet)
    (steps : list Step) (w : World) :
  (∀ k msg w1,
     (∀ j, (j < k)%nat → ∃ r w2, outcome_at eff steps w j = Some (Returned r, w2)) →
     outcome_at eff steps w k = Some (Thrown msg, w1) →
     length (fst (executeStepPlan eff steps w)) = S k
     ∧ (res_status <$> fst (executeStepPlan eff steps w)) = replicate k "done" ++ ["error"]
     ∧ snd (executeStepPlan eff steps w) = w1)
  ∧ ((∀ j, (j < length steps)%nat →
           ∃ r w2, outcome_at eff steps w j = Some (Returned r, w2)) →
     length (fst (executeStepPlan eff steps w)) = length steps
     ∧ (res_status <$> fst (executeStepPlan eff steps w))
       = replicate (length steps) "done"
     ∧ snd (executeStepPlan eff steps w) = run_steps eff steps w).
Proof.
  split.
  - intros k msg w1 Hbefore Hk.
    destruct (executeStepPlan_loop_first_error eff steps k 0 [] w msg w1 Hbefore Hk)
      as [Hst Hw].
    unfold executeStepPlan. split; [|split; [exact Hst|exact Hw]].
    apply (f_equal length) in Hst.
    rewrite length_fmap in Hst. rewrite Hst. simpl.
    rewrite length_app, length_replicate. simpl. lia.
  - intros Hall.
    destruct (executeStepPlan_loop_all_done eff steps 0 [] w Hall) as [Hst Hw].
    unfold executeStepPlan. split; [|split; [exact Hst|exact Hw]].
    apply (f_equal length) in Hst.
    rewrite length_fmap in Hst. rewrite Hst. simpl.
    by rewrite length_replicate.
Qed.

Lemma executeStepPlan_report_witness :
  length (fst (executeStepPlan inert_effect sample_plan sample_world)) = 3%nat
  ∧ (res_status <$> fst (executeStepPlan inert_effect sample_plan sample_world))
    = replicate 2 "done" ++ ["error"]
  ∧ snd (executeStepPlan inert_effect sample_plan sample_world)
    = snd (dispatch_step inert_effect (plan_step (act_deleteRows "Archive" [2; 3]))
             (run_steps inert_effect (take 2 sample_plan) sample_world)).
Proof.
  destruct (executeStepPlan_report inert_effect sample_plan sample_world) as [H _].
  apply (H 2%nat "Sheet not found: Archive").
  - intros [|[|j]] Hj; [eexists _, _; vm_compute; reflexivity ..|lia].
  - vm_compute. reflexivity.
Defined.

(** The sample plan: steps 1-2 done, step 3 error, steps 4-5 absent, and
    the sheet created by step 1 is still there. *)
Example sample_plan_report :
  fst (executeStepPlan inert_effect sample_plan sample_world)
  = [ mkStepResult 1 "done" "Created sheet 'Summary'";
      mkStepResult 2 "done" "Set values in Summary!A1:B1";
      mkStepResult 3 "error" "Error: Sheet not found: Archive" ]
  ∧ (sheetName <$> sheets (book (snd (executeStepPlan inert_effect sample_plan sample_world))))
    = ["Data"; "Summary"].
Proof. split; vm_compute; reflexivity. Qed.

(** ** Steps that name a missing sheet *)

Lemma getSheet_missing (name : string) (w : World) :
  name ≠ EmptyString →
  getSheetByName (Some name) w = (Returned None, w) →
  _getSheet (Some name) w = (Thrown ("Sheet not found: " +:+ name), w).
Proof.
  intros Hne Hmiss. unfold _getSheet. rewrite js_truthy_Some by done.
  by rewrite (bind_returned _ _ _ _ _ Hmiss).
Qed.

Lemma on_getSheet_missing eff handler action name w :
  a_sheet action = Some name → name ≠ EmptyString →
  getSheetByName (Some name) w = (Returned None, w) →
  on_getSheet eff handler action w = (Thrown ("Sheet not found: " +:+ name), w).
Proof.
  intros Hs Hne Hmiss. unfold on_getSheet. rewrite Hs.
  by rewrite (bind_thrown _ _ _ _ _ (getSheet_missing _ _ Hne Hmiss)).
Qed.

(** Dispatching a kind of [soft_missing_kinds] whose sheet is missing. *)
Lemma soft_missing_dispatch eff action tag w :
  a_action action = Some tag →
  tag ∈ soft_missing_kinds →
  no_sheet (a_sheet action) w →
  executeSheetAction eff action w
  = (Returned ("Sheet '" +:+ js_str (a_sheet action) +:+ "' not found"), w).
Proof.
  intros Htag Hin Hmiss. unfold no_sheet in Hmiss. unfold executeSheetAction. rewrite Htag.
  unfold soft_missing_kinds in Hin.
  repeat (apply elem_of_cons in Hin as [->|Hin]);
    [..|by apply not_elem_of_nil in Hin];
    cbn [js_truthy negb js_str default from_option id lookup_handler handlers String.eqb Ascii.eqb Bool.eqb];
    [unfold setFormula|unfold setValues|unfold autoFillDown|unfold formatRange];
    by rewrite (bind_returned _ _ _ _ _ Hmiss).
Qed.

(** [readRange] answers with its error object. *)
Lemma readRange_missing_dispatch eff action w :
  a_action action = Some "readRange" →
  no_sheet (a_sheet action) w →
  executeSheetAction eff action w = (Returned (readRange_missing (a_sheet action)), w).
Proof.
  intros Htag Hmiss. unfold no_sheet in Hmiss. unfold executeSheetAction. rewrite Htag.
  cbn [js_truthy negb js_str default from_option id lookup_handler handlers String.eqb Ascii.eqb Bool.eqb].
  unfold readRange_json. by rewrite (bind_returned _ _ _ _ _ Hmiss).
Qed.

Lemma on_sheet_or_active_missing eff handler cs action w :
  js_truthy cs = true → no_sheet cs w →
  on_sheet_or_active eff handler cs action w
  = (Returned ("Sheet not found: " +:+ js_str cs), w).
Proof.
  intros Htruthy Hmiss. unfold no_sheet in Hmiss. unfold on_sheet_or_active, sheet_or_active.
  rewrite Htruthy. by rewrite (bind_returned _ _ _ _ _ Hmiss).
Qed.

(** The chart kinds, when a sheet name is given. *)
Lemma chart_missing_dispatch eff action tag cs w :
  a_action action = Some tag →
  chart_sheet tag action = Some cs →
  js_truthy cs = true → no_sheet cs w →
  executeSheetAction eff action w = (Returned ("Sheet not found: " +:+ js_str cs), w).
Proof.
  intros Htag Hcs Htruthy Hmiss. unfold executeSheetAction. rewrite Htag.
  unfold chart_sheet in Hcs.
  destruct (String.eqb_spec tag "deleteCharts") as [->|_].
  { injection Hcs as <-.
    cbn [js_truthy negb js_str default from_option id lookup_handler handlers String.eqb Ascii.eqb Bool.eqb].
    by apply on_sheet_or_active_missing. }
  destruct (String.eqb_spec tag "createChart") as [->|_]; [|done].
  injection Hcs as <-.
  cbn [js_truthy negb js_str default from_option id lookup_handler handlers String.eqb Ascii.eqb Bool.eqb].
  cbv zeta. destruct (_ && _); by apply on_sheet_or_active_missing.
Qed.

(** [renameSheet], [copySheet] and [deleteSheet]. *)
Lemma named_missing_dispatch eff action tag n w :
  a_action action = Some tag →
  named_sheet tag action = Some n →
  no_sheet (Some n) w →
  executeSheetAction eff action w = (Returned ("Sheet not found: " +:+ n), w).
Proof.
  intros Htag Hn Hmiss. unfold no_sheet in Hmiss. unfold executeSheetAction. rewrite Htag.
  unfold named_sheet in Hn.
  destruct (String.eqb_spec tag "renameSheet") as [->|_].
  { injection Hn as <-.
    cbn [js_truthy negb js_str default from_option id lookup_handler handlers String.eqb Ascii.eqb Bool.eqb].
    unfold _renameSheet. by rewrite (bind_returned _ _ _ _ _ Hmiss). }
  destruct (String.eqb_spec tag "copySheet") as [->|_].
  { injection Hn as <-.
    cbn [js_truthy negb js_str default from_option id lookup_handler handlers String.eqb Ascii.eqb Bool.eqb].
    unfold _copySheet. by rewrite (bind_returned _ _ _ _ _ Hmiss). }
  destruct (String.eqb_spec tag "deleteSheet") as [->|_]; [|done].
  injection Hn as <-.
  cbn [js_truthy negb js_str default from_option id lookup_handler handlers String.eqb Ascii.eqb Bool.eqb].
  unfold _deleteSheet. by rewrite (bind_returned _ _ _ _ _ Hmiss).
Qed.

(** [copyRange]: the source sheet is looked up first, then the
    destination. *)
Lemma copyRange_missing_dispatch eff action w :
  a_action action = Some "copyRange" →
  (no_sheet (Some (a_sourceSheet action)) w →
     executeSheetAction eff action w
     = (Returned ("Source sheet not found: " +:+ a_sourceSheet action), w))
  ∧ (¬ no_sheet (Some (a_sourceSheet action)) w →
     no_sheet (Some (a_destSheet action)) w →
     executeSheetAction eff action w
     = (Returned ("Destination sheet not found: " +:+ a_destSheet action), w)).
Proof.
  intros Htag. unfold executeSheetAction. rewrite Htag.
  cbn [js_truthy negb js_str default from_option id lookup_handler handlers String.eqb Ascii.eqb Bool.eqb].
  unfold _copyRange, no_sheet. split.
  - intros Hsrc. by rewrite (bind_returned _ _ _ _ _ Hsrc).
  - intros Hsrc Hdst.
    assert (Hfound : ∃ sh, getSheetByName (Some (a_sourceSheet action)) w
                           = (Returned (Some sh), w)).
    { unfold getSheetByName in *. simpl in *.
      destruct (list_find _ _) as [[sh s]|]; [by exists sh|done]. }
    destruct Hfound as [sh Hfound].
    rewrite (bind_returned _ _ _ _ _ Hfound). cbv beta iota.
    by rewrite (bind_returned _ _ _ _ _ Hdst).
Qed.

(** Dispatching a kind of [hard_missing_kinds] whose named sheet is
    missing. *)
Lemma hard_missing_dispatch eff action tag name w :
  a_action action = Some tag →
  tag ∈ hard_missing_kinds →
  a_sheet action = Some name → name ≠ EmptyString →
  no_sheet (Some name) w →
  executeSheetAction eff action w = (Thrown ("Sheet not found: " +:+ name), w).
Proof.
  intros Htag Hin Hs Hne Hmiss. unfold no_sheet in Hmiss. unfold executeSheetAction.
  rewrite Htag.
  pose proof (getSheet_missing _ _ Hne Hmiss) as Hget.
  unfold hard_missing_kinds in Hin.
  repeat (apply elem_of_cons in Hin as [->|Hin]);
    [..|by apply not_elem_of_nil in Hin];
    cbn [js_truthy negb js_str default from_option id lookup_handler handlers String.eqb Ascii.eqb Bool.eqb];
    try (by apply on_getSheet_missing);
    [unfold _deleteRows|unfold _clearRange];
    rewrite Hs; by rewrite (bind_thrown _ _ _ _ _ Hget).
Qed.

Lemma step_done_intro eff step action rest i results w msg :
  step_action step = StepObject action →
  executeSheetAction eff action w = (Returned msg, w) →
  step_done eff step rest i results w msg.
Proof.
  intros Hstep Hrun. unfold step_done. cbn [executeStepPlan_loop].
  unfold dispatch_step. by rewrite Hstep, Hrun.
Qed.

Lemma step_halts_intro eff step action rest i results w msg :
  step_action step = StepObject action →
  executeSheetAction eff action w = (Thrown msg, w) →
  step_halts eff step rest i results w msg.
Proof.
  intros Hstep Hrun. unfold step_halts. cbn [executeStepPlan_loop].
  unfold dispatch_step. by rewrite Hstep, Hrun.
Qed.

(** C10 (as the code has it). What a step does when the sheet it names
    does not exist depends on how its handler resolves the sheet.
    - setFormula, setValues, autoFillDown, formatRange return
      "Sheet '<name>' not found"; readRange returns its error object;
      deleteCharts and createChart (when a name is given), renameSheet,
      copySheet and deleteSheet return "Sheet not found: <name>";
      copyRange returns "Source sheet not found: <name>" or "Destination
      sheet not found: <name>".  All these are ordinary results: the
      executor records the step as done, the document is untouched, and
      the remaining steps run.
    - numberFormat, setBorders, freeze, autoResize, deleteRows,
      deleteColumns, mergeCells, clearRange, conditionalFormat,
      dataValidation and findReplace resolve the sheet with [_getSheet],
      which throws "Sheet not found: <name>"; the executor records the
      step as error and stops. *)
Theorem missing_sheet_step
    (eff : string → Action → Workbook → Sheet → Outcome string * Sheet)
    (action : Action) (tag : string) (step : Step) (rest : list Step) (i : Z)
    (results : list StepResult) (w : World) :
  step_action step = StepObject action →
  a_action action = Some tag →
  (tag ∈ soft_missing_kinds → no_sheet (a_sheet action) w →
     step_done eff step rest i results w
       ("Sheet '" +:+ js_str (a_sheet action) +:+ "' not found"))
  ∧ (tag = "readRange" → no_sheet (a_sheet action) w →
     step_done eff step rest i results w (readRange_missing (a_sheet action)))
  ∧ (∀ cs, chart_sheet tag action = Some cs → js_truthy cs = true → no_sheet cs w →
     step_done eff step rest i results w ("Sheet not found: " +:+ js_str cs))
  ∧ (∀ n, named_sheet tag action = Some n → no_sheet (Some n) w →
     step_done eff step rest i results w ("Sheet not found: " +:+ n))
  ∧ (tag = "copyRange" → no_sheet (Some (a_sourceSheet action)) w →
     step_done eff step rest i results w
       ("Source sheet not found: " +:+ a_sourceSheet action))
  ∧ (tag = "copyRange" → ¬ no_sheet (Some (a_sourceSheet action)) w →
     no_sheet (Some (a_destSheet action)) w →
     step_done eff step rest i results w
       ("Destination sheet not found: " +:+ a_destSheet action))
  ∧ (tag ∈ hard_missing_kinds →
     ∀ name, a_sheet action = Some name → name ≠ EmptyString →
     no_sheet (Some name) w →
     step_halts eff step rest i results w ("Sheet not found: " +:+ name)).
Proof.
  intros Hstep Htag. repeat split.
  - intros Hin Hmiss. apply (step_done_intro _ _ action); [done|].
    by apply (soft_missing_dispatch eff action tag).
  - intros -> Hmiss. apply (step_done_intro _ _ action); [done|].
    by apply readRange_missing_dispatch.
  - intros cs Hcs Htruthy Hmiss. apply (step_done_intro _ _ action); [done|].
    by apply (chart_missing_dispatch eff action tag).
  - intros n Hn Hmiss. apply (step_done_intro _ _ action); [done|].
    by apply (named_missing_dispatch eff action tag).
  - intros -> Hmiss. apply (step_done_intro _ _ action); [done|].
    by apply (copyRange_missing_dispatch eff action w Htag).
  - intros -> Hsrc Hdst. apply (step_done_intro _ _ action); [done|].
    by apply (copyRange_missing_dispatch eff action w Htag).
  - intros Hin name Hs Hne Hmiss. apply (step_halts_intro _ _ action); [done|].
    by apply (hard_missing_dispatch eff action tag name).
Qed.

Lemma missing_sheet_step_witness :
  step_done inert_effect (plan_step (act_setFormula "Archive" "B2" "=A2*2" true))
    [plan_step (act_createSheet "Report")] 0 [] sample_world
    ("Sheet '" +:+ js_str (Some "Archive") +:+ "' not found")
  ∧ step_done inert_effect (plan_step (act_deleteSheet "Archive"))
      [plan_step (act_createSheet "Report")] 0 [] sample_world
      ("Sheet not found: " +:+ "Archive")
  ∧ step_halts inert_effect (plan_step (act_deleteRows "Archive" [2; 3]))
      [plan_step (act_createSheet "Report")] 0 [] sample_world
      ("Sheet not found: " +:+ "Archive").
Proof.
  split; [|split].
  - destruct (missing_sheet_step inert_effect
                (act_setFormula "Archive" "B2" "=A2*2" true) "setFormula"
                (plan_step (act_setFormula "Archive" "B2" "=A2*2" true))
                [plan_step (act_createSheet "Report")] 0 [] sample_world
                eq_refl eq_refl) as [H _].
    apply H; [apply (bool_decide_unpack _); by vm_compute|reflexivity].
  - destruct (missing_sheet_step inert_effect
                (act_deleteSheet "Archive") "deleteSheet"
                (plan_step (act_deleteSheet "Archive"))
                [plan_step (act_createSheet "Report")] 0 [] sample_world
                eq_refl eq_refl) as (_ & _ & _ & H & _).
    apply (H "Archive"); reflexivity.
  - destruct (missing_sheet_step inert_effect
                (act_deleteRows "Archive" [2; 3]) "deleteRows"
                (plan_step (act_deleteRows "Archive" [2; 3]))
                [plan_step (act_createSheet "Report")] 0 [] sample_world
                eq_refl eq_refl) as (_ & _ & _ & _ & _ & _ & H).
    apply (H ltac:(apply (bool_decide_unpack _); by vm_compute) "Archive" eq_refl);
      [discriminate|reflexivity].
Defined.

(** Two plans on a workbook without a sheet "Archive": after a deleteSheet
    step that names it the next step runs; after a deleteRows step it does
    not. *)
Example missing_sheet_sample_runs :
  fst (executeStepPlan inert_effect
         [plan_step (act_deleteSheet "Archive");
          plan_step (act_createSheet "Report")] sample_world)
  = [mkStepResult 1 "done" "Sheet not found: Archive";
     mkStepResult 2 "done" "Created sheet 'Report'"]
  ∧ fst (executeStepPlan inert_effect
           [plan_step (act_deleteRows "Archive" [2; 3]);
            plan_step (act_createSheet "Report")] sample_world)
    = [mkStepResult 1 "error" "Error: Sheet not found: Archive"].
Proof. split; vm_compute; reflexivity. Qed.

(** C10 (as stated) fails: a deleteRows step that names a missing sheet is
    recorded with status "error" and the plan stops there; the createSheet
    step after it never runs. *)
Lemma missing_sheet_halts_plan :
  fst (executeStepPlan inert_effect
         [plan_step (act_deleteRows "Archive" [2; 3]);
          plan_step (act_createSheet "Report")] sample_world)
  = [mkStepResult 1 "error" "Error: Sheet not found: Archive"]
  ∧ (sheetName <$> sheets (book (snd (executeStepPlan inert_effect
         [plan_step (act_deleteRows "Archive" [2; 3]);
          plan_step (act_createSheet "Report")] sample_world))))
    = ["Data"].
Proof. split; vm_compute; reflexivity. Qed.

(** ** The workbook keeps a sheet *)

Lemma keeps_ret {A} (v : A) : keeps_nonempty (mret v).
Proof. by intros w Hw. Qed.

Lemma keeps_throw {A} (msg : string) : keeps_nonempty (@throw A msg).
Proof. by intros w Hw. Qed.

Lemma keeps_bind {A B} (m : M A) (k : A → M B) :
  keeps_nonempty m → (∀ v, keeps_nonempty (k v)) → keeps_nonempty (m ≫= k).
Proof.
  intros Hm Hk w Hw. specialize (Hm w Hw). unfold_monad.
  destruct (m w) as [[v|msg] w']; simpl in *; [by apply Hk|done].
Qed.

Lemma keeps_log c : keeps_nonempty (log c).
Proof. by intros w Hw. Qed.

Lemma keeps_flush : keeps_nonempty flush.
Proof. apply keeps_log. Qed.

Lemma keeps_get_book : keeps_nonempty get_book.
Proof. by intros w Hw. Qed.

Lemma keeps_getSheetByName name : keeps_nonempty (getSheetByName name).
Proof. by intros w Hw. Qed.

Lemma keeps_getActiveSheet : keeps_nonempty getActiveSheet.
Proof.
  intros w Hw. unfold getActiveSheet.
  by destruct (sheets (book w) !! activeIndex (book w)), (sheets (book w)).
Qed.

Lemma keeps_getSheets_length : keeps_nonempty getSheets_length.
Proof. by intros w Hw. Qed.

Lemma keeps_read_sheet sh : keeps_nonempty (read_sheet sh).
Proof. intros w Hw. unfold read_sheet. by destruct (sheets (book w) !! sh). Qed.

Lemma keeps_write_sheet sh s : keeps_nonempty (write_sheet sh s).
Proof.
  intros w Hw. unfold nonempty, write_sheet in *. simpl.
  intros Hnil. apply (f_equal length) in Hnil. rewrite length_insert in Hnil.
  by destruct (sheets (book w)).
Qed.

Lemma keeps_colLetterM col : keeps_nonempty (colLetterM col).
Proof.
  intros w Hw. unfold colLetterM. by destruct (Codec._colLetter col (colCache w)).
Qed.

Lemma keeps_sheet_getRange sh r c nr nc : keeps_nonempty (sheet_getRange sh r c nr nc).
Proof. unfold sheet_getRange. destruct (_ && _); [apply keeps_ret|apply keeps_throw]. Qed.

Lemma keeps_sheet_getRangeA1 sh a1 : keeps_nonempty (sheet_getRangeA1 sh a1).
Proof. unfold sheet_getRangeA1. destruct (a1_rect a1); [apply keeps_ret|apply keeps_throw]. Qed.

Lemma keeps_insertSheet name : keeps_nonempty (insertSheet name).
Proof.
  intros w Hw. unfold nonempty, insertSheet, get_book, put_book, log in *.
  unfold_monad. simpl. by destruct (sheets (book w)).
Qed.

Lemma keeps_sheet_copyTo sh : keeps_nonempty (sheet_copyTo sh).
Proof.
  intros w Hw. unfold nonempty, sheet_copyTo, read_sheet, get_book, put_book, log in *.
  unfold_monad. destruct (sheets (book w) !! sh); simpl; [|done].
  by destruct (sheets (book w)).
Qed.

Create HintDb keeps discriminated.
#[local] Hint Resolve keeps_ret keeps_throw keeps_log keeps_flush keeps_get_book
  keeps_getSheetByName keeps_getActiveSheet keeps_getSheets_length keeps_read_sheet
  keeps_write_sheet keeps_colLetterM keeps_sheet_getRange keeps_sheet_getRangeA1
  keeps_insertSheet keeps_sheet_copyTo : keeps.

(** Split a handler along its binds, matches and conditionals. *)
Ltac keeps_step :=
  match goal with
  | |- keeps_nonempty (_ ≫= _) => apply keeps_bind; [|intros ?]
  | |- keeps_nonempty (match ?x with _ => _ end) => destruct x
  | |- keeps_nonempty (if ?b then _ else _) => destruct b
  | |- keeps_nonempty (let _ := _ in _) => cbv zeta
  | |- keeps_nonempty _ => solve [auto with keeps]
  end.
Ltac keeps := repeat keeps_step.

Lemma keeps_sheet_getName sh : keeps_nonempty (sheet_getName sh).
Proof. unfold sheet_getName. keeps. Qed.
Lemma keeps_sheet_getLastRow sh : keeps_nonempty (sheet_getLastRow sh).
Proof. unfold sheet_getLastRow. keeps. Qed.
Lemma keeps_range_setFormula sh rc f : keeps_nonempty (range_setFormula sh rc f).
Proof. unfold range_setFormula. keeps. Qed.
Lemma keeps_range_setValues sh rc v : keeps_nonempty (range_setValues sh rc v).
Proof. unfold range_setValues. keeps. Qed.
Lemma keeps_range_copyTo sh a b : keeps_nonempty (range_copyTo sh a b).
Proof. unfold range_copyTo. keeps. Qed.
Lemma keeps_range_clear sh rc : keeps_nonempty (range_clear sh rc).
Proof. unfold range_clear. keeps. Qed.
Lemma keeps_range_clearContent sh rc : keeps_nonempty (range_clearContent sh rc).
Proof. unfold range_clearContent. keeps. Qed.
Lemma keeps_range_clearFormat sh rc : keeps_nonempty (range_clearFormat sh rc).
Proof. unfold range_clearFormat. keeps. Qed.
Lemma keeps_sheet_clear sh : keeps_nonempty (sheet_clear sh).
Proof. unfold sheet_clear. keeps. Qed.
Lemma keeps_sheet_deleteRows sh a b : keeps_nonempty (sheet_deleteRows sh a b).
Proof. unfold sheet_deleteRows. keeps. Qed.
Lemma keeps_sheet_setName sh n : keeps_nonempty (sheet_setName sh n).
Proof. unfold sheet_setName. keeps. Qed.

#[local] Hint Resolve keeps_sheet_getName keeps_sheet_getLastRow keeps_range_setFormula
  keeps_range_setValues keeps_range_copyTo keeps_range_clear keeps_range_clearContent
  keeps_range_clearFormat keeps_sheet_clear keeps_sheet_deleteRows keeps_sheet_setName : keeps.

Lemma keeps_getSheet name : keeps_nonempty (_getSheet name).
Proof. unfold _getSheet. keeps. Qed.
Lemma keeps_sheet_or_active name : keeps_nonempty (sheet_or_active name).
Proof. unfold sheet_or_active. keeps. Qed.
#[local] Hint Resolve keeps_getSheet keeps_sheet_or_active : keeps.

Lemma keeps_createSheet name : keeps_nonempty (createSheet name).
Proof. unfold createSheet. keeps. Qed.
Lemma keeps_setFormula n c f b : keeps_nonempty (setFormula n c f b).
Proof. unfold setFormula. keeps. Qed.
Lemma keeps_setValues n r v : keeps_nonempty (setValues n r v).
Proof. unfold setValues. keeps. Qed.
Lemma keeps_autoFillDown n c l : keeps_nonempty (autoFillDown n c l).
Proof. unfold autoFillDown. keeps. Qed.
Lemma keeps_readRange_json n r : keeps_nonempty (readRange_json n r).
Proof. unfold readRange_json. keeps. Qed.
Lemma keeps_clearRange n r t : keeps_nonempty (_clearRange n r t).
Proof. unfold _clearRange. keeps. Qed.
Lemma keeps_renameSheet a b : keeps_nonempty (_renameSheet a b).
Proof. unfold _renameSheet. keeps. Qed.
Lemma keeps_copySheet a b : keeps_nonempty (_copySheet a b).
Proof. unfold _copySheet. keeps. Qed.

Lemma keeps_deleteRows_loop fuel : ∀ sh rows deleted,
  keeps_nonempty (deleteRows_loop fuel sh rows deleted).
Proof.
  induction fuel as [|fuel IH]; intros sh rows deleted; simpl; [apply keeps_ret|].
  destruct rows; [apply keeps_ret|]. keeps.
Qed.
#[local] Hint Resolve keeps_deleteRows_loop : keeps.

Lemma keeps_deleteRows n r c : keeps_nonempty (_deleteRows n r c).
Proof. unfold _deleteRows, deleteRows_rows. keeps. Qed.

(** The host call [deleteSheet] is safe when at least two sheets exist. *)
Lemma deleteSheet_two (sh : nat) (w : World) :
  (2 ≤ length (sheets (book w)))%nat → nonempty (snd (deleteSheet sh w)).
Proof.
  intros Hlen. unfold nonempty, deleteSheet, read_sheet, get_book, put_book, log.
  unfold_monad. destruct (sheets (book w) !! sh) eqn:Hsh; simpl.
  - intros Hnil. apply (f_equal length) in Hnil.
    rewrite length_delete in Hnil by eauto. simpl in Hnil. lia.
  - destruct (sheets (book w)); simpl in *; [lia|done].
Qed.

(** [_deleteSheet]: the guard [ss.getSheets().length <= 1] stands before
    the host call. *)
Lemma keeps_deleteSheet name : keeps_nonempty (_deleteSheet name).
Proof.
  intros w Hw. unfold _deleteSheet, getSheetByName, getSheets_length.
  unfold_monad. simpl.
  destruct (list_find _ _) as [[sh s]|]; simpl; [|done].
  destruct (Z.leb_spec (Z.of_nat (length (sheets (book w)))) 1) as [Hle|Hgt]; [done|].
  pose proof (deleteSheet_two sh w ltac:(lia)) as Hdel.
  destruct (deleteSheet sh w) as [[[]|msg] w']; simpl in *; done.
Qed.

(** With a single sheet, [_deleteSheet] changes nothing at all. *)
Lemma deleteSheet_last_is_noop name w :
  length (sheets (book w)) = 1%nat → snd (_deleteSheet name w) = w.
Proof.
  intros Hlen. unfold _deleteSheet, getSheetByName, getSheets_length.
  unfold_monad. simpl.
  destruct (list_find _ _) as [[sh s]|]; simpl; [|done].
  by rewrite Hlen.
Qed.

Lemma keeps_undo_delete_loop names : ∀ results,
  keeps_nonempty (undo_delete_loop names results).
Proof.
  induction names as [|name names IH]; intros results; simpl; [apply keeps_ret|].
  intros w Hw. unfold getSheetByName, getSheets_length. unfold_monad. simpl.
  destruct (list_find _ _) as [[sh s]|]; simpl; [|by apply IH].
  destruct (Z.ltb_spec 1 (Z.of_nat (length (sheets (book w))))) as [Hgt|Hle];
    [|by apply IH].
  pose proof (deleteSheet_two sh w ltac:(lia)) as Hdel.
  destruct (deleteSheet sh w) as [[[]|msg] w']; simpl in *; [by apply IH|done].
Qed.

Lemma keeps_undo_clear_loop entries : ∀ results,
  keeps_nonempty (undo_clear_loop entries results).
Proof.
  induction entries as [|entry entries IH]; intros results; simpl; [apply keeps_ret|].
  keeps.
Qed.
#[local] Hint Resolve keeps_deleteSheet keeps_undo_delete_loop keeps_undo_clear_loop : keeps.

Lemma keeps_undoSheetActions undoInfo : keeps_nonempty (undoSheetActions undoInfo).
Proof. unfold undoSheetActions, undo_results. keeps. Qed.

Lemma keeps_colLetters_loop cols : keeps_nonempty (colLetters_loop cols).
Proof. induction cols as [|col cols IH]; simpl; keeps. Qed.
#[local] Hint Resolve keeps_colLetters_loop : keeps.

Lemma keeps_getActiveRange : keeps_nonempty getActiveRange.
Proof. by intros w Hw. Qed.
Lemma keeps_selection_getValues rc : keeps_nonempty (selection_getValues rc).
Proof. unfold selection_getValues. keeps. Qed.
#[local] Hint Resolve keeps_getActiveRange keeps_selection_getValues : keeps.

Lemma keeps_getSheetData : keeps_nonempty getSheetData.
Proof. unfold getSheetData, _readSheetData. keeps. Qed.

Section DispatchKeeps.
Variable eff : string → Action → Workbook → Sheet → Outcome string * Sheet.

Lemma keeps_run_local handler action sh : keeps_nonempty (run_local eff handler action sh).
Proof.
  unfold run_local. keeps.
Qed.
#[local] Hint Resolve keeps_run_local : keeps.

Lemma keeps_on_active_sheet handler action :
  keeps_nonempty (on_active_sheet eff handler action).
Proof. unfold on_active_sheet. keeps. Qed.
Lemma keeps_on_getSheet handler action : keeps_nonempty (on_getSheet eff handler action).
Proof. unfold on_getSheet. keeps. Qed.
Lemma keeps_formatRange action : keeps_nonempty (formatRange eff action).
Proof. unfold formatRange. keeps. Qed.
Lemma keeps_on_sheet_or_active handler name action :
  keeps_nonempty (on_sheet_or_active eff handler name action).
Proof. unfold on_sheet_or_active. keeps. Qed.
Lemma keeps_copyRange action : keeps_nonempty (_copyRange eff action).
Proof. unfold _copyRange. keeps. Qed.

Lemma keeps_handlers :
  Forall (λ th : string * (Action → M string), ∀ action, keeps_nonempty (th.2 action))
         (handlers eff).
Proof.
  unfold handlers.
  repeat (apply Forall_cons; split; [intros action; simpl|]); [..|apply Forall_nil];
    auto using keeps_on_active_sheet, keeps_on_getSheet, keeps_formatRange,
      keeps_on_sheet_or_active, keeps_copyRange, keeps_createSheet, keeps_setFormula,
      keeps_setValues, keeps_autoFillDown, keeps_readRange_json, keeps_clearRange,
      keeps_renameSheet, keeps_copySheet, keeps_deleteSheet, keeps_deleteRows.
  destruct (_ && _); apply keeps_on_sheet_or_active.
Qed.

Lemma keeps_executeSheetAction action : keeps_nonempty (executeSheetAction eff action).
Proof.
  unfold executeSheetAction. destruct (negb _); [apply keeps_ret|].
  destruct (lookup_handler _ _) as [h|] eqn:Hh; [|apply keeps_ret].
  apply lookup_handler_Some in Hh.
  pose proof keeps_handlers as Hall. rewrite Forall_forall in Hall.
  apply (Hall _ Hh).
Qed.

Lemma keeps_dispatch_step step : keeps_nonempty (dispatch_step eff step).
Proof.
  unfold dispatch_step.
  destruct (step_action step); [apply keeps_executeSheetAction|apply keeps_ret..].
Qed.

Lemma keeps_executeStepPlan_loop steps : ∀ i results w,
  nonempty w → nonempty (snd (executeStepPlan_loop eff steps i results w)).
Proof.
  induction steps as [|step steps IH]; intros i results w Hw; [done|].
  cbn [executeStepPlan_loop].
  pose proof (keeps_dispatch_step step w Hw) as Hd.
  destruct (dispatch_step eff step w) as [[r|msg] w1]; simpl in *; [|done].
  apply IH. by apply keeps_flush.
Qed.

Lemma keeps_run_op op w : nonempty w → nonempty (run_op eff op w).
Proof.
  intros Hw. destruct op as [action|steps|undoInfo|]; cbn [run_op].
  - exact (keeps_executeSheetAction action w Hw).
  - unfold executeStepPlan. exact (keeps_executeStepPlan_loop steps 0 [] w Hw).
  - exact (keeps_undoSheetActions undoInfo w Hw).
  - exact (keeps_getSheetData w Hw).
Qed.

Lemma reachable_nonempty w : reachable eff w → nonempty w.
Proof. induction 1 as [w Hw|w op _ IH]; [done|by apply keeps_run_op]. Qed.

End DispatchKeeps.

(** C5. In every reachable state the workbook has at least one sheet, and
    every engine operation (a dispatched action, a plan, an undo, a read)
    leaves it with at least one sheet; when a single sheet is left,
    [_deleteSheet] and the deleting loop of [undoSheetActions] issue no
    delete call and leave the list of sheets as it is. *)
Theorem workbook_keeps_a_sheet
    (eff : string → Action → Workbook → Sheet → Outcome string * Sheet)
    (w : World) (op : EngineOp) :
  reachable eff w →
  sheets (book w) ≠ []
  ∧ sheets (book (run_op eff op w)) ≠ []
  ∧ (length (sheets (book w)) = 1%nat →
     (∀ name, snd (_deleteSheet name w) = w)
     ∧ (∀ names results, snd (undo_delete_loop names results w) = w)).
Proof.
  intros Hreach. pose proof (reachable_nonempty eff w Hreach) as Hw.
  split; [exact Hw|]. split; [by apply keeps_run_op|].
  intros Hlen. split; [intros name; by apply deleteSheet_last_is_noop|].
  intros names. induction names as [|name names IH]; intros results; simpl; [done|].
  unfold getSheetByName, getSheets_length. unfold_monad. simpl.
  destruct (list_find _ _) as [[sh s]|]; simpl; [|apply IH].
  rewrite Hlen. simpl. apply IH.
Qed.

Lemma workbook_keeps_a_sheet_witness :
  sheets (book sample_world) ≠ []
  ∧ sheets (book (run_op inert_effect (OpExecuteSheetAction (act_deleteSheet "Data"))
                    sample_world)) ≠ []
  ∧ (length (sheets (book sample_world)) = 1%nat →
     (∀ name, snd (_deleteSheet name sample_world) = sample_world)
     ∧ (∀ names results, snd (undo_delete_loop names results sample_world) = sample_world)).
Proof.
  apply (workbook_keeps_a_sheet inert_effect sample_world
           (OpExecuteSheetAction (act_deleteSheet "Data"))).
  apply reachable_init. discriminate.
Defined.

(** Deleting the only sheet through the dispatcher is refused with a
    message, and the document is untouched. *)
Example deleteSheet_last_refused :
  executeSheetAction inert_effect (act_deleteSheet "Data") sample_world
  = (Returned "Cannot delete the last sheet", sample_world).
Proof. reflexivity. Qed.

(** ** Undo *)

Section UndoFacts.








End UndoFacts.



(** The example of the ledger for the sheet "Summary": the sheet stays, the
    guard is reported, both ranges on it are cleared. *)
Example undo_sample_run :
  fst (undoSheetActions (Some sample_undo) (one_sheet_world summary_sheet))
  = Returned "Cannot delete 'Summary' (last sheet); Cleared Summary!A2:B3; Cleared Summary!B5"
  ∧ (sheetName <$> sheets (book (snd (undoSheetActions (Some sample_undo)
                                        (one_sheet_world summary_sheet)))))
    = ["Summary"]
  ∧ trace (snd (undoSheetActions (Some sample_undo) (one_sheet_world summary_sheet)))
    = [HClear "Summary" (mkRect 2 1 2 2); HClear "Summary" (mkRect 5 2 1 1)].
Proof. repeat split; vm_compute; reflexivity. Qed.

(** Both lists empty: "Nothing to undo", and nothing changes. *)
Example undo_nothing (w : World) :
  undoSheetActions (Some (mkUndoInfo [] [])) w = (Returned "Nothing to undo", w).
Proof. reflexivity. Qed.

(** ** setFormula *)

Lemma getSheetByName_found (name : string) (sh : nat) (s : Sheet) (w : World) :
  list_find (λ s', sheetName s' = name) (sheets (book w)) = Some (sh, s) →
  getSheetByName (Some name) w = (Returned (Some sh), w)
  ∧ read_sheet sh w = (Returned s, w).
Proof.
  intros Hfind. unfold getSheetByName, read_sheet. simpl. rewrite Hfind. simpl.
  apply list_find_Some in Hfind as (Hsh & _ & _). by rewrite Hsh.
Qed.

(** A formula that is an equals sign, one of the listed names and an
    opening parenthesis is classified auto-spill. *)
Lemma autoSpillNames_classified (name rest : string) :
  name ∈ autoSpillNames →
  isAutoSpill ("=" +:+ name +:+ "(" +:+ rest) = true.
Proof.
  intros Hin. unfold autoSpillNames in Hin.
  repeat (apply elem_of_cons in Hin as [->|Hin]); [..|by apply not_elem_of_nil in Hin];
    reflexivity.
Qed.

(** C4. A setFormula call with fillDown on an existing sheet and a
    resolvable cell, whose formula is classified auto-spill, returns
    normally with the message "... (auto-spill, fillDown skipped)"; the only
    host call it issues is the write of the formula to the target cell: no
    flush, no copy. *)
Theorem setFormula_autospill_skips_fill
    (w : World) (name cell formula : string) (sh : nat) (s : Sheet) (rc : Rect) :
  isAutoSpill formula = true →
  list_find (λ s', sheetName s' = name) (sheets (book w)) = Some (sh, s) →
  a1_rect cell = Some rc →
  setFormula (Some name) cell formula true w
  = (Returned ("Set formula in " +:+ name +:+ "!" +:+ cell +:+ " (auto-spill, fillDown skipped)"),
     mkWorld
       (mkWorkbook
          (<[sh := mkSheet (sheetName s) (fill_rect rc formula (cells s))
                           (grow_to rc (maxRows s))]> (sheets (book w)))
          (activeIndex (book w)) (activeRange (book w)))
       (colCache w)
       (trace w ++ [HSetFormula (sheetName s) rc formula])).
Proof.
  intros Hspill Hfind Hrc.
  destruct (getSheetByName_found name sh s w Hfind) as [Hget Hread].
  unfold setFormula. rewrite (bind_returned _ _ _ _ _ Hget).
  unfold sheet_getRangeA1. rewrite Hrc.
  unfold range_setFormula. unfold_monad. rewrite Hread.
  rewrite Hspill. reflexivity.
Qed.

Lemma setFormula_autospill_skips_fill_witness :
  setFormula (Some "Summary") "D2" "=UNIQUE(A2:A100)" true (one_sheet_world summary_sheet)
  = (Returned ("Set formula in " +:+ "Summary" +:+ "!" +:+ "D2"
               +:+ " (auto-spill, fillDown skipped)"),
     mkWorld
       (mkWorkbook
          (<[0%nat := mkSheet (sheetName summary_sheet)
                        (fill_rect (mkRect 2 4 1 1) "=UNIQUE(A2:A100)" (cells summary_sheet))
                        (grow_to (mkRect 2 4 1 1) (maxRows summary_sheet))]>
             (sheets (book (one_sheet_world summary_sheet))))
          (activeIndex (book (one_sheet_world summary_sheet)))
          (activeRange (book (one_sheet_world summary_sheet))))
       (colCache (one_sheet_world summary_sheet))
       (trace (one_sheet_world summary_sheet)
        ++ [HSetFormula (sheetName summary_sheet) (mkRect 2 4 1 1) "=UNIQUE(A2:A100)"])).
Proof.
  apply (setFormula_autospill_skips_fill (one_sheet_world summary_sheet)
           "Summary" "D2" "=UNIQUE(A2:A100)" 0%nat summary_sheet (mkRect 2 4 1 1));
    reflexivity.
Defined.

(** The same call, evaluated: the formula is in D2, nothing was copied. *)
Example setFormula_unique_run :
  fst (setFormula (Some "Summary") "D2" "=UNIQUE(A2:A100)" true
         (one_sheet_world summary_sheet))
  = Returned "Set formula in Summary!D2 (auto-spill, fillDown skipped)"
  ∧ trace (snd (setFormula (Some "Summary") "D2" "=UNIQUE(A2:A100)" true
                  (one_sheet_world summary_sheet)))
    = [HSetFormula "Summary" (mkRect 2 4 1 1) "=UNIQUE(A2:A100)"].
Proof. split; vm_compute; reflexivity. Qed.

Lemma read_sheet_ok (sh : nat) (s : Sheet) (w : World) :
  sheets (book w) !! sh = Some s → read_sheet sh w = (Returned s, w).
Proof. intros H. unfold read_sheet. by rewrite H. Qed.

Lemma lookup_write_sheet (sh : nat) (s s1 : Sheet) (w : World) :
  sheets (book w) !! sh = Some s →
  sheets (book (snd (write_sheet sh s1 w))) !! sh = Some s1.
Proof.
  intros H. unfold write_sheet. simpl.
  apply list_lookup_insert_eq. by eapply lookup_lt_Some.
Qed.

Lemma range_setFormula_ok (sh : nat) (s : Sheet) (rc : Rect) (formula : string) (w : World) :
  sheets (book w) !! sh = Some s →
  range_setFormula sh rc formula w
  = (Returned tt,
     snd (log (HSetFormula (sheetName s) rc formula)
            (snd (write_sheet sh (mkSheet (sheetName s) (fill_rect rc formula (cells s))
                                          (grow_to rc (maxRows s))) w)))).
Proof.
  intros H. unfold range_setFormula.
  by rewrite (bind_returned _ _ _ _ _ (read_sheet_ok sh s w H)).
Qed.

Lemma range_copyTo_ok (sh : nat) (s : Sheet) (src dst : Rect) (w : World) :
  sheets (book w) !! sh = Some s →
  range_copyTo sh src dst w
  = (Returned tt,
     snd (log (HCopyTo (sheetName s) src dst)
            (snd (write_sheet sh
                    (mkSheet (sheetName s)
                       (fill_rect dst (get_cell (r_row src) (r_col src) (cells s)) (cells s))
                       (grow_to dst (maxRows s))) w)))).
Proof.
  intros H. unfold range_copyTo.
  by rewrite (bind_returned _ _ _ _ _ (read_sheet_ok sh s w H)).
Qed.

Lemma sheet_getLastRow_ok (sh : nat) (s : Sheet) (w : World) :
  sheets (book w) !! sh = Some s →
  sheet_getLastRow sh w = (Returned (last_row (cells s)), w).
Proof.
  intros H. unfold sheet_getLastRow.
  by rewrite (bind_returned _ _ _ _ _ (read_sheet_ok sh s w H)).
Qed.

Lemma sheet_getRange_ok (sh : nat) (row col nr nc : Z) (w : World) :
  1 ≤ row → 1 ≤ col → 1 ≤ nr → 1 ≤ nc →
  sheet_getRange sh row col nr nc w = (Returned (mkRect row col nr nc), w).
Proof.
  intros. unfold sheet_getRange.
  destruct (Z.leb_spec 1 row), (Z.leb_spec 1 col), (Z.leb_spec 1 nr), (Z.leb_spec 1 nc);
    try lia. reflexivity.
Qed.

(** What the fill-down of [setFormula] does: the formula cell is copied
    down to the last row of the whole sheet that holds content; the
    computed [refCol] plays no part. *)
Lemma setFormula_fill_extent
    (w : World) (name cell formula : string) (sh : nat) (s : Sheet) (rc : Rect)
    (colLetter digits : string) :
  isAutoSpill formula = false →
  list_find (λ s', sheetName s' = name) (sheets (book w)) = Some (sh, s) →
  a1_rect cell = Some rc →
  match_cell_ref cell = Some (colLetter, digits) →
  1 ≤ parseInt digits → 1 ≤ Codec._letterToColumn colLetter →
  parseInt digits < last_row (fill_rect rc formula (cells s)) →
  trace (snd (setFormula (Some name) cell formula true w))
  = trace w ++ [ HSetFormula (sheetName s) rc formula; HFlush;
                 HCopyTo (sheetName s)
                   (mkRect (parseInt digits) (Codec._letterToColumn colLetter) 1 1)
                   (mkRect (parseInt digits) (Codec._letterToColumn colLetter)
                      (last_row (fill_rect rc formula (cells s)) - parseInt digits + 1) 1) ].
Proof.
  intros Hspill Hfind Hrc Hmatch Hrow Hcol Hlast.
  destruct (getSheetByName_found name sh s w Hfind) as [Hget Hread].
  assert (Hsh : sheets (book w) !! sh = Some s).
  { by apply list_find_Some in Hfind as (? & _ & _). }
  unfold setFormula. rewrite (bind_returned _ _ _ _ _ Hget).
  unfold sheet_getRangeA1. rewrite Hrc. rewrite bind_ret_l.
  rewrite (bind_returned _ _ _ _ _ (range_setFormula_ok sh s rc formula w Hsh)).
  rewrite Hspill, Hmatch. cbn [andb negb].
  set (s1 := mkSheet (sheetName s) (fill_rect rc formula (cells s)) (grow_to rc (maxRows s))).
  set (w1 := snd (log _ (snd (write_sheet sh s1 w)))).
  assert (Hsh1 : sheets (book w1) !! sh = Some s1).
  { subst w1. apply (lookup_write_sheet sh s s1 w Hsh). }
  rewrite (bind_returned _ _ _ _ _ (eq_refl : flush w1 = (Returned tt, snd (flush w1)))).
  set (w2 := snd (flush w1)).
  assert (Hsh2 : sheets (book w2) !! sh = Some s1) by exact Hsh1.
  assert (Hinner :
    (sheet_getLastRow sh ≫= λ lastDataRow : Z,
       if parseInt digits <? lastDataRow
       then sheet_getRange sh (parseInt digits) (Codec._letterToColumn colLetter) 1 1
            ≫= λ sourceRange : Rect,
               sheet_getRange sh (parseInt digits) (Codec._letterToColumn colLetter)
                             (lastDataRow - parseInt digits + 1) 1
               ≫= λ destRange : Rect, range_copyTo sh sourceRange destRange
       else mret ()) w2
    = (Returned tt,
       snd (range_copyTo sh
              (mkRect (parseInt digits) (Codec._letterToColumn colLetter) 1 1)
              (mkRect (parseInt digits) (Codec._letterToColumn colLetter)
                 (last_row (cells s1) - parseInt digits + 1) 1) w2))).
  { rewrite (bind_returned _ _ _ _ _ (sheet_getLastRow_ok sh s1 w2 Hsh2)).
    subst s1. cbn [cells].
    destruct (Z.ltb_spec (parseInt digits) (last_row (fill_rect rc formula (cells s))));
      [|lia].
    rewrite (bind_returned _ _ _ _ _ (sheet_getRange_ok sh _ _ 1 1 w2 Hrow Hcol
                                        ltac:(lia) ltac:(lia))).
    assert (Hn : 1 ≤ last_row (fill_rect rc formula (cells s)) - parseInt digits + 1) by lia.
    rewrite (bind_returned _ _ _ _ _ (sheet_getRange_ok sh _ _ _ 1 w2 Hrow Hcol
                                        Hn ltac:(lia))).
    by rewrite (range_copyTo_ok sh _ _ _ w2 Hsh2). }
  rewrite (bind_returned _ _ _ _ _ Hinner).
  rewrite (range_copyTo_ok sh s1 _ _ w2 Hsh2). subst w2 w1 s1. cbn.
  by rewrite <- !app_assoc.
Qed.

(** C2 at a sheet where the neighbour column is shorter than another one.
    Column A, the column to the left of the formula cell B2, ends at row
    11; column D ends at row 20.  The fill-down copies B2 down to row 20
    (19 rows from row 2), not to row 11: the extent comes from the last
    row of the sheet, and the computed neighbour column is never read. *)
Theorem setFormula_fill_ignores_adjacent_column :
  last_row_of_column (adjacent_column 2) (cells orders_sheet) = 11
  ∧ fst (setFormula (Some "Orders") "B2" "=SUMIF(Sheet1!A:A,A2,Sheet1!B:B)" true
           (one_sheet_world orders_sheet))
    = Returned "Set formula in Orders!B2 (filled down)"
  ∧ trace (snd (setFormula (Some "Orders") "B2" "=SUMIF(Sheet1!A:A,A2,Sheet1!B:B)" true
                  (one_sheet_world orders_sheet)))
    = [ HSetFormula "Orders" (mkRect 2 2 1 1) "=SUMIF(Sheet1!A:A,A2,Sheet1!B:B)";
        HFlush;
        HCopyTo "Orders" (mkRect 2 2 1 1) (mkRect 2 2 19 1) ]
  ∧ (sheets (book (snd (setFormula (Some "Orders") "B2" "=SUMIF(Sheet1!A:A,A2,Sheet1!B:B)"
                          true (one_sheet_world orders_sheet))))
       !! 0%nat ≫= λ s, cells s !! (20, 2))
    = Some "=SUMIF(Sheet1!A:A,A2,Sheet1!B:B)".
Proof. repeat split; vm_compute; reflexivity. Qed.

(** When no column reaches below the neighbour column, the two extents
    coincide: with data only in A2:A11 the formula fills B2:B11. *)
Example setFormula_fill_plain :
  trace (snd (setFormula (Some "Orders") "B2" "=SUMIF(Sheet1!A:A,A2,Sheet1!B:B)" true
                (one_sheet_world orders_sheet_plain)))
  = [ HSetFormula "Orders" (mkRect 2 2 1 1) "=SUMIF(Sheet1!A:A,A2,Sheet1!B:B)";
      HFlush;
      HCopyTo "Orders" (mkRect 2 2 1 1) (mkRect 2 2 10 1) ].
Proof. vm_compute. reflexivity. Qed.

(** ** Payload guard *)

Lemma colLetters_loop_sound (cols : list Z) : ∀ w,
  cache_sound (colCache w) →
  ∃ cache',
    colLetters_loop cols w
    = (Returned (Codec.colLetter_compute <$> cols), mkWorld (book w) cache' (trace w))
    ∧ cache_sound cache'.
Proof.
  induction cols as [|col cols IH]; intros w Hsound; simpl.
  - exists (colCache w). split; [by destruct w|done].
  - destruct (colLetter_cache_sound col (colCache w) Hsound) as [Hfst Hsnd].
    unfold colLetterM. unfold_monad.
    destruct (Codec._colLetter col (colCache w)) as [letter cache1] eqn:Hcl.
    simpl in Hfst, Hsnd. subst letter.
    destruct (IH (mkWorld (book w) cache1 (trace w)) Hsnd) as (cache' & Hloop & Hsound').
    rewrite Hloop. simpl. by exists cache'.
Qed.

Lemma read_block_length (s : Sheet) : (length (read_block s) ≤ Z.to_nat MAX_ROWS)%nat.
Proof.
  unfold read_block, rect_values. rewrite length_fmap, length_seqZ. simpl. lia.
Qed.

Lemma getActiveSheet_ok (w : World) :
  sheets (book w) ≠ [] →
  ∃ sh a, getActiveSheet w = (Returned sh, w)
          ∧ sheets (book w) !! sh = Some a
          ∧ active_sheet (book w) = Some a.
Proof.
  intros Hne. unfold getActiveSheet, active_sheet.
  destruct (sheets (book w) !! activeIndex (book w)) as [a|] eqn:Ha.
  - by exists (activeIndex (book w)), a.
  - destruct (sheets (book w)) as [|s0 l] eqn:Hl; [done|]. by exists 0%nat, s0.
Qed.

(** Reading the selection: all of it, from the active sheet. *)
Lemma selection_read (w : World) :
  sheets (book w) ≠ [] →
  match activeRange (book w) with
  | Some rc => selection_getValues rc
  | None => mret []
  end w
  = (Returned (selected_values (book w)), w).
Proof.
  intros Hne. unfold selected_values.
  destruct (getActiveSheet_ok w Hne) as (sh & a & Hactive & Hsh & ->).
  destruct (activeRange (book w)) as [rc|]; [|done].
  unfold selection_getValues.
  rewrite (bind_returned _ _ _ _ _ Hactive).
  by rewrite (bind_returned _ _ _ _ _ (read_sheet_ok sh a w Hsh)).
Qed.

(** One run of [_readSheetData]: it returns [payload_of], and only the
    memo table changes. *)
Lemma readSheetData_run (w : World) (sh : nat) (s : Sheet) :
  cache_sound (colCache w) →
  sheets (book w) !! sh = Some s →
  ∃ cache',
    _readSheetData sh w
    = (Returned (payload_of s (book w)), mkWorld (book w) cache' (trace w))
    ∧ cache_sound cache'.
Proof.
  intros Hsound Hsh.
  destruct (colLetters_loop_sound
              (seqZ (r_col (sheet_getDataRange s)) (r_cols (sheet_getDataRange s))) w Hsound)
    as (cache' & Hloop & Hsound').
  exists cache'. split; [|done].
  unfold _readSheetData.
  rewrite (bind_returned _ _ _ _ _ (read_sheet_ok sh s w Hsh)).
  cbv zeta.
  rewrite (bind_returned _ _ _ _ _
    (sheet_getRange_ok sh (r_row (sheet_getDataRange s)) (r_col (sheet_getDataRange s))
       (Z.min (r_rows (sheet_getDataRange s)) MAX_ROWS) (r_cols (sheet_getDataRange s)) w
       ltac:(simpl; lia) ltac:(simpl; lia) ltac:(simpl; unfold MAX_ROWS; lia)
       ltac:(simpl; lia))).
  rewrite (bind_returned _ _ _ _ _ Hloop).
  change (build_cells _ _ _) with (built_cells s).
  set (w1 := mkWorld (book w) cache' (trace w)).
  rewrite (bind_returned _ _ _ _ _
             (eq_refl : getActiveRange w1 = (Returned (activeRange (book w)), w1))).
  assert (Hne : sheets (book w1) ≠ []).
  { subst w1. simpl. intros Hnil. by rewrite Hnil in Hsh. }
  rewrite (bind_returned _ _ _ _ _ (selection_read w1 Hne)).
  unfold payload_of. subst w1. cbn [book].
  by destruct (MAX_CELLS <? Z.of_nat (size (built_cells s))).
Qed.

(** [getSheetData] reads the active sheet. *)
Lemma getSheetData_run (w : World) (s : Sheet) :
  cache_sound (colCache w) →
  sheets (book w) !! activeIndex (book w) = Some s →
  ∃ cache',
    getSheetData w = (Returned (payload_of s (book w)), mkWorld (book w) cache' (trace w)).
Proof.
  intros Hsound Hs.
  destruct (readSheetData_run w (activeIndex (book w)) s Hsound Hs) as (cache' & Hrun & _).
  exists cache'. unfold getSheetData.
  assert (Hactive : getActiveSheet w = (Returned (activeIndex (book w)), w)).
  { unfold getActiveSheet. by rewrite Hs. }
  by rewrite (bind_returned _ _ _ _ _ Hactive).
Qed.

Lemma selected_values_shape (b : Workbook) (rc : Rect) :
  sheets b ≠ [] →
  activeRange b = Some rc →
  length (selected_values b) = Z.to_nat (r_rows rc)
  ∧ Forall (λ row, length row = Z.to_nat (r_cols rc)) (selected_values b).
Proof.
  intros Hne Hrc. unfold selected_values, active_sheet. rewrite Hrc.
  assert (Ha : ∃ a, match sheets b !! activeIndex b with
                    | Some s => Some s
                    | None => head (sheets b)
                    end = Some a).
  { destruct (sheets b !! activeIndex b) as [a|]; [by exists a|].
    destruct (sheets b) as [|s0 l]; [done|]. by exists s0. }
  destruct Ha as [a ->]. unfold rect_values. split.
  - by rewrite length_fmap, length_seqZ.
  - apply Forall_fmap, Forall_forall. intros r _. simpl.
    by rewrite length_fmap, length_seqZ.
Qed.

Lemma value_count_rect_values (rc : Rect) (m : gmap (Z * Z) string) :
  0 ≤ r_rows rc → 0 ≤ r_cols rc →
  value_count (rect_values rc m) = r_rows rc * r_cols rc.
Proof.
  intros Hr Hc. unfold value_count, rect_values.
  assert (Hlen : ∀ rows : list Z,
            length (concat ((λ r, (λ c, get_cell r c m) <$> seqZ (r_col rc) (r_cols rc))
                              <$> rows))
            = (length rows * Z.to_nat (r_cols rc))%nat).
  { induction rows as [|r rows IH]; [done|].
    rewrite fmap_cons. cbn [concat]. rewrite length_app, IH, length_fmap, length_seqZ.
    simpl. lia. }
  rewrite Hlen, length_seqZ. lia.
Qed.

(** The block read from [tall_sheet] fills 52,000 entries. *)
Lemma built_cells_tall_size : Z.of_nat (size (built_cells tall_sheet)) = 52000.
Proof. vm_compute. reflexivity. Qed.

Lemma tall_sheet_oversized : MAX_CELLS < Z.of_nat (size (built_cells tall_sheet)).
Proof. rewrite built_cells_tall_size. unfold MAX_CELLS. lia. Qed.

(** C9 (as the code has it). [_readSheetData] builds the [cells] object
    from a block of at most MAX_ROWS rows of the data range and counts its
    entries.  If the count exceeds MAX_CELLS the payload has truncated =
    true, an empty cells map, a reason and the count; otherwise the payload
    carries the built map.  The oversized map is never returned (it has
    been built for the count).  Beside that, and in both cases, the payload
    carries the selection: its A1 name and all of its values, read from the
    active sheet without any cap on rows or cells, so that the rows read
    and the values returned are bounded by the size of the selection
    only. *)
Theorem readSheetData_guard (w : World) (sh : nat) (s : Sheet) :
  cache_sound (colCache w) →
  sheets (book w) !! sh = Some s →
  ∃ d w',
    _readSheetData sh w = (Returned d, w')
    ∧ book w' = book w
    ∧ (length (read_block s) ≤ Z.to_nat MAX_ROWS)%nat
    ∧ (MAX_CELLS < Z.of_nat (size (built_cells s)) →
         sd_truncated d = true
         ∧ sd_cells d = ∅
         ∧ sd_truncatedReason d
           = Some ("Sheet has " +:+ pretty (Z.of_nat (size (built_cells s)))
                   +:+ " cells (max " +:+ pretty MAX_CELLS
                   +:+ "). Please select a smaller range.")
         ∧ sd_cellCount d = Some (Z.of_nat (size (built_cells s))))
    ∧ (Z.of_nat (size (built_cells s)) ≤ MAX_CELLS →
         sd_cells d = built_cells s
         ∧ sd_truncated d = (MAX_ROWS <? r_rows (sheet_getDataRange s))
         ∧ sd_truncatedReason d = None)
    ∧ sd_selectedRange d = (rect_a1 <$> activeRange (book w))
    ∧ sd_selectedValues d = selected_values (book w)
    ∧ (∀ rc, activeRange (book w) = Some rc →
         length (sd_selectedValues d) = Z.to_nat (r_rows rc)
         ∧ Forall (λ row, length row = Z.to_nat (r_cols rc)) (sd_selectedValues d)).
Proof.
  intros Hsound Hsh.
  destruct (readSheetData_run w sh s Hsound Hsh) as (cache' & Hrun & _).
  assert (Hne : sheets (book w) ≠ []).
  { intros Hnil. by rewrite Hnil in Hsh. }
  exists (payload_of s (book w)), (mkWorld (book w) cache' (trace w)).
  split; [exact Hrun|]. split; [reflexivity|].
  split; [apply read_block_length|].
  unfold payload_of.
  destruct (Z.ltb_spec MAX_CELLS (Z.of_nat (size (built_cells s)))) as [Hbig|Hsmall];
    cbn [sd_truncated sd_cells sd_truncatedReason sd_cellCount sd_selectedRange
         sd_selectedValues];
    (split; [intros; try lia; done|]); (split; [intros; try lia; done|]);
    (split; [done|]); (split; [done|]);
    intros rc Hrc; by apply selected_values_shape.
Qed.

Lemma readSheetData_guard_witness :
  ∃ d w',
    _readSheetData 0 selected_world = (Returned d, w')
    ∧ sd_truncated d = true
    ∧ sd_cells d = ∅
    ∧ sd_cellCount d = Some (Z.of_nat (size (built_cells tall_sheet)))
    ∧ length (sd_selectedValues d) = Z.to_nat (r_rows (mkRect 1 1 2001 26)).
Proof.
  destruct (readSheetData_guard selected_world 0 tall_sheet) as
    (d & w' & Hrun & _ & _ & Hbig & _ & _ & _ & Hsel).
  - intros k s. unfold selected_world. cbn [colCache]. by rewrite lookup_empty.
  - reflexivity.
  - destruct (Hbig tall_sheet_oversized) as (Ht & Hc & _ & Hn).
    destruct (Hsel (mkRect 1 1 2001 26) eq_refl) as [Hlen _].
    exists d, w'. exact (conj Hrun (conj Ht (conj Hc (conj Hn Hlen)))).
Defined.

(** C9 (as stated) fails twice, on a sheet of 2001 full rows and 26
    columns that the user has selected as a whole.  The [cells] object that
    the script fills from the first MAX_ROWS rows has 52,000 entries, more
    than MAX_CELLS; it is counted and then left out of the payload, which
    reports that count.  And the truncated payload still carries the
    selection: 2001 rows, more than MAX_ROWS, with 52,026 values, more than
    MAX_CELLS. *)
Lemma readSheetData_exceeds_caps :
  Z.of_nat (size (built_cells tall_sheet)) = 52000
  ∧ ∃ d, fst (getSheetData selected_world) = Returned d
         ∧ sd_truncated d = true
         ∧ sd_cells d = ∅
         ∧ sd_cellCount d = Some 52000
         ∧ Z.of_nat (length (sd_selectedValues d)) = 2001
         ∧ value_count (sd_selectedValues d) = 52026.
Proof.
  split; [exact built_cells_tall_size|].
  destruct (getSheetData_run selected_world tall_sheet) as (cache' & Hrun).
  { intros k s. unfold selected_world. cbn [colCache]. by rewrite lookup_empty. }
  { reflexivity. }
  exists (payload_of tall_sheet (book selected_world)).
  split; [rewrite Hrun; reflexivity|].
  unfold payload_of. cbv zeta.
  destruct (Z.ltb_spec MAX_CELLS (Z.of_nat (size (built_cells tall_sheet)))) as [_|Hsmall];
    [|pose proof tall_sheet_oversized; lia].
  cbn [sd_truncated sd_cells sd_cellCount sd_selectedValues].
  split; [reflexivity|]. split; [reflexivity|].
  split; [by rewrite built_cells_tall_size|].
  assert (Hsel : selected_values (book selected_world)
                 = rect_values (mkRect 1 1 2001 26) (cells tall_sheet)) by reflexivity.
  rewrite Hsel. split.
  - unfold rect_values. rewrite length_fmap, length_seqZ. reflexivity.
  - by rewrite value_count_rect_values.
Qed.

(** ** _deleteRows *)

Lemma strict_desc_of_sorted (rows : list Z) :
  StronglySorted (flip Z.le) rows → NoDup rows → strict_desc rows.
Proof.
  induction 1 as [|x l Hl IH Hx]; intros Hnd; [constructor|].
  apply NoDup_cons in Hnd as [Hnot Hnd].
  constructor; [by apply IH|].
  rewrite Forall_forall in Hx |- *. intros y Hy. specialize (Hx y Hy).
  unfold flip in Hx. assert (y ≠ x) by (intros ->; done). lia.
Qed.

Lemma sort_desc_strict (rows : list Z) : NoDup rows → strict_desc (sort_desc rows).
Proof.
  intros Hnd. apply strict_desc_of_sorted.
  - apply StronglySorted_merge_sort.
    + intros x y z. unfold flip. lia.
    + intros x y. unfold flip. lia.
  - unfold sort_desc. by rewrite merge_sort_Permutation.
Qed.

Lemma sort_desc_perm (rows : list Z) : sort_desc rows ≡ₚ rows.
Proof. apply merge_sort_Permutation. Qed.

(** The inner loop stops at the end of the run of consecutive rows that
    starts at [start]: it counts the rows [start - c], [start - c - 1], ...
    at the front of [rest], and every row after them is strictly below
    the next value of the run. *)
Lemma run_length_spec (rest : list Z) : ∀ (start : Z) (c : nat),
  strict_desc rest →
  Forall (λ r, r ≤ start - Z.of_nat c) rest →
  (c ≤ run_length start c rest ≤ c + length rest)%nat
  ∧ take (run_length start c rest - c) rest
    = (λ i : nat, start - Z.of_nat i) <$> seq c (run_length start c rest - c)
  ∧ Forall (λ r, r < start - Z.of_nat (run_length start c rest))
           (drop (run_length start c rest - c) rest).
Proof.
  induction rest as [|r rest IH]; intros start c Hsorted Hle; simpl.
  - rewrite Nat.sub_diag. simpl. repeat split; [lia..|constructor].
  - apply StronglySorted_inv in Hsorted as [Hsorted Hr].
    apply Forall_cons in Hle as [Hrle Hle].
    destruct (Z.eqb_spec r (start - Z.of_nat c)) as [Heq|Hne].
    + destruct (IH start (S c) Hsorted) as (Hn & Htake & Hdrop).
      { rewrite Forall_forall in Hr |- *. intros y Hy. specialize (Hr y Hy). lia. }
      split; [lia|].
      replace (run_length start (S c) rest - c)%nat
        with (S (run_length start (S c) rest - S c)) by lia.
      simpl. rewrite Htake. split; [by rewrite Heq|done].
    + rewrite Nat.sub_diag. simpl. split; [lia|]. split; [done|].
      constructor; [lia|].
      rewrite Forall_forall in Hr |- *. intros y Hy. specialize (Hr y Hy). lia.
Qed.

Lemma first_run (start : Z) (rest : list Z) :
  strict_desc (start :: rest) →
  (1 ≤ run_length start 1 rest ≤ S (length rest))%nat
  ∧ take (run_length start 1 rest) (start :: rest)
    = (λ i : nat, start - Z.of_nat i) <$> seq 0 (run_length start 1 rest)
  ∧ Forall (λ r, r < start - Z.of_nat (run_length start 1 rest))
           (drop (run_length start 1 rest) (start :: rest))
  ∧ strict_desc (drop (run_length start 1 rest) (start :: rest)).
Proof.
  intros Hsorted. pose proof Hsorted as Hall.
  apply StronglySorted_inv in Hsorted as [Hrest Hlt].
  destruct (run_length_spec rest start 1 Hrest) as (Hn & Htake & Hdrop).
  { rewrite Forall_forall in Hlt |- *. intros y Hy. specialize (Hlt y Hy). lia. }
  destruct (run_length start 1 rest) as [|m]; [lia|].
  replace (S m - 1)%nat with m in * by lia.
  split; [lia|]. simpl. rewrite Htake. split; [by rewrite Z.sub_0_r|].
  split; [done|].
  unfold strict_desc. rewrite <- (take_drop m rest) in Hrest.
  by apply StronglySorted_app_1_r in Hrest.
Qed.

Lemma elem_of_run (start : Z) (n : nat) (r : Z) :
  r ∈ ((λ i : nat, start - Z.of_nat i) <$> seq 0 n)
  ↔ r ∈ seqZ (start - Z.of_nat n + 1) (Z.of_nat n).
Proof.
  rewrite list_elem_of_fmap, elem_of_seqZ. split.
  - intros (i & -> & Hi). apply elem_of_seq in Hi. lia.
  - intros Hr. exists (Z.to_nat (start - r)). split; [lia|].
    apply elem_of_seq. lia.
Qed.

(** The batches computed for a strictly descending array: every batch has
    at least one row, each batch lies below the one before it with a gap,
    and together the batches cover exactly the rows of the array, each
    once. *)
Lemma delete_batches_spec (fuel : nat) : ∀ rows,
  (length rows ≤ fuel)%nat →
  strict_desc rows →
  Forall (λ sc : Z * Z, 1 ≤ sc.2) (delete_batches fuel rows)
  ∧ Sorted batch_below (delete_batches fuel rows)
  ∧ (∀ bound, Forall (λ r, r < bound) rows →
              Forall (λ sc : Z * Z, sc.1 + sc.2 ≤ bound) (delete_batches fuel rows))
  ∧ (∀ r, r ∈ batch_rows (delete_batches fuel rows) ↔ r ∈ rows)
  ∧ length (batch_rows (delete_batches fuel rows)) = length rows.
Proof.
  induction fuel as [|fuel IH]; intros rows Hfuel Hsorted.
  - destruct rows; [|simpl in Hfuel; lia]. simpl.
    repeat split; try constructor; done.
  - destruct rows as [|start rest]; [simpl; repeat split; try constructor; done|].
    destruct (first_run start rest Hsorted) as (Hn & Htake & Hdrop & Hsorted').
    cbn [delete_batches]. set (n := run_length start 1 rest) in *.
    destruct (IH (drop n (start :: rest))) as (Hcnt & Hsrt & Hbound & Hmem & Hlen).
    { rewrite length_drop. simpl in *. lia. }
    { exact Hsorted'. }
    split; [constructor; [simpl; lia|done]|].
    split.
    { constructor; [done|].
      specialize (Hbound (start - Z.of_nat n) Hdrop).
      destruct (delete_batches fuel (drop n (start :: rest))) as [|b calls];
        constructor.
      apply Forall_cons in Hbound as [Hb _]. unfold batch_below. simpl. lia. }
    split.
    { intros bound Hall. constructor.
      - simpl. apply Forall_cons in Hall as [Hstart _]. lia.
      - apply Hbound. rewrite <- (take_drop n (start :: rest)) in Hall.
        by apply Forall_app in Hall as [_ Hall]. }
    split.
    { intros r. unfold batch_rows in *. rewrite bind_cons, elem_of_app. cbn [fst snd].
      rewrite Hmem, <- elem_of_run, <- Htake, <- elem_of_app.
      by rewrite take_drop. }
    unfold batch_rows in *. rewrite bind_cons, length_app, Hlen, length_seqZ.
    cbn [fst snd]. rewrite length_drop. simpl in *. lia.
Qed.

Lemma sheet_deleteRows_ok (sh : nat) (s : Sheet) (start count : Z) (w : World) :
  sheets (book w) !! sh = Some s →
  1 ≤ start → 1 ≤ count → start + count - 1 ≤ maxRows s → count < maxRows s →
  sheet_deleteRows sh start count w
  = (Returned tt,
     snd (log (HDeleteRows (sheetName s) start count)
            (snd (write_sheet sh (mkSheet (sheetName s) (shift_rows start count (cells s))
                                          (maxRows s - count)) w)))).
Proof.
  intros Hsh H1 H2 H3 H4. unfold sheet_deleteRows.
  rewrite (bind_returned _ _ _ _ _ (read_sheet_ok sh s w Hsh)).
  destruct (Z.leb_spec 1 start), (Z.leb_spec 1 count),
    (Z.leb_spec (start + count - 1) (maxRows s)), (Z.ltb_spec count (maxRows s)); try lia.
  reflexivity.
Qed.

Lemma lookup_write_sheet_ne (sh j : nat) (s1 : Sheet) (w : World) :
  j ≠ sh → sheets (book (snd (write_sheet sh s1 w))) !! j = sheets (book w) !! j.
Proof. intros Hne. unfold write_sheet. simpl. by apply list_lookup_insert_ne. Qed.

(** The batching loop on a strictly descending array of rows that lie in
    the grid and do not exhaust it: every host call succeeds, the calls
    are the computed batches, and the grid loses one row per array
    element. *)
Lemma deleteRows_loop_spec (fuel : nat) : ∀ rows sh s w deleted,
  (length rows ≤ fuel)%nat →
  strict_desc rows →
  Forall (λ r, 1 ≤ r ≤ maxRows s) rows →
  Z.of_nat (length rows) < maxRows s →
  sheets (book w) !! sh = Some s →
  ∃ w' s',
    deleteRows_loop fuel sh rows deleted w
    = (Returned (deleted + Z.of_nat (length rows)), w')
    ∧ sheets (book w') !! sh = Some s'
    ∧ sheetName s' = sheetName s
    ∧ maxRows s' = maxRows s - Z.of_nat (length rows)
    ∧ trace w' = trace w ++ ((λ sc : Z * Z, HDeleteRows (sheetName s) sc.1 sc.2)
                              <$> delete_batches fuel rows)
    ∧ (∀ j, j ≠ sh → sheets (book w') !! j = sheets (book w) !! j).
Proof.
  induction fuel as [|fuel IH]; intros rows sh s w deleted Hfuel Hsorted Hrange Hlen Hsh.
  - destruct rows; [|simpl in Hfuel; lia]. exists w, s. simpl.
    rewrite Z.add_0_r, app_nil_r, Z.sub_0_r. done.
  - destruct rows as [|start rest].
    { exists w, s. simpl. rewrite Z.add_0_r, app_nil_r, Z.sub_0_r. done. }
    destruct (first_run start rest Hsorted) as (Hn & Htake & Hdrop & Hsorted').
    cbn [deleteRows_loop delete_batches]. set (n := run_length start 1 rest) in *.
    assert (Hlow : 1 ≤ start - Z.of_nat n + 1).
    { assert (Hin : start - Z.of_nat (n - 1) ∈ start :: rest).
      { rewrite <- (take_drop n (start :: rest)), elem_of_app. left.
        rewrite Htake. apply list_elem_of_fmap. exists (n - 1)%nat. split; [done|].
        apply elem_of_seq. lia. }
      rewrite Forall_forall in Hrange. specialize (Hrange _ Hin). lia. }
    pose proof (Forall_inv Hrange) as Hstart. simpl in Hstart.
    rewrite (bind_returned _ _ _ _ _
      (sheet_deleteRows_ok sh s (start - Z.of_nat n + 1) (Z.of_nat n) w Hsh
         Hlow ltac:(lia) ltac:(lia) ltac:(simpl in Hlen; lia))).
    set (s1 := mkSheet (sheetName s) (shift_rows (start - Z.of_nat n + 1) (Z.of_nat n) (cells s))
                       (maxRows s - Z.of_nat n)).
    set (w1 := snd (log _ (snd (write_sheet sh s1 w)))).
    destruct (IH (drop n (start :: rest)) sh s1 w1 (deleted + Z.of_nat n))
      as (w' & s' & Hrun & Hsh' & Hname & Hrows & Htrace & Hother).
    { rewrite length_drop. simpl in *. lia. }
    { exact Hsorted'. }
    { rewrite Forall_forall in Hdrop, Hrange |- *. intros r Hr.
      specialize (Hdrop r Hr).
      assert (Hr' : r ∈ start :: rest).
      { rewrite <- (take_drop n (start :: rest)), elem_of_app. by right. }
      specialize (Hrange r Hr'). subst s1. simpl. lia. }
    { rewrite length_drop. subst s1. simpl in *. lia. }
    { subst w1. apply (lookup_write_sheet sh s s1 w Hsh). }
    exists w', s'. rewrite Hrun, Hsh', Hname, Hrows, Htrace.
    rewrite length_drop. subst s1 w1. simpl.
    split; [f_equal; f_equal; simpl in *; lia|]. split; [done|]. split; [done|].
    split; [simpl in *; lia|]. split; [by rewrite <- app_assoc|].
    intros j Hj. rewrite (Hother j Hj). by apply list_lookup_insert_ne.
Qed.

Lemma sheet_getName_ok (sh : nat) (s : Sheet) (w : World) :
  sheets (book w) !! sh = Some s → sheet_getName sh w = (Returned (sheetName s), w).
Proof.
  intros H. unfold sheet_getName.
  by rewrite (bind_returned _ _ _ _ _ (read_sheet_ok sh s w H)).
Qed.

(** C3. A [_deleteRows] call whose final rows form a non-empty set of rows
    of the grid (not all of them) issues its [deleteRows] host calls from
    the bottom of the sheet upwards: each call lies strictly below the one
    before it, with at least one kept row in between, so every call is a
    maximal run of consecutive rows; the calls cover exactly the rows of
    the set, each once; and afterwards the grid has as many rows less as
    the set has elements. *)
Theorem deleteRows_descending_batches
    (w : World) (name : option string) (rows : option (list Z))
    (condition : option Condition) (sh : nat) (s : Sheet) (l : list Z) :
  _getSheet name w = (Returned sh, w) →
  sheets (book w) !! sh = Some s →
  deleteRows_rows sh rows condition w = (Returned (Some l), w) →
  l ≠ [] →
  NoDup l →
  Forall (λ r, 1 ≤ r ≤ maxRows s) l →
  Z.of_nat (length l) < maxRows s →
  ∃ w' s',
    _deleteRows name rows condition w
    = (Returned ("Deleted " +:+ pretty (Z.of_nat (length l)) +:+ " row(s) from "
                 +:+ sheetName s), w')
    ∧ trace w' = trace w ++ ((λ sc : Z * Z, HDeleteRows (sheetName s) sc.1 sc.2)
                              <$> delete_batches (length l) (sort_desc l))
    ∧ Sorted batch_below (delete_batches (length l) (sort_desc l))
    ∧ Forall (λ sc : Z * Z, 1 ≤ sc.2) (delete_batches (length l) (sort_desc l))
    ∧ (∀ r, r ∈ batch_rows (delete_batches (length l) (sort_desc l)) ↔ r ∈ l)
    ∧ length (batch_rows (delete_batches (length l) (sort_desc l))) = length l
    ∧ sheets (book w') !! sh = Some s'
    ∧ maxRows s' = maxRows s - Z.of_nat (length l).
Proof.
  intros Hget Hsh Hrows Hne Hnd Hrange Hlen.
  pose proof (sort_desc_perm l) as Hperm.
  pose proof (sort_desc_strict l Hnd) as Hsorted.
  assert (Hlen' : length (sort_desc l) = length l) by (by rewrite Hperm).
  destruct (deleteRows_loop_spec (length (sort_desc l)) (sort_desc l) sh s w 0)
    as (w' & s' & Hrun & Hsh' & Hname & Hmax & Htrace & _);
    [lia|done|by rewrite Hperm|lia|done|].
  destruct (delete_batches_spec (length (sort_desc l)) (sort_desc l) ltac:(lia) Hsorted)
    as (Hcnt & Hsrt & _ & Hmem & Hcover).
  rewrite Hlen' in *.
  exists w', s'. split.
  { unfold _deleteRows.
    rewrite (bind_returned _ _ _ _ _ Hget), (bind_returned _ _ _ _ _ Hrows).
    destruct l as [|r0 l0]; [done|]. cbv zeta.
    rewrite Hlen'. rewrite (bind_returned _ _ _ _ _ Hrun).
    rewrite (bind_returned _ _ _ _ _ (sheet_getName_ok sh s' w' Hsh')).
    rewrite Hname, Z.add_0_l. reflexivity. }
  split; [done|]. split; [done|]. split; [done|].
  split; [intros r; by rewrite Hmem, Hperm|].
  split; [done|]. split; [done|]. done.
Qed.

Lemma deleteRows_descending_batches_witness :
  ∃ w' s',
    _deleteRows (Some "Log") (Some [9; 3; 5; 4]) None (one_sheet_world twenty_rows)
    = (Returned ("Deleted " +:+ pretty (Z.of_nat (length [9; 3; 5; 4])) +:+ " row(s) from "
                 +:+ sheetName twenty_rows), w')
    ∧ trace w' = trace (one_sheet_world twenty_rows)
                 ++ ((λ sc : Z * Z, HDeleteRows (sheetName twenty_rows) sc.1 sc.2)
                      <$> delete_batches (length [9; 3; 5; 4]) (sort_desc [9; 3; 5; 4]))
    ∧ Sorted batch_below (delete_batches (length [9; 3; 5; 4]) (sort_desc [9; 3; 5; 4]))
    ∧ Forall (λ sc : Z * Z, 1 ≤ sc.2)
             (delete_batches (length [9; 3; 5; 4]) (sort_desc [9; 3; 5; 4]))
    ∧ (∀ r, r ∈ batch_rows (delete_batches (length [9; 3; 5; 4]) (sort_desc [9; 3; 5; 4]))
            ↔ r ∈ [9; 3; 5; 4])
    ∧ length (batch_rows (delete_batches (length [9; 3; 5; 4]) (sort_desc [9; 3; 5; 4])))
      = length [9; 3; 5; 4]
    ∧ sheets (book w') !! 0%nat = Some s'
    ∧ maxRows s' = maxRows twenty_rows - Z.of_nat (length [9; 3; 5; 4]).
Proof.
  apply (deleteRows_descending_batches (one_sheet_world twenty_rows) (Some "Log")
           (Some [9; 3; 5; 4]) None 0%nat twenty_rows [9; 3; 5; 4]).
  - reflexivity.
  - reflexivity.
  - reflexivity.
  - discriminate.
  - apply (bool_decide_unpack _). by vm_compute.
  - apply (bool_decide_unpack _). by vm_compute.
  - vm_compute. reflexivity.
Defined.

(** Rows {3,4,5,9} of a twenty-row sheet: two host calls, first row 9, then
    rows 3 to 5, and sixteen rows are left. *)
Example deleteRows_sample_run :
  fst (_deleteRows (Some "Log") (Some [9; 3; 5; 4]) None (one_sheet_world twenty_rows))
  = Returned "Deleted 4 row(s) from Log"
  ∧ trace (snd (_deleteRows (Some "Log") (Some [9; 3; 5; 4]) None
                  (one_sheet_world twenty_rows)))
    = [HDeleteRows "Log" 9 1; HDeleteRows "Log" 3 3]
  ∧ (maxRows <$> sheets (book (snd (_deleteRows (Some "Log") (Some [9; 3; 5; 4]) None
                                      (one_sheet_world twenty_rows)))))
    = [16].
Proof. repeat split; vm_compute; reflexivity. Qed.

(** * Further properties of the script *)

(** ** Column codec: the other direction *)

Lemma colLetter_loop_fuel (f1 : nat) : ∀ (f2 : nat) (c : Z) (acc : string),
  (Z.to_nat c ≤ f1)%nat → (Z.to_nat c ≤ f2)%nat →
  Codec._colLetter_loop f1 c acc = Codec._colLetter_loop f2 c acc.
Proof.
  induction f1 as [|f1 IH]; intros f2 c acc H1 H2.
  - destruct f2; [done|]. simpl. destruct (Z.ltb_spec 0 c); [lia|done].
  - destruct f2 as [|f2]; simpl.
    + destruct (Z.ltb_spec 0 c); [lia|done].
    + destruct (Z.ltb_spec 0 c) as [Hpos|]; [|done].
      assert (Hq : 0 ≤ (c - 1) / 26 < c).
      { split; [apply Z.div_pos; lia|].
        apply Z.le_lt_trans with (c - 1); [|lia].
        apply Z.div_le_upper_bound; lia. }
      apply IH; lia.
Qed.

(** One turn of the encoder loop: the last letter is the digit of
    [(c - 1) mod 26], before it come the letters of [(c - 1) / 26]. *)
Lemma colLetter_compute_step (c : Z) :
  0 < c →
  Codec.colLetter_compute c
  = Codec.colLetter_compute ((c - 1) / 26)
    +:+ String (fromCharCode (65 + (c - 1) mod 26)) EmptyString.
Proof.
  intros Hpos. unfold Codec.colLetter_compute.
  destruct (Z.to_nat c) as [|f] eqn:Hf; [lia|]. simpl.
  destruct (Z.ltb_spec 0 c); [|lia].
  assert (Hq : 0 ≤ (c - 1) / 26 < c).
  { split; [apply Z.div_pos; lia|].
    apply Z.le_lt_trans with (c - 1); [|lia].
    apply Z.div_le_upper_bound; lia. }
  rewrite colLetter_loop_acc, Z.rem_mod_nonneg by lia.
  f_equal. apply colLetter_loop_fuel; lia.
Qed.

Lemma colLetter_compute_nonpos (c : Z) : c ≤ 0 → Codec.colLetter_compute c = EmptyString.
Proof.
  intros Hc. unfold Codec.colLetter_compute.
  destruct (Z.to_nat c) eqn:Hf; [done|lia].
Qed.

Lemma string_snoc_ind (P : string → Prop) :
  P EmptyString →
  (∀ s ch, P s → P (s +:+ String ch EmptyString)) →
  ∀ s, P s.
Proof.
  intros Hnil Hsnoc s.
  rewrite <- (string_of_list_ascii_of_string s).
  induction (list_ascii_of_string s) as [|ch l IH] using rev_ind; [done|].
  replace (string_of_list_ascii (l ++ [ch]))
    with (string_of_list_ascii l +:+ String ch EmptyString); [by apply Hsnoc|].
  clear. induction l as [|a l IH]; [done|]. simpl.
  by rewrite string_app_cons, IH.
Qed.

Lemma str_forall_app (p : ascii → bool) (s t : string) :
  str_forall p (s +:+ t) = str_forall p s && str_forall p t.
Proof.
  induction s as [|ch s IH]; [done|].
  rewrite string_app_cons. simpl. by rewrite IH, andb_assoc.
Qed.

Lemma string_app_snoc_ne (s t : string) (ch : ascii) : s +:+ String ch t ≠ EmptyString.
Proof. destruct s; [|rewrite string_app_cons]; discriminate. Qed.

Lemma is_upper_code (ch : ascii) : is_upper ch = true → 65 ≤ charCode ch ≤ 90.
Proof. unfold is_upper. intros H. apply andb_true_iff in H as [H1 H2]. lia. Qed.

Lemma fromCharCode_charCode (ch : ascii) : fromCharCode (charCode ch) = ch.
Proof.
  unfold fromCharCode, charCode. rewrite Nat2Z.id. apply ascii_nat_embedding.
Qed.

Lemma letterToColumn_snoc (s : string) (ch : ascii) :
  Codec._letterToColumn (s +:+ String ch EmptyString)
  = Codec._letterToColumn s * 26 + (charCode ch - 64).
Proof. unfold Codec._letterToColumn. by rewrite letterToColumn_loop_app. Qed.

Lemma letterToColumn_upper_nonneg (s : string) :
  str_forall is_upper s = true → 0 ≤ Codec._letterToColumn s.
Proof.
  induction s as [|s ch IH] using string_snoc_ind; [done|].
  rewrite str_forall_app, andb_true_iff. simpl. rewrite andb_true_r.
  intros [Hs Hch]. rewrite letterToColumn_snoc.
  apply is_upper_code in Hch. specialize (IH Hs). lia.
Qed.

Lemma colLetter_compute_letterToColumn (s : string) :
  str_forall is_upper s = true →
  Codec.colLetter_compute (Codec._letterToColumn s) = s.
Proof.
  induction s as [|s ch IH] using string_snoc_ind; [done|].
  rewrite str_forall_app, andb_true_iff. simpl. rewrite andb_true_r.
  intros [Hs Hch]. rewrite letterToColumn_snoc.
  pose proof (letterToColumn_upper_nonneg s Hs) as Hnn.
  apply is_upper_code in Hch.
  rewrite colLetter_compute_step by lia.
  replace ((Codec._letterToColumn s * 26 + (charCode ch - 64) - 1) / 26)
    with (Codec._letterToColumn s).
  2:{ apply Z.div_unique with (charCode ch - 65); lia. }
  replace ((Codec._letterToColumn s * 26 + (charCode ch - 64) - 1) mod 26)
    with (charCode ch - 65).
  2:{ apply Z.mod_unique with (Codec._letterToColumn s); lia. }
  rewrite IH by done.
  replace (65 + (charCode ch - 65)) with (charCode ch) by lia.
  by rewrite fromCharCode_charCode.
Qed.

Lemma string_length_snoc (s : string) (ch : ascii) :
  String.length (s +:+ String ch EmptyString) = S (String.length s).
Proof. induction s as [|c s IH]; [done|]. rewrite string_app_cons. simpl. by rewrite IH. Qed.

(** A column name of [n] capitals decodes to less than [27 ^ n]. *)
Lemma letterToColumn_upper_bound (s : string) :
  str_forall is_upper s = true →
  Codec._letterToColumn s ≤ 27 ^ Z.of_nat (String.length s) - 1.
Proof.
  induction s as [|s ch IH] using string_snoc_ind; [done|].
  rewrite str_forall_app, andb_true_iff. simpl. rewrite andb_true_r.
  intros [Hs Hch]. rewrite letterToColumn_snoc, string_length_snoc.
  apply is_upper_code in Hch. specialize (IH Hs).
  rewrite Nat2Z.inj_succ, Z.pow_succ_r by lia.
  assert (0 < 27 ^ Z.of_nat (String.length s)) by (apply Z.pow_pos_nonneg; lia).
  lia.
Qed.

(** Up to eleven capitals the decoded index is a safe integer, so the
    script's arithmetic on it is exact. *)
Lemma letterToColumn_safe (s : string) :
  str_forall is_upper s = true →
  (String.length s ≤ 11)%nat →
  Codec._letterToColumn s ≤ MAX_SAFE_INTEGER.
Proof.
  intros Hs Hlen. pose proof (letterToColumn_upper_bound s Hs) as Hb.
  assert (27 ^ Z.of_nat (String.length s) ≤ 27 ^ 11) by (apply Z.pow_le_mono_r; lia).
  unfold MAX_SAFE_INTEGER. change (27 ^ 11) with 5559060566555523 in *.
  change (2 ^ 53) with 9007199254740992. lia.
Qed.

(** X1. Encoding is the inverse of decoding on column names: for every
    string of at most eleven capital letters, the decoded index is within
    the integers that the script computes exactly, and
    [_colLetter(_letterToColumn(s))] is [s] again, whatever the script has
    memoised so far.  (From twelve letters on the index can exceed
    MAX_SAFE_INTEGER, where the script's doubles round.) *)
Theorem colLetter_letterToColumn (s : string) (cache : gmap Z string) :
  Codec.cache_reachable cache →
  str_forall is_upper s = true →
  (String.length s ≤ 11)%nat →
  Codec._letterToColumn s ≤ MAX_SAFE_INTEGER
  ∧ fst (Codec._colLetter (Codec._letterToColumn s) cache) = s.
Proof.
  intros Hreach Hs Hlen. split; [by apply letterToColumn_safe|].
  destruct (colLetter_cache_sound (Codec._letterToColumn s) cache
              (cache_reachable_sound _ Hreach)) as [-> _].
  by apply colLetter_compute_letterToColumn.
Qed.

Lemma colLetter_letterToColumn_witness :
  Codec._letterToColumn "ZZZ" ≤ MAX_SAFE_INTEGER
  ∧ fst (Codec._colLetter (Codec._letterToColumn "ZZZ") (snd (Codec._colLetter 27 ∅))) = "ZZZ".
Proof.
  apply (colLetter_letterToColumn "ZZZ" (snd (Codec._colLetter 27 ∅))).
  - apply Codec.cache_step, Codec.cache_init.
  - reflexivity.
  - simpl. lia.
Defined.

Lemma is_upper_fromCharCode (m : Z) : 0 ≤ m < 26 → is_upper (fromCharCode (65 + m)) = true.
Proof.
  intros Hm. unfold is_upper. rewrite charCode_fromCharCode by lia.
  apply andb_true_iff. lia.
Qed.

Lemma colLetter_compute_upper (n : Z) :
  1 ≤ n →
  str_forall is_upper (Codec.colLetter_compute n) = true
  ∧ Codec.colLetter_compute n ≠ EmptyString.
Proof.
  induction (Z.lt_wf 0 n) as [n _ IH]. intros Hn.
  rewrite colLetter_compute_step by lia.
  assert (Hq : 0 ≤ (n - 1) / 26 < n).
  { split; [apply Z.div_pos; lia|].
    apply Z.le_lt_trans with (n - 1); [|lia].
    apply Z.div_le_upper_bound; lia. }
  pose proof (Z.mod_pos_bound (n - 1) 26 ltac:(lia)) as Hm.
  split.
  - rewrite str_forall_app. simpl. rewrite is_upper_fromCharCode by done.
    rewrite andb_true_r.
    destruct (decide ((n - 1) / 26 = 0)) as [->|Hne]; [done|].
    apply IH; lia.
  - apply string_app_snoc_ne.
Qed.

(** X2. For every column index n >= 1 the encoder returns a non-empty
    string of capital letters, so its output always has the shape [A-Z]+
    that the script's cell-reference pattern expects. *)
Theorem colLetter_capitals (n : Z) (cache : gmap Z string) :
  Codec.cache_reachable cache →
  1 ≤ n →
  str_forall is_upper (fst (Codec._colLetter n cache)) = true
  ∧ fst (Codec._colLetter n cache) ≠ EmptyString.
Proof.
  intros Hreach Hn.
  destruct (colLetter_cache_sound n cache (cache_reachable_sound _ Hreach)) as [-> _].
  by apply colLetter_compute_upper.
Qed.

Lemma colLetter_capitals_witness :
  str_forall is_upper (fst (Codec._colLetter 18278 ∅)) = true
  ∧ fst (Codec._colLetter 18278 ∅) ≠ EmptyString.
Proof. apply (colLetter_capitals 18278 ∅); [apply Codec.cache_init|lia]. Defined.

(** ** Decimal row numbers *)

Lemma pretty_N_char_code (d : N) : (d < 10)%N → charCode (pretty_N_char d) = 48 + Z.of_N d.
Proof.
  intros Hd.
  assert (d = 0 ∨ d = 1 ∨ d = 2 ∨ d = 3 ∨ d = 4 ∨ d = 5 ∨ d = 6 ∨ d = 7 ∨ d = 8 ∨ d = 9)%N
    as Hcases by lia.
  repeat (destruct Hcases as [->|Hcases]; [reflexivity|]). by subst.
Qed.

Lemma pretty_N_go_app (x : N) : ∀ s, pretty_N_go x s = pretty_N_go x EmptyString +:+ s.
Proof.
  induction (N.lt_wf_0 x) as [x _ IH]; intros s.
  destruct (decide (x = 0)%N) as [->|Hx]; [by rewrite !pretty_N_go_0|].
  rewrite (pretty_N_go_step x s), (pretty_N_go_step x EmptyString) by lia.
  assert (Hlt : (x `div` 10 < x)%N) by (apply N.div_lt; lia).
  rewrite (IH _ Hlt (String _ s)), (IH _ Hlt (String _ EmptyString)).
  by rewrite <- string_app_assoc.
Qed.

Lemma parseInt_loop_app (s t : string) : ∀ acc,
  parseInt_loop (s +:+ t) acc = parseInt_loop t (parseInt_loop s acc).
Proof.
  induction s as [|ch s IH]; intros acc; [done|].
  rewrite string_app_cons. simpl. apply IH.
Qed.

Lemma pretty_N_go_digits (x : N) :
  str_forall is_digit (pretty_N_go x EmptyString) = true
  ∧ parseInt (pretty_N_go x EmptyString) = Z.of_N x.
Proof.
  induction (N.lt_wf_0 x) as [x _ IH].
  destruct (decide (x = 0)%N) as [->|Hx]; [done|].
  rewrite pretty_N_go_step by lia. rewrite pretty_N_go_app.
  destruct (IH (x `div` 10)%N ltac:(apply N.div_lt; lia)) as [IH1 IH2].
  pose proof (N.mod_lt x 10 ltac:(lia)) as Hm.
  split.
  - rewrite str_forall_app, IH1. simpl. unfold is_digit.
    rewrite pretty_N_char_code by done. rewrite andb_true_r.
    apply andb_true_iff. split; [apply Z.leb_le|apply Z.leb_le];
      generalize dependent (x `mod` 10)%N; intros d; lia.
  - unfold parseInt in *. rewrite parseInt_loop_app, IH2. simpl.
    rewrite pretty_N_char_code by done.
    pose proof (N.div_mod x 10 ltac:(lia)). lia.
Qed.

(** The decimal text of a non-negative row number is a non-empty string of
    digits that [parseInt] reads back. *)
Lemma pretty_row_digits (r : Z) :
  0 ≤ r →
  str_forall is_digit (pretty r) = true
  ∧ pretty r ≠ EmptyString
  ∧ parseInt (pretty r) = r.
Proof.
  intros Hr. destruct r as [|p|p]; [by repeat split| |lia].
  unfold pretty, pretty_Z, pretty, pretty_positive, pretty, pretty_N.
  rewrite decide_False by done.
  destruct (pretty_N_go_digits (N.pos p)) as [H1 H2].
  split; [done|]. split; [|done].
  rewrite pretty_N_go_step by lia. rewrite pretty_N_go_app.
  apply string_app_snoc_ne.
Qed.

(** ** Cell keys *)

Lemma span_app (p : ascii → bool) (s : string) (ch : ascii) (t : string) :
  str_forall p s = true → p ch = false →
  span p (s +:+ String ch t) = (s, String ch t).
Proof.
  intros Hs Hch. induction s as [|a s IH].
  - simpl. by rewrite Hch.
  - simpl in Hs. apply andb_true_iff in Hs as [Ha Hs].
    rewrite string_app_cons. simpl. by rewrite Ha, IH.
Qed.

Lemma digit_not_upper (ch : ascii) : is_digit ch = true → is_upper ch = false.
Proof.
  unfold is_digit, is_upper. intros H. apply andb_true_iff in H as [H1 H2].
  apply andb_false_iff. left. apply Z.leb_gt. lia.
Qed.

Lemma match_cell_ref_letters_digits (letters digits : string) :
  str_forall is_upper letters = true → letters ≠ EmptyString →
  str_forall is_digit digits = true → digits ≠ EmptyString →
  match_cell_ref (letters +:+ digits) = Some (letters, digits).
Proof.
  intros Hl Hlne Hd Hdne. unfold match_cell_ref.
  destruct digits as [|d digits]; [done|].
  pose proof Hd as Hd'. simpl in Hd'. apply andb_true_iff in Hd' as [Hd1 _].
  rewrite (span_app is_upper letters d digits Hl (digit_not_upper d Hd1)).
  destruct letters; [done|]. by rewrite Hd.
Qed.

(** X3. The key that [_readSheetData] gives a cell, the column letters
    followed by the decimal row number, is a cell reference for the
    pattern that [setFormula] and [autoFillDown] parse with, and parsing it
    gives the same column and row back. *)
Theorem cell_key_roundtrip (c r : Z) (cache : gmap Z string) :
  Codec.cache_reachable cache →
  1 ≤ c → 0 ≤ r →
  ∃ letters digits,
    match_cell_ref (fst (Codec._colLetter c cache) +:+ pretty r) = Some (letters, digits)
    ∧ Codec._letterToColumn letters = c
    ∧ parseInt digits = r.
Proof.
  intros Hreach Hc Hr.
  destruct (colLetter_cache_sound c cache (cache_reachable_sound _ Hreach)) as [-> _].
  destruct (colLetter_compute_upper c Hc) as [Hup Hne].
  destruct (pretty_row_digits r Hr) as (Hdig & Hdne & Hparse).
  exists (Codec.colLetter_compute c), (pretty r).
  split; [by apply match_cell_ref_letters_digits|].
  split; [apply letterToColumn_colLetter_compute; lia|done].
Qed.

Lemma cell_key_roundtrip_witness :
  ∃ letters digits,
    match_cell_ref (fst (Codec._colLetter 28 ∅) +:+ pretty 120) = Some (letters, digits)
    ∧ Codec._letterToColumn letters = 28
    ∧ parseInt digits = 120.
Proof. apply (cell_key_roundtrip 28 120 ∅); [apply Codec.cache_init|lia|lia]. Defined.

(** ** The auto-spill pattern *)

Lemma skip_spaces_app (ws t : string) :
  str_forall is_space ws = true →
  (match t with String ch _ => is_space ch = false | EmptyString => True end) →
  skip_spaces (ws +:+ t) = t.
Proof.
  intros Hws Ht. induction ws as [|a ws IH].
  - destruct t as [|ch t]; [done|]. simpl. by rewrite Ht.
  - simpl in Hws. apply andb_true_iff in Hws as [Ha Hws].
    rewrite string_app_cons. simpl. rewrite Ha. by apply IH.
Qed.

Lemma skip_spaces_split (s : string) :
  ∃ ws, s = ws +:+ skip_spaces s ∧ str_forall is_space ws = true.
Proof.
  induction s as [|ch s (ws & Hs & Hws)]; [by exists EmptyString|].
  simpl. destruct (is_space ch) eqn:Hch.
  - exists (String ch ws). rewrite string_app_cons, <- Hs. simpl. by rewrite Hch.
  - by exists EmptyString.
Qed.

Lemma upper_char_idemp (ch : ascii) : upper_char (upper_char ch) = upper_char ch.
Proof.
  unfold upper_char. destruct (is_lower ch) eqn:Hl; [|by rewrite Hl].
  unfold is_lower in *. apply andb_true_iff in Hl as [H1 H2].
  rewrite charCode_fromCharCode by lia.
  destruct (Z.leb_spec 97 (charCode ch - 32)); [lia|done].
Qed.

Lemma toUpperCase_idemp (s : string) : toUpperCase (toUpperCase s) = toUpperCase s.
Proof. induction s as [|ch s IH]; [done|]. simpl. by rewrite upper_char_idemp, IH. Qed.

(** [strip_prefix_ci name s] succeeds exactly when [s] starts with a
    spelling of [name] in some letter case. *)
Lemma strip_prefix_ci_spec (name : string) : ∀ s after,
  strip_prefix_ci name s = Some after
  ↔ ∃ nm, s = nm +:+ after ∧ toUpperCase nm = toUpperCase name.
Proof.
  induction name as [|a name IH]; intros s after; simpl.
  - split.
    + intros [= ->]. by exists EmptyString.
    + intros (nm & -> & Hnm). by destruct nm.
  - destruct s as [|b s].
    + split; [done|]. intros (nm & Hs & Hnm). by destruct nm.
    + destruct (Ascii.eqb_spec (upper_char a) (upper_char b)) as [Heq|Hne].
      * rewrite IH. split.
        -- intros (nm & -> & Hnm). exists (String b nm). simpl. by rewrite Hnm, Heq.
        -- intros (nm & Hs & Hnm). destruct nm as [|b' nm]; [done|].
           rewrite string_app_cons in Hs. simpl in Hnm. simplify_eq. by exists nm.
      * split; [done|]. intros (nm & Hs & Hnm). destruct nm as [|b' nm]; [done|].
        rewrite string_app_cons in Hs. simpl in Hnm. by simplify_eq.
Qed.

Lemma space_upper_char (ch : ascii) : is_space ch = true → upper_char ch = ch.
Proof.
  unfold is_space, upper_char, is_lower. intros H.
  destruct (Z.leb_spec 97 (charCode ch)); [|done].
  destruct (Z.leb_spec (charCode ch) 122); [|done]. exfalso.
  apply orb_true_iff in H as [H|H];
    [apply orb_true_iff in H as [H|H]; [apply andb_true_iff in H|apply Z.eqb_eq in H]
    |apply Z.eqb_eq in H]; lia.
Qed.

(** A spelling of one of the listed names starts with a character that is
    not a blank. *)
Lemma autoSpill_spelling_head (nm after : string) :
  toUpperCase nm ∈ autoSpillNames →
  match nm +:+ after with String ch _ => is_space ch = false | EmptyString => True end.
Proof.
  intros Hin. destruct nm as [|ch nm].
  { exfalso. simpl in Hin. unfold autoSpillNames in Hin.
    repeat (apply elem_of_cons in Hin as [Hin|Hin]; [discriminate|]).
    by apply not_elem_of_nil in Hin. }
  rewrite string_app_cons. destruct (is_space ch) eqn:Hsp; [|done]. exfalso.
  simpl in Hin. rewrite (space_upper_char ch Hsp) in Hin.
  unfold autoSpillNames in Hin.
  repeat (apply elem_of_cons in Hin as [Hin|Hin];
    [injection Hin as Hch _; subst ch; vm_compute in Hsp; discriminate|]).
  by apply not_elem_of_nil in Hin.
Qed.

Lemma autoSpillNames_upper (name : string) :
  name ∈ autoSpillNames → toUpperCase name = name.
Proof.
  intros Hin. unfold autoSpillNames in Hin.
  repeat (apply elem_of_cons in Hin as [->|Hin]); [..|by apply not_elem_of_nil in Hin];
    reflexivity.
Qed.

(** X4. Among the formulas whose code units are below 256 (the strings of
    this model), those that [setFormula] classifies as auto-spill are
    exactly the ones that consist of an equals sign, optional white space
    (TAB, LF, VT, FF, CR, SPACE, NBSP), one of the nine listed function
    names in any letter case, optional white space and an opening
    parenthesis, followed by anything.  In particular a listed function
    that is not the outermost one does not count. *)
Theorem isAutoSpill_iff (formula : string) :
  isAutoSpill formula = true
  ↔ ∃ ws1 nm ws2 rest,
      formula = "=" +:+ ws1 +:+ nm +:+ ws2 +:+ "(" +:+ rest
      ∧ str_forall is_space ws1 = true
      ∧ str_forall is_space ws2 = true
      ∧ toUpperCase nm ∈ autoSpillNames.
Proof.
  split.
  - intros H. destruct formula as [|ch rest0]; [done|].
    assert (ch = "="%char) as ->.
    { destruct ch as [[] [] [] [] [] [] [] []]; try discriminate H. reflexivity. }
    cbn [isAutoSpill] in H. apply existsb_exists in H as (name & Hname & H).
    apply list_elem_of_In in Hname.
    destruct (strip_prefix_ci name (skip_spaces rest0)) as [after|] eqn:Hstrip; [|done].
    apply strip_prefix_ci_spec in Hstrip as (nm & Hskip & Hnm).
    destruct (skip_spaces after) as [|p rest] eqn:Hafter; [done|].
    assert (p = "("%char) as ->.
    { destruct p as [[] [] [] [] [] [] [] []]; try discriminate H. reflexivity. }
    destruct (skip_spaces_split rest0) as (ws1 & Hrest0 & Hws1).
    destruct (skip_spaces_split after) as (ws2 & Hafter' & Hws2).
    exists ws1, nm, ws2, rest. split.
    { rewrite Hrest0, Hskip, Hafter', Hafter. reflexivity. }
    split; [done|]. split; [done|].
    by rewrite Hnm, (autoSpillNames_upper name Hname).
  - intros (ws1 & nm & ws2 & rest & -> & Hws1 & Hws2 & Hin).
    change ("=" +:+ ws1 +:+ nm +:+ ws2 +:+ "(" +:+ rest)
      with (String "=" (ws1 +:+ nm +:+ ws2 +:+ "(" +:+ rest)).
    cbn [isAutoSpill].
    rewrite (skip_spaces_app ws1 _ Hws1 (autoSpill_spelling_head nm _ Hin)).
    apply existsb_exists. exists (toUpperCase nm). split; [by apply list_elem_of_In|].
    assert (Hstrip : strip_prefix_ci (toUpperCase nm) (nm +:+ ws2 +:+ "(" +:+ rest)
                     = Some (ws2 +:+ "(" +:+ rest)).
    { apply strip_prefix_ci_spec. exists nm. by rewrite toUpperCase_idemp. }
    rewrite Hstrip.
    change ("(" +:+ rest) with (String "(" rest).
    by rewrite (skip_spaces_app ws2 (String "(" rest) Hws2 eq_refl).
Qed.

(** A listed function inside another call is not the leading function, so
    the formula is filled down like a scalar one. *)
Example isAutoSpill_nested : isAutoSpill "=IFERROR(UNIQUE(A2:A100))" = false.
Proof. reflexivity. Qed.

Example isAutoSpill_spaced : isAutoSpill "= sortn (A2:B9, 3)" = true.
Proof. reflexivity. Qed.

(** ** createSheet *)

Lemma createSheet_existing (name : string) (sh : nat) (s : Sheet) (w : World) :
  list_find (λ s', sheetName s' = name) (sheets (book w)) = Some (sh, s) →
  createSheet name w
  = (Returned ("Cleared existing sheet '" +:+ name +:+ "'"),
     mkWorld (mkWorkbook (<[sh := mkSheet (sheetName s) ∅ (maxRows s)]> (sheets (book w)))
                         (activeIndex (book w)) (activeRange (book w)))
             (colCache w) (trace w ++ [HClearSheet (sheetName s)])).
Proof.
  intros Hfind. destruct (getSheetByName_found name sh s w Hfind) as [Hget Hread].
  unfold createSheet. rewrite (bind_returned _ _ _ _ _ Hget).
  unfold sheet_clear. unfold_monad. by rewrite Hread.
Qed.

Lemma createSheet_new (name : string) (w : World) :
  list_find (λ s', sheetName s' = name) (sheets (book w)) = None →
  createSheet name w
  = (Returned ("Created sheet '" +:+ name +:+ "'"),
     mkWorld (mkWorkbook (sheets (book w) ++ [mkSheet name ∅ 1000])
                         (length (sheets (book w))) (Some (mkRect 1 1 1 1)))
             (colCache w) (trace w ++ [HInsertSheet name])).
Proof.
  intros Hfind. unfold createSheet, getSheetByName. unfold_monad. simpl.
  by rewrite Hfind.
Qed.

Lemma list_find_insert_same (name : string) (sh : nat) (s s1 : Sheet) (l : list Sheet) :
  list_find (λ s', sheetName s' = name) l = Some (sh, s) →
  sheetName s1 = name →
  list_find (λ s', sheetName s' = name) (<[sh := s1]> l) = Some (sh, s1).
Proof.
  intros Hfind Hname. apply list_find_Some in Hfind as (Hsh & _ & Hbefore).
  apply list_find_Some. split; [|split; [done|]].
  - apply list_lookup_insert_eq. by eapply lookup_lt_Some.
  - intros j y Hj Hlt. rewrite list_lookup_insert_ne in Hj by lia. by eapply Hbefore.
Qed.

Lemma list_find_app_new (name : string) (s1 : Sheet) (l : list Sheet) :
  list_find (λ s', sheetName s' = name) l = None →
  sheetName s1 = name →
  list_find (λ s', sheetName s' = name) (l ++ [s1]) = Some (length l, s1).
Proof.
  intros Hfind Hname. apply list_find_None in Hfind. rewrite Forall_forall in Hfind.
  apply list_find_Some. split; [|split; [done|]].
  - rewrite lookup_app_r by lia. by rewrite Nat.sub_diag.
  - intros j y Hj Hlt. rewrite lookup_app_l in Hj by lia.
    apply Hfind. by eapply list_elem_of_lookup_2.
Qed.

(** X5. [createSheet] is idempotent by name.  After [createSheet(name)] the
    workbook has an empty sheet of that name, having gained at most one
    sheet; calling [createSheet(name)] again reports "Cleared existing
    sheet" and adds no sheet. *)
Theorem createSheet_reuses_by_name (name : string) (w : World) :
  ∃ sh s,
    list_find (λ s', sheetName s' = name) (sheets (book (snd (createSheet name w))))
    = Some (sh, s)
    ∧ cells s = ∅
    ∧ (length (sheets (book w)) ≤ length (sheets (book (snd (createSheet name w))))
       ≤ S (length (sheets (book w))))%nat
    ∧ fst (createSheet name (snd (createSheet name w)))
      = Returned ("Cleared existing sheet '" +:+ name +:+ "'")
    ∧ length (sheets (book (snd (createSheet name (snd (createSheet name w))))))
      = length (sheets (book (snd (createSheet name w)))).
Proof.
  destruct (list_find (λ s', sheetName s' = name) (sheets (book w)))
    as [[sh s]|] eqn:Hfind.
  - pose proof Hfind as Hname. apply list_find_Some in Hname as (_ & Hname & _).
    rewrite (createSheet_existing name sh s w Hfind). cbn [snd book sheets].
    pose proof (list_find_insert_same name sh s (mkSheet (sheetName s) ∅ (maxRows s))
                  (sheets (book w)) Hfind Hname) as Hfind1.
    eexists _, _. split; [exact Hfind1|]. split; [done|].
    rewrite length_insert. split; [lia|].
    erewrite createSheet_existing by exact Hfind1.
    cbn [fst snd book sheets]. split; [done|]. by rewrite !length_insert.
  - rewrite (createSheet_new name w Hfind). cbn [snd book sheets].
    pose proof (list_find_app_new name (mkSheet name ∅ 1000) (sheets (book w))
                  Hfind eq_refl) as Hfind1.
    eexists _, _. split; [exact Hfind1|]. split; [done|].
    rewrite length_app. simpl. split; [lia|].
    erewrite createSheet_existing by exact Hfind1.
    cbn [fst snd book sheets]. split; [done|].
    rewrite length_insert, length_app. simpl. lia.
Qed.

(** ** Cells of a rectangle *)

Lemma get_cell_set_cell (r c r' c' : Z) (v : string) (m : gmap (Z * Z) string) :
  get_cell r c (set_cell r' c' v m)
  = if decide ((r, c) = (r', c')) then v else get_cell r c m.
Proof.
  unfold get_cell, set_cell.
  destruct (decide (v = EmptyString)) as [->|Hv]; case_decide as Heq.
  - injection Heq as -> ->. by rewrite lookup_delete_eq.
  - rewrite lookup_delete_ne; [done|]. intros Hk. by simplify_eq.
  - injection Heq as -> ->. by rewrite lookup_insert_eq.
  - rewrite lookup_insert_ne; [done|]. intros Hk. by simplify_eq.
Qed.

Lemma get_cell_fill_list (l : list (Z * Z)) (v : string) : ∀ (m : gmap (Z * Z) string) r c,
  get_cell r c (foldl (λ acc rc', set_cell rc'.1 rc'.2 v acc) m l)
  = if decide ((r, c) ∈ l) then v else get_cell r c m.
Proof.
  induction l as [|[r' c'] l IH]; intros m r c.
  - cbn [foldl]. case_decide as Hin; [by apply not_elem_of_nil in Hin|done].
  - cbn [foldl]. rewrite IH, get_cell_set_cell. cbn [fst snd].
    repeat case_decide; try done.
    + exfalso. match goal with H : _ ∉ _ :: _ |- _ => apply H end.
      by apply list_elem_of_further.
    + exfalso. match goal with H : _ ∉ _ :: _ |- _ => apply H end.
      match goal with H : (_, _) = (_, _) |- _ => rewrite H end. apply list_elem_of_here.
    + exfalso. match goal with H : _ ∈ _ :: _ |- _ => apply elem_of_cons in H as [?|?] end;
        done.
Qed.

Lemma elem_of_rect_cells (rc : Rect) (r c : Z) :
  (r, c) ∈ rect_cells rc
  ↔ (r_row rc ≤ r < r_row rc + r_rows rc) ∧ (r_col rc ≤ c < r_col rc + r_cols rc).
Proof.
  unfold rect_cells. rewrite list_elem_of_bind. split.
  - intros (r' & Hc & Hr). apply list_elem_of_bind in Hc as (c' & Hrc & Hc).
    apply list_elem_of_singleton in Hrc. injection Hrc as -> ->.
    apply elem_of_seqZ in Hr, Hc. lia.
  - intros [Hr Hc]. exists r. split; [|apply elem_of_seqZ; lia].
    apply list_elem_of_bind. exists c. split; [apply list_elem_of_here|].
    apply elem_of_seqZ. lia.
Qed.

(** Reading a cell after a rectangle was filled with [v]: [v] inside the
    rectangle, the old content outside. *)
Lemma get_cell_fill_rect (rc : Rect) (v : string) (m : gmap (Z * Z) string) (r c : Z) :
  get_cell r c (fill_rect rc v m)
  = if decide ((r_row rc ≤ r < r_row rc + r_rows rc)
               ∧ (r_col rc ≤ c < r_col rc + r_cols rc))
    then v else get_cell r c m.
Proof.
  unfold fill_rect. rewrite get_cell_fill_list.
  destruct (decide ((r, c) ∈ rect_cells rc)) as [Hin|Hnot].
  - rewrite decide_True; [done|]. by apply elem_of_rect_cells.
  - rewrite decide_False; [done|]. by rewrite <- elem_of_rect_cells.
Qed.

(** ** setFormula and autoFillDown *)

(** X6. A [setFormula] call with fillDown on a scalar formula answers
    "... (filled down)" also when it copies nothing: when the cell text is
    not of the form capital letters + digits, or when no content lies below
    the formula cell, the only host calls are the formula write and the
    flush. *)
Theorem setFormula_filled_down_without_copy
    (w : World) (name cell formula : string) (sh : nat) (s : Sheet) (rc : Rect) :
  isAutoSpill formula = false →
  list_find (λ s', sheetName s' = name) (sheets (book w)) = Some (sh, s) →
  a1_rect cell = Some rc →
  match match_cell_ref cell with
  | Some (_, digits) => last_row (fill_rect rc formula (cells s)) ≤ parseInt digits
  | None => True
  end →
  fst (setFormula (Some name) cell formula true w)
  = Returned ("Set formula in " +:+ name +:+ "!" +:+ cell +:+ " (filled down)")
  ∧ trace (snd (setFormula (Some name) cell formula true w))
    = trace w ++ [HSetFormula (sheetName s) rc formula; HFlush].
Proof.
  intros Hspill Hfind Hrc Hnone.
  destruct (getSheetByName_found name sh s w Hfind) as [Hget Hread].
  assert (Hsh : sheets (book w) !! sh = Some s).
  { by apply list_find_Some in Hfind as (? & _ & _). }
  unfold setFormula. rewrite (bind_returned _ _ _ _ _ Hget).
  unfold sheet_getRangeA1. rewrite Hrc. rewrite bind_ret_l.
  rewrite (bind_returned _ _ _ _ _ (range_setFormula_ok sh s rc formula w Hsh)).
  rewrite Hspill. cbn [andb negb].
  set (s1 := mkSheet (sheetName s) (fill_rect rc formula (cells s)) (grow_to rc (maxRows s))).
  set (w1 := snd (log _ (snd (write_sheet sh s1 w)))).
  assert (Hsh1 : sheets (book w1) !! sh = Some s1).
  { subst w1. apply (lookup_write_sheet sh s s1 w Hsh). }
  rewrite (bind_returned _ _ _ _ _ (eq_refl : flush w1 = (Returned tt, snd (flush w1)))).
  set (w2 := snd (flush w1)).
  assert (Hsh2 : sheets (book w2) !! sh = Some s1) by exact Hsh1.
  destruct (match_cell_ref cell) as [[colLetter digits]|].
  - rewrite (bind_returned _ _ w2 w2 tt).
    + subst w2 w1 s1. cbn. by rewrite <- !app_assoc.
    + rewrite (bind_returned _ _ _ _ _ (sheet_getLastRow_ok sh s1 w2 Hsh2)).
      subst s1. cbn [cells].
      destruct (Z.ltb_spec (parseInt digits) (last_row (fill_rect rc formula (cells s))));
        [lia|done].
  - rewrite bind_ret_l. subst w2 w1 s1. cbn. by rewrite <- !app_assoc.
Qed.

Lemma setFormula_filled_down_without_copy_witness :
  fst (setFormula (Some "Orders") "B20" "=A20*2" true (one_sheet_world orders_sheet))
  = Returned ("Set formula in " +:+ "Orders" +:+ "!" +:+ "B20" +:+ " (filled down)")
  ∧ trace (snd (setFormula (Some "Orders") "B20" "=A20*2" true
                  (one_sheet_world orders_sheet)))
    = trace (one_sheet_world orders_sheet)
      ++ [HSetFormula (sheetName orders_sheet) (mkRect 20 2 1 1) "=A20*2"; HFlush].
Proof.
  apply (setFormula_filled_down_without_copy (one_sheet_world orders_sheet)
           "Orders" "B20" "=A20*2" 0%nat orders_sheet (mkRect 20 2 1 1)).
  - reflexivity.
  - reflexivity.
  - reflexivity.
  - vm_compute. discriminate.
Defined.

Lemma span_spec (p : ascii → bool) (s : string) :
  s = (span p s).1 +:+ (span p s).2 ∧ str_forall p (span p s).1 = true.
Proof.
  induction s as [|ch s [IH1 IH2]]; [done|].
  simpl. destruct (p ch) eqn:Hch; [|done].
  destruct (span p s) as [a b]. simpl in *.
  rewrite string_app_cons, <- IH1, Hch. done.
Qed.

(** What a successful match of [/^([A-Z]+)(\d+)$/] says about the text. *)
Lemma match_cell_ref_Some (cell letters digits : string) :
  match_cell_ref cell = Some (letters, digits) →
  cell = letters +:+ digits
  ∧ str_forall is_upper letters = true ∧ letters ≠ EmptyString
  ∧ str_forall is_digit digits = true ∧ digits ≠ EmptyString.
Proof.
  unfold match_cell_ref. destruct (span_spec is_upper cell) as [Hcell Hup].
  destruct (span is_upper cell) as [a b]. simpl in *.
  destruct a as [|a0 a]; [done|]. destruct b as [|b0 b]; [done|].
  destruct (str_forall is_digit (String b0 b)) eqn:Hd; [|done].
  intros [= <- <-]. done.
Qed.

Lemma letterToColumn_upper_pos (s : string) :
  str_forall is_upper s = true → s ≠ EmptyString → 1 ≤ Codec._letterToColumn s.
Proof.
  induction s as [|s ch IH] using string_snoc_ind; [done|].
  rewrite str_forall_app, andb_true_iff. simpl. rewrite andb_true_r.
  intros [Hs Hch] _. rewrite letterToColumn_snoc.
  apply is_upper_code in Hch. pose proof (letterToColumn_upper_nonneg s Hs). lia.
Qed.

(** X7. [autoFillDown] on an existing sheet, with a source cell of the
    form capital letters + digits (at most eleven letters, row >= 1) and a
    last row below the source row and within the safe integers, issues
    exactly one host call: a copy of the source cell onto the rows from the
    source row to [lastRow] of the source column.  Every cell outside that
    stretch of the column keeps its content.  (What the copy puts into the
    stretch is the host's business: it adjusts the references of a copied
    formula.) *)
Theorem autoFillDown_fills_column
    (w : World) (name sourceCell : string) (lastRow : Z) (sh : nat) (s : Sheet)
    (letters digits : string) :
  list_find (λ s', sheetName s' = name) (sheets (book w)) = Some (sh, s) →
  match_cell_ref sourceCell = Some (letters, digits) →
  (String.length letters ≤ 11)%nat →
  1 ≤ parseInt digits →
  parseInt digits < lastRow →
  lastRow ≤ MAX_SAFE_INTEGER →
  ∃ w' s',
    autoFillDown (Some name) sourceCell lastRow w
    = (Returned ("Filled formula from " +:+ sourceCell +:+ " down to row " +:+ pretty lastRow),
       w')
    ∧ sheets (book w') !! sh = Some s'
    ∧ trace w' = trace w ++ [HCopyTo (sheetName s)
                               (mkRect (parseInt digits) (Codec._letterToColumn letters) 1 1)
                               (mkRect (parseInt digits) (Codec._letterToColumn letters)
                                       (lastRow - parseInt digits + 1) 1)]
    ∧ 1 ≤ Codec._letterToColumn letters ≤ MAX_SAFE_INTEGER
    ∧ ∀ r c,
        ¬ (parseInt digits ≤ r ≤ lastRow ∧ c = Codec._letterToColumn letters) →
        get_cell r c (cells s') = get_cell r c (cells s).
Proof.
  intros Hfind Hmatch Hlen Hrow Hlast Hsafe.
  destruct (getSheetByName_found name sh s w Hfind) as [Hget Hread].
  assert (Hsh : sheets (book w) !! sh = Some s).
  { by apply list_find_Some in Hfind as (? & _ & _). }
  destruct (match_cell_ref_Some _ _ _ Hmatch) as (_ & Hup & Hne & _ & _).
  pose proof (letterToColumn_upper_pos letters Hup Hne) as Hcol.
  pose proof (letterToColumn_safe letters Hup Hlen) as Hcolmax.
  unfold autoFillDown. rewrite (bind_returned _ _ _ _ _ Hget). rewrite Hmatch.
  destruct (Z.leb_spec lastRow (parseInt digits)); [lia|].
  rewrite (bind_returned _ _ _ _ _ (sheet_getRange_ok sh _ _ 1 1 w Hrow Hcol
                                      ltac:(lia) ltac:(lia))).
  assert (Hn : 1 ≤ lastRow - parseInt digits + 1) by lia.
  rewrite (bind_returned _ _ _ _ _ (sheet_getRange_ok sh _ _ _ 1 w Hrow Hcol
                                      Hn ltac:(lia))).
  rewrite (bind_returned _ _ _ _ _ (range_copyTo_ok sh s _ _ w Hsh)).
  eexists _, _. split; [reflexivity|].
  split; [apply (lookup_write_sheet sh s _ w Hsh)|]. split; [reflexivity|].
  split; [done|].
  intros r c Hout. cbn [cells r_row r_col r_rows r_cols]. rewrite get_cell_fill_rect.
  cbn [r_row r_col r_rows r_cols].
  case_decide; [|done]. exfalso. apply Hout. lia.
Qed.

Lemma autoFillDown_fills_column_witness :
  ∃ w' s',
    autoFillDown (Some "Orders") "A2" 30 (one_sheet_world orders_sheet)
    = (Returned ("Filled formula from " +:+ "A2" +:+ " down to row " +:+ pretty 30), w')
    ∧ sheets (book w') !! 0%nat = Some s'
    ∧ trace w' = trace (one_sheet_world orders_sheet)
                 ++ [HCopyTo (sheetName orders_sheet)
                       (mkRect (parseInt "2") (Codec._letterToColumn "A") 1 1)
                       (mkRect (parseInt "2") (Codec._letterToColumn "A")
                               (30 - parseInt "2" + 1) 1)]
    ∧ 1 ≤ Codec._letterToColumn "A" ≤ MAX_SAFE_INTEGER
    ∧ ∀ r c,
        ¬ (parseInt "2" ≤ r ≤ 30 ∧ c = Codec._letterToColumn "A") →
        get_cell r c (cells s') = get_cell r c (cells orders_sheet).
Proof.
  apply (autoFillDown_fills_column (one_sheet_world orders_sheet) "Orders" "A2" 30 0%nat
           orders_sheet "A" "2");
    [reflexivity|reflexivity|simpl; lia|by vm_compute|by vm_compute|by vm_compute].
Defined.

(** ** Rows selected by a condition *)







(** ** What a row deletion leaves on the sheet *)

Lemma NoDup_omap_keys {K V : Type} (f : K * V → option (K * V)) (l : list (K * V)) :
  NoDup l.*1 →
  (∀ a b a' b', a ∈ l → b ∈ l → f a = Some a' → f b = Some b' → a'.1 = b'.1 → a.1 = b.1) →
  NoDup (omap f l).*1.
Proof.
  induction l as [|a l IH]; intros Hnd Hinj; [constructor|].
  simpl in Hnd. apply NoDup_cons in Hnd as [Hnotin Hnd].
  assert (IH' : NoDup (omap f l).*1).
  { apply IH; [done|]. intros x y x' y' Hx Hy. apply Hinj; by right. }
  simpl. destruct (f a) as [a'|] eqn:Ha; [|done].
  simpl. apply NoDup_cons. split; [|done].
  intros Hin. apply list_elem_of_fmap in Hin as (b' & Hk & Hb').
  apply list_elem_of_omap in Hb' as (b & Hb & Hfb).
  apply Hnotin. apply list_elem_of_fmap. exists b. split; [|done].
  apply (Hinj a b a' b'); [by left|by right|done|done|done].
Qed.

Lemma shift_rows_lookup (start count : Z) (m : gmap (Z * Z) string) (r c : Z) :
  0 ≤ count →
  shift_rows start count m !! (r, c)
  = m !! (if r <? start then (r, c) else (r + count, c)).
Proof.
  intros Hc. unfold shift_rows.
  set (f := λ kv : (Z * Z) * string, _).
  assert (Hnd : NoDup (omap f (map_to_list m)).*1).
  { apply NoDup_omap_keys; [apply NoDup_fst_map_to_list|].
    intros [[r1 c1] v1] [[r2 c2] v2] [k1 v1'] [k2 v2'] _ _. subst f. simpl.
    destruct (Z.ltb_spec r1 start), (Z.ltb_spec r2 start);
      [|destruct (Z.ltb_spec r2 (start + count))|destruct (Z.ltb_spec r1 (start + count))
       |destruct (Z.ltb_spec r1 (start + count)), (Z.ltb_spec r2 (start + count))];
      intros; simplify_eq; try done; try lia; f_equal; lia. }
  destruct (m !! (if r <? start then (r, c) else (r + count, c))) as [v|] eqn:Hm.
  - apply elem_of_list_to_map_1; [done|].
    apply list_elem_of_omap.
    exists ((if r <? start then (r, c) else (r + count, c)), v). split.
    + by apply elem_of_map_to_list.
    + subst f. simpl. destruct (Z.ltb_spec r start) as [Hlt|Hge]; simpl.
      * destruct (Z.ltb_spec r start); [done|lia].
      * destruct (Z.ltb_spec (r + count) start); [lia|].
        destruct (Z.ltb_spec (r + count) (start + count)); [lia|].
        do 3 f_equal. lia.
  - apply not_elem_of_list_to_map_1. intros Hin.
    apply list_elem_of_fmap in Hin as ([k v] & Hk & Hin). simpl in Hk. subst k.
    apply list_elem_of_omap in Hin as ([[r0 c0] v0] & Hin & Hf).
    apply elem_of_map_to_list in Hin. subst f. simpl in Hf.
    destruct (Z.ltb_spec r0 start).
    + simplify_eq. destruct (Z.ltb_spec r start); [|lia]. congruence.
    + destruct (Z.ltb_spec r0 (start + count)); [done|]. simplify_eq.
      destruct (Z.ltb_spec (r0 - count) start); [lia|].
      replace (r0 - count + count) with r0 in Hm by lia. congruence.
Qed.

Lemma get_cell_shift_rows (start count : Z) (m : gmap (Z * Z) string) (r c : Z) :
  0 ≤ count →
  get_cell r c (shift_rows start count m)
  = if r <? start then get_cell r c m else get_cell (r + count) c m.
Proof.
  intros Hc. unfold get_cell. rewrite shift_rows_lookup by done.
  by destruct (r <? start).
Qed.

Lemma filter_length_all {A} (P : A → Prop) `{∀ x, Decision (P x)} (l : list A) :
  Forall P l → length (filter P l) = length l.
Proof.
  induction 1 as [|x l Hx _ IH]; [done|].
  rewrite filter_cons_True by done. simpl. by rewrite IH.
Qed.

Lemma filter_length_none {A} (P : A → Prop) `{∀ x, Decision (P x)} (l : list A) :
  Forall (λ x, ¬ P x) l → length (filter P l) = 0%nat.
Proof.
  induction 1 as [|x l Hx _ IH]; [done|].
  by rewrite filter_cons_False by done.
Qed.

(** The cells after the loop: a row that is not deleted is found
    [rows_above rows r] rows higher. *)
Lemma deleteRows_loop_cells (fuel : nat) : ∀ rows sh s w deleted,
  (length rows ≤ fuel)%nat →
  strict_desc rows →
  Forall (λ r, 1 ≤ r ≤ maxRows s) rows →
  Z.of_nat (length rows) < maxRows s →
  sheets (book w) !! sh = Some s →
  ∃ w' s',
    deleteRows_loop fuel sh rows deleted w
    = (Returned (deleted + Z.of_nat (length rows)), w')
    ∧ sheets (book w') !! sh = Some s'
    ∧ sheetName s' = sheetName s
    ∧ ∀ r c, r ∉ rows → get_cell (r - rows_above rows r) c (cells s') = get_cell r c (cells s).
Proof.
  induction fuel as [|fuel IH]; intros rows sh s w deleted Hfuel Hsorted Hrange Hlen Hsh.
  - destruct rows; [|simpl in Hfuel; lia]. exists w, s. simpl.
    rewrite Z.add_0_r. repeat split; try done.
    intros r c _. unfold rows_above. simpl. by rewrite Z.sub_0_r.
  - destruct rows as [|start rest].
    { exists w, s. simpl. rewrite Z.add_0_r. repeat split; try done.
      intros r c _. unfold rows_above. simpl. by rewrite Z.sub_0_r. }
    destruct (first_run start rest Hsorted) as (Hn & Htake & Hdrop & Hsorted').
    cbn [deleteRows_loop]. set (n := run_length start 1 rest) in *.
    assert (Hlow : 1 ≤ start - Z.of_nat n + 1).
    { assert (Hin : start - Z.of_nat (n - 1) ∈ start :: rest).
      { rewrite <- (take_drop n (start :: rest)), elem_of_app. left.
        rewrite Htake. apply list_elem_of_fmap. exists (n - 1)%nat. split; [done|].
        apply elem_of_seq. lia. }
      rewrite Forall_forall in Hrange. specialize (Hrange _ Hin). lia. }
    pose proof (Forall_inv Hrange) as Hstart. simpl in Hstart.
    rewrite (bind_returned _ _ _ _ _
      (sheet_deleteRows_ok sh s (start - Z.of_nat n + 1) (Z.of_nat n) w Hsh
         Hlow ltac:(lia) ltac:(lia) ltac:(simpl in Hlen; lia))).
    set (s1 := mkSheet (sheetName s) (shift_rows (start - Z.of_nat n + 1) (Z.of_nat n) (cells s))
                       (maxRows s - Z.of_nat n)).
    set (w1 := snd (log _ (snd (write_sheet sh s1 w)))).
    destruct (IH (drop n (start :: rest)) sh s1 w1 (deleted + Z.of_nat n))
      as (w' & s' & Hrun & Hsh' & Hname & Hcells).
    { rewrite length_drop. simpl in *. lia. }
    { exact Hsorted'. }
    { rewrite Forall_forall in Hdrop, Hrange |- *. intros r Hr.
      specialize (Hdrop r Hr).
      assert (Hr' : r ∈ start :: rest).
      { rewrite <- (take_drop n (start :: rest)), elem_of_app. by right. }
      specialize (Hrange r Hr'). subst s1. simpl. lia. }
    { rewrite length_drop. subst s1. simpl in *. lia. }
    { subst w1. apply (lookup_write_sheet sh s s1 w Hsh). }
    exists w', s'. rewrite Hrun, Hsh', Hname.
    rewrite length_drop.
    split; [f_equal; f_equal; simpl in *; lia|]. split; [done|]. split; [done|].
    intros r c Hr.
    assert (Hsplit : rows_above (start :: rest) r
                     = Z.of_nat (length (filter (λ x, x < r) (take n (start :: rest))))
                       + rows_above (drop n (start :: rest)) r).
    { unfold rows_above. rewrite <- (take_drop n (start :: rest)) at 1.
      rewrite filter_app, length_app. lia. }
    rewrite <- (take_drop n (start :: rest)), elem_of_app in Hr.
    assert (Hr1 : r ∉ take n (start :: rest)) by tauto.
    assert (Hr2 : r ∉ drop n (start :: rest)) by tauto.
    destruct (Z.lt_ge_cases r (start - Z.of_nat n + 1)) as [Hlt|Hge].
    + rewrite Hsplit, filter_length_none.
      2:{ rewrite Htake, Forall_fmap, Forall_forall. intros i Hi.
          apply elem_of_seq in Hi. simpl. lia. }
      rewrite Z.add_0_l, (Hcells r c Hr2). subst s1. simpl.
      rewrite get_cell_shift_rows by lia.
      destruct (Z.ltb_spec r (start - Z.of_nat n + 1)); [done|lia].
    + assert (Hgt : start < r).
      { destruct (Z.lt_ge_cases start r) as [|Hle]; [done|]. exfalso. apply Hr1.
        rewrite Htake. apply list_elem_of_fmap. exists (Z.to_nat (start - r)).
        split; [lia|]. apply elem_of_seq. lia. }
      rewrite Hsplit, filter_length_all.
      2:{ rewrite Htake, Forall_fmap, Forall_forall. intros i Hi.
          apply elem_of_seq in Hi. simpl. lia. }
      rewrite length_take, Nat.min_l by (simpl; lia).
      assert (Hsame : rows_above (drop n (start :: rest)) r
                      = rows_above (drop n (start :: rest)) (r - Z.of_nat n)).
      { unfold rows_above. rewrite !filter_length_all; [done|..].
        - eapply Forall_impl; [exact Hdrop|]. simpl. intros; lia.
        - eapply Forall_impl; [exact Hdrop|]. simpl. intros; lia. }
      assert (Hr3 : r - Z.of_nat n ∉ drop n (start :: rest)).
      { intros Hin. rewrite Forall_forall in Hdrop. specialize (Hdrop _ Hin).
        simpl in Hdrop. lia. }
      rewrite Hsame.
      replace (r - (Z.of_nat n + rows_above (drop n (start :: rest)) (r - Z.of_nat n)))
        with (r - Z.of_nat n - rows_above (drop n (start :: rest)) (r - Z.of_nat n)) by lia.
      rewrite (Hcells (r - Z.of_nat n) c Hr3). subst s1. simpl.
      rewrite get_cell_shift_rows by lia.
      destruct (Z.ltb_spec (r - Z.of_nat n) (start - Z.of_nat n + 1)); [lia|].
      f_equal. lia.
Qed.

Lemma rows_above_perm (l k : list Z) (r : Z) : l ≡ₚ k → rows_above l r = rows_above k r.
Proof. intros H. unfold rows_above. by rewrite H. Qed.

(** X10. After a [_deleteRows] call on a set of rows of the grid (not all
    of them), every row that was not in the set still has its content, in
    every column, and is found as many rows higher as there were deleted
    rows above it: deleting bottom-up never removes or overwrites a row
    outside the set, and the kept rows stay in their order. *)
Theorem deleteRows_keeps_other_rows
    (w : World) (name : option string) (rows : option (list Z))
    (condition : option Condition) (sh : nat) (s : Sheet) (l : list Z) :
  _getSheet name w = (Returned sh, w) →
  sheets (book w) !! sh = Some s →
  deleteRows_rows sh rows condition w = (Returned (Some l), w) →
  l ≠ [] →
  NoDup l →
  Forall (λ r, 1 ≤ r ≤ maxRows s) l →
  Z.of_nat (length l) < maxRows s →
  ∃ w' s',
    snd (_deleteRows name rows condition w) = w'
    ∧ sheets (book w') !! sh = Some s'
    ∧ ∀ r c, r ∉ l → get_cell (r - rows_above l r) c (cells s') = get_cell r c (cells s).
Proof.
  intros Hget Hsh Hrows Hne Hnd Hrange Hlen.
  pose proof (sort_desc_perm l) as Hperm.
  pose proof (sort_desc_strict l Hnd) as Hsorted.
  assert (Hlen' : length (sort_desc l) = length l) by (by rewrite Hperm).
  destruct (deleteRows_loop_cells (length (sort_desc l)) (sort_desc l) sh s w 0)
    as (w' & s' & Hrun & Hsh' & Hname & Hcells);
    [lia|done|by rewrite Hperm|lia|done|].
  exists w', s'. split.
  { unfold _deleteRows.
    rewrite (bind_returned _ _ _ _ _ Hget), (bind_returned _ _ _ _ _ Hrows).
    destruct l as [|r0 l0]; [done|]. cbv zeta.
    rewrite (bind_returned _ _ _ _ _ Hrun).
    by rewrite (bind_returned _ _ _ _ _ (sheet_getName_ok sh s' w' Hsh')). }
  split; [done|].
  intros r c Hr. rewrite <- (rows_above_perm _ _ r Hperm).
  apply Hcells. by rewrite Hperm.
Qed.

Lemma deleteRows_keeps_other_rows_witness :
  ∃ w' s',
    snd (_deleteRows (Some "Log") (Some [9; 3; 5; 4]) None (one_sheet_world twenty_rows)) = w'
    ∧ sheets (book w') !! 0%nat = Some s'
    ∧ ∀ r c, r ∉ [9; 3; 5; 4]
             → get_cell (r - rows_above [9; 3; 5; 4] r) c (cells s')
               = get_cell r c (cells twenty_rows).
Proof.
  apply (deleteRows_keeps_other_rows (one_sheet_world twenty_rows) (Some "Log")
           (Some [9; 3; 5; 4]) None 0%nat twenty_rows [9; 3; 5; 4]).
  - reflexivity.
  - reflexivity.
  - reflexivity.
  - discriminate.
  - apply (bool_decide_unpack _). by vm_compute.
  - apply (bool_decide_unpack _). by vm_compute.
  - vm_compute. reflexivity.
Defined.

(** ** Copying a sheet *)




(** ** What undo leaves alone *)

Lemma elem_of_delete_other (l : list Sheet) (sh : nat) (s t : Sheet) :
  s ∈ l → l !! sh = Some t → s ≠ t → s ∈ delete sh l.
Proof.
  intros Hin Hsh Hne. apply list_elem_of_lookup_1 in Hin as [i Hi].
  assert (i ≠ sh) by (intros ->; congruence).
  destruct (decide (i < sh)%nat).
  - apply (list_elem_of_lookup_2 _ i). by rewrite list_lookup_delete_lt by lia.
  - apply (list_elem_of_lookup_2 _ (i - 1)%nat). rewrite list_lookup_delete_ge by lia.
    by replace (S (i - 1)) with i by lia.
Qed.

Lemma elem_of_insert_other (l : list Sheet) (sh : nat) (s t t' : Sheet) :
  s ∈ l → l !! sh = Some t → s ≠ t → s ∈ <[sh := t']> l.
Proof.
  intros Hin Hsh Hne. apply list_elem_of_lookup_1 in Hin as [i Hi].
  assert (i ≠ sh) by (intros ->; congruence).
  apply (list_elem_of_lookup_2 _ i). by rewrite list_lookup_insert_ne.
Qed.

Lemma undo_delete_loop_frame (s : Sheet) (names : list string) : ∀ results w,
  s ∈ sheets (book w) → sheetName s ∉ names →
  s ∈ sheets (book (snd (undo_delete_loop names results w))).
Proof.
  induction names as [|name rest IH]; intros results w Hin Hnot; [done|].
  apply not_elem_of_cons in Hnot as [Hne Hrest].
  cbn [undo_delete_loop].
  destruct (list_find (λ s', sheetName s' = name) (sheets (book w))) as [[sh t]|] eqn:Hfind.
  - destruct (getSheetByName_found name sh t w Hfind) as [Hget Hread].
    apply list_find_Some in Hfind as (Hsh & Hname & _).
    rewrite (bind_returned _ _ _ _ _ Hget).
    cbv beta iota.
    rewrite (bind_returned _ _ _ _ _
               (eq_refl : getSheets_length w
                          = (Returned (Z.of_nat (length (sheets (book w)))), w))).
    destruct (1 <? Z.of_nat (length (sheets (book w)))).
    + unfold deleteSheet, get_book, put_book, log. unfold_monad. rewrite Hread. simpl.
      apply IH; [|done]. simpl. apply (elem_of_delete_other _ sh s t); [done|done|].
      intros ->. done.
    + by apply IH.
  - assert (Hget : getSheetByName (Some name) w = (Returned None, w)).
    { unfold getSheetByName. simpl. by rewrite Hfind. }
    rewrite (bind_returned _ _ _ _ _ Hget). by apply IH.
Qed.

Lemma undo_clear_loop_frame (s : Sheet) (entries : list UndoEntry) : ∀ results w,
  s ∈ sheets (book w) → sheetName s ∉ entry_sheet <$> entries →
  s ∈ sheets (book (snd (undo_clear_loop entries results w))).
Proof.
  induction entries as [|entry rest IH]; intros results w Hin Hnot; [done|].
  rewrite fmap_cons in Hnot. apply not_elem_of_cons in Hnot as [Hne Hrest].
  cbn [undo_clear_loop].
  destruct (list_find (λ s', sheetName s' = entry_sheet entry) (sheets (book w)))
    as [[sh t]|] eqn:Hfind.
  - destruct (getSheetByName_found _ sh t w Hfind) as [Hget Hread].
    apply list_find_Some in Hfind as (Hsh & Hname & _).
    rewrite (bind_returned _ _ _ _ _ Hget).
    cbv beta iota.
    unfold sheet_getRangeA1. destruct (a1_rect (entry_range entry)) as [rc|]; [|done].
    rewrite bind_ret_l.
    unfold range_clear, write_sheet, log. unfold_monad. rewrite Hread. simpl.
    apply IH; [|done]. simpl. apply (elem_of_insert_other _ sh s t); [done|done|].
    intros ->. done.
  - assert (Hget : getSheetByName (Some (entry_sheet entry)) w = (Returned None, w)).
    { unfold getSheetByName. simpl. by rewrite Hfind. }
    rewrite (bind_returned _ _ _ _ _ Hget). by apply IH.
Qed.

(** X12. [undoSheetActions] changes only the sheets it is told about: a
    sheet whose name is neither in [sheetsToDelete] nor the sheet of a
    [cellsToClear] entry is still in the workbook afterwards, with the same
    name, cells and size, whether the call returns or throws. *)
Theorem undo_touches_only_listed_sheets (w : World) (info : UndoInfo) (s : Sheet) :
  s ∈ sheets (book w) →
  sheetName s ∉ sheetsToDelete info →
  sheetName s ∉ entry_sheet <$> cellsToClear info →
  s ∈ sheets (book (snd (undoSheetActions (Some info) w))).
Proof.
  intros Hin Hdel Hclear. unfold undoSheetActions, undo_results.
  pose proof (undo_delete_loop_frame s (sheetsToDelete info) [] w Hin Hdel) as H1.
  destruct (undo_delete_loop (sheetsToDelete info) [] w) as [[results|msg] w1] eqn:Hloop1.
  - pose proof (undo_clear_loop_frame s (cellsToClear info) results w1 H1 Hclear) as H2.
    unfold_monad. rewrite Hloop1.
    destruct (undo_clear_loop (cellsToClear info) results w1) as [[results2|msg2] w2];
      [by destruct results2|done].
  - unfold_monad. by rewrite Hloop1.
Qed.

Lemma undo_touches_only_listed_sheets_witness :
  orders_sheet ∈ sheets (book (snd (undoSheetActions (Some sample_undo) two_sheet_world))).
Proof.
  apply (undo_touches_only_listed_sheets two_sheet_world sample_undo orders_sheet).
  - apply list_elem_of_here.
  - apply (bool_decide_unpack _). by vm_compute.
  - apply (bool_decide_unpack _). by vm_compute.
Defined.

(** ** Undoing a created sheet *)

Lemma delete_last {A} (l : list A) (x : A) : delete (length l) (l ++ [x]) = l.
Proof. induction l as [|y l IH]; [done|]. simpl. by rewrite IH. Qed.

(** X13. Undo after [createSheet]: when [createSheet(name)] has added a
    sheet (the workbook had sheets, none of that name), an
    [undoSheetActions] with that name in [sheetsToDelete] deletes exactly
    the added sheet: the workbook has its former sheets again, in their
    order, and the result names the deleted sheet. *)
Theorem undo_createSheet_roundtrip (w : World) (name : string) :
  sheets (book w) ≠ [] →
  name ∉ sheetName <$> sheets (book w) →
  fst (undoSheetActions (Some (mkUndoInfo [name] [])) (snd (createSheet name w)))
  = Returned ("Deleted sheet '" +:+ name +:+ "'")
  ∧ sheets (book (snd (undoSheetActions (Some (mkUndoInfo [name] []))
                         (snd (createSheet name w)))))
    = sheets (book w).
Proof.
  intros Hne Hfree.
  assert (Hnone : list_find (λ s', sheetName s' = name) (sheets (book w)) = None).
  { apply list_find_None, Forall_forall. intros t Ht Hname. apply Hfree.
    apply list_elem_of_fmap. by exists t. }
  rewrite (createSheet_new name w Hnone). cbn [snd].
  set (w1 := mkWorld _ _ _).
  assert (Hfind : list_find (λ s', sheetName s' = name) (sheets (book w1))
                  = Some (length (sheets (book w)), mkSheet name ∅ 1000)).
  { subst w1. simpl. by apply list_find_app_new. }
  destruct (getSheetByName_found name _ _ w1 Hfind) as [Hget Hread].
  assert (Hlen : (1 <? Z.of_nat (length (sheets (book w1)))) = true).
  { subst w1. simpl. rewrite length_app. simpl. apply Z.ltb_lt.
    destruct (sheets (book w)); [done|simpl; lia]. }
  unfold undoSheetActions, undo_results. cbn [sheetsToDelete cellsToClear undo_delete_loop
                                               undo_clear_loop].
  unfold deleteSheet, getSheets_length, get_book, put_book, log. unfold_monad.
  rewrite Hget. cbv beta iota. rewrite Hlen, Hread. simpl.
  subst w1. simpl. by rewrite delete_last.
Qed.

Lemma undo_createSheet_roundtrip_witness :
  fst (undoSheetActions (Some (mkUndoInfo ["Report"] []))
         (snd (createSheet "Report" two_sheet_world)))
  = Returned ("Deleted sheet '" +:+ "Report" +:+ "'")
  ∧ sheets (book (snd (undoSheetActions (Some (mkUndoInfo ["Report"] []))
                         (snd (createSheet "Report" two_sheet_world)))))
    = sheets (book two_sheet_world).
Proof.
  apply (undo_createSheet_roundtrip two_sheet_world "Report").
  - discriminate.
  - apply (bool_decide_unpack _). by vm_compute.
Defined.

(** ** Clearing a range *)

(** X14. [_clearRange] on a sheet that resolves and a range the host
    accepts returns normally and keeps the grid size; with type
    "formatting" no cell content changes, with any other type (also an
    unknown one, or none) the cells of the range are emptied; the cells
    outside the range are never changed. *)
Theorem clearRange_effect
    (w : World) (name : option string) (rangeStr : string) (type : option string)
    (sh : nat) (s : Sheet) (rc : Rect) :
  _getSheet name w = (Returned sh, w) →
  sheets (book w) !! sh = Some s →
  a1_rect rangeStr = Some rc →
  ∃ w' s',
    _clearRange name rangeStr type w
    = (Returned ("Cleared " +:+ js_str (js_or type (Some "all")) +:+ " from "
                 +:+ js_str name +:+ "!" +:+ rangeStr), w')
    ∧ sheets (book w') !! sh = Some s'
    ∧ maxRows s' = maxRows s
    ∧ ∀ r c,
        get_cell r c (cells s')
        = if decide (type ≠ Some "formatting"
                     ∧ (r_row rc ≤ r < r_row rc + r_rows rc)
                     ∧ (r_col rc ≤ c < r_col rc + r_cols rc))
          then EmptyString else get_cell r c (cells s).
Proof.
  intros Hget Hsh Hrc. unfold _clearRange.
  rewrite (bind_returned _ _ _ _ _ Hget).
  unfold sheet_getRangeA1. rewrite Hrc, bind_ret_l.
  pose proof (read_sheet_ok sh s w Hsh) as Hread.
  assert (Hlt : (sh < length (sheets (book w)))%nat) by (by eapply lookup_lt_Some).
  destruct (decide (type = Some "contents")) as [Hc|Hc];
    [|destruct (decide (type = Some "formatting")) as [Hf|Hf]].
  - unfold range_clearContent, write_sheet, log. unfold_monad. rewrite Hread. simpl.
    eexists _, _. split; [reflexivity|]. simpl.
    split; [by apply list_lookup_insert_eq|]. split; [done|].
    intros r c. simpl. rewrite get_cell_fill_rect.
    repeat case_decide; try done; subst type; exfalso; intuition congruence.
  - unfold range_clearFormat, log. unfold_monad. rewrite Hread. simpl.
    eexists _, s. split; [reflexivity|]. simpl. split; [done|]. split; [done|].
    intros r c. rewrite decide_False; [done|]. intros [Hn _]. by apply Hn.
  - unfold range_clear, write_sheet, log. unfold_monad. rewrite Hread. simpl.
    eexists _, _. split; [reflexivity|]. simpl.
    split; [by apply list_lookup_insert_eq|]. split; [done|].
    intros r c. simpl. rewrite get_cell_fill_rect.
    repeat case_decide; try done; exfalso; intuition congruence.
Qed.

Lemma clearRange_effect_witness :
  ∃ w' s',
    _clearRange (Some "Summary") "A2:B3" (Some "values") two_sheet_world
    = (Returned ("Cleared " +:+ js_str (js_or (Some "values") (Some "all")) +:+ " from "
                 +:+ js_str (Some "Summary") +:+ "!" +:+ "A2:B3"), w')
    ∧ sheets (book w') !! 1%nat = Some s'
    ∧ maxRows s' = maxRows summary_sheet
    ∧ ∀ r c,
        get_cell r c (cells s')
        = if decide (Some "values" ≠ Some "formatting"
                     ∧ (r_row (mkRect 2 1 2 2) ≤ r
                        < r_row (mkRect 2 1 2 2) + r_rows (mkRect 2 1 2 2))
                     ∧ (r_col (mkRect 2 1 2 2) ≤ c
                        < r_col (mkRect 2 1 2 2) + r_cols (mkRect 2 1 2 2)))
          then EmptyString else get_cell r c (cells summary_sheet).
Proof.
  apply (clearRange_effect two_sheet_world (Some "Summary") "A2:B3" (Some "values")
           1%nat summary_sheet (mkRect 2 1 2 2)); reflexivity.
Defined.

(** ** The cells of the payload *)

Lemma cell_a1_inj (r c r' c' : Z) :
  0 ≤ r → 1 ≤ c → 0 ≤ r' → 1 ≤ c' →
  cell_a1 r c = cell_a1 r' c' → r = r' ∧ c = c'.
Proof.
  intros Hr Hc Hr' Hc' Heq. unfold cell_a1 in Heq.
  destruct (colLetter_compute_upper c Hc) as [Hup Hne].
  destruct (colLetter_compute_upper c' Hc') as [Hup' Hne'].
  destruct (pretty_row_digits r Hr) as (Hdig & Hdne & _).
  destruct (pretty_row_digits r' Hr') as (Hdig' & Hdne' & _).
  pose proof (match_cell_ref_letters_digits _ _ Hup Hne Hdig Hdne) as H1.
  pose proof (match_cell_ref_letters_digits _ _ Hup' Hne' Hdig' Hdne') as H2.
  rewrite Heq, H2 in H1. injection H1 as Hl Hd. split.
  - symmetry. by apply (inj pretty).
  - rewrite <- (letterToColumn_colLetter_compute c), <- (letterToColumn_colLetter_compute c')
      by lia. by rewrite Hl.
Qed.

Lemma put_cells_other (kvs : list (string * string)) : ∀ acc k,
  k ∉ kvs.*1 → foldl put_cell acc kvs !! k = acc !! k.
Proof.
  induction kvs as [|[k0 v0] kvs IH]; intros acc k Hk; [done|].
  rewrite fmap_cons in Hk. apply not_elem_of_cons in Hk as [Hne Hk]. simpl in Hne.
  simpl. rewrite IH by done. unfold put_cell. simpl.
  case_decide; [done|]. by rewrite lookup_insert_ne.
Qed.

Lemma put_cells_lookup (kvs : list (string * string)) : ∀ acc k v,
  NoDup kvs.*1 → (k, v) ∈ kvs →
  foldl put_cell acc kvs !! k = if decide (v = EmptyString) then acc !! k else Some v.
Proof.
  induction kvs as [|[k0 v0] kvs IH]; intros acc k v Hnd Hin; [by apply elem_of_nil in Hin|].
  rewrite fmap_cons in Hnd. apply NoDup_cons in Hnd as [Hk0 Hnd]. simpl in Hk0.
  apply elem_of_cons in Hin as [Heq|Hin]; simpl.
  - injection Heq as -> ->. rewrite put_cells_other by done. unfold put_cell. simpl.
    case_decide; [done|]. by rewrite lookup_insert_eq.
  - rewrite (IH _ k v Hnd Hin). case_decide; [|done].
    unfold put_cell. simpl. case_decide; [done|].
    rewrite lookup_insert_ne; [done|]. intros ->. apply Hk0.
    apply list_elem_of_fmap. by exists (k, v).
Qed.

Lemma foldl_bind {A B C} (f : A → C → A) (g : B → list C) (l : list B) : ∀ a,
  foldl f a (l ≫= g) = foldl (λ a' x, foldl f a' (g x)) a l.
Proof.
  induction l as [|x l IH]; intros a; [done|].
  by rewrite bind_cons, foldl_app, IH.
Qed.

Lemma fmap_bind_list {A B C} (f : B → C) (g : A → list B) (l : list A) :
  f <$> (l ≫= g) = l ≫= (λ x, f <$> g x).
Proof.
  induction l as [|x l IH]; [done|]. by rewrite !bind_cons, fmap_app, IH.
Qed.

Lemma row_cells_entries (r : Z) (m : gmap (Z * Z) string) (cols : list Z) :
  ∀ acc : gmap string string,
  row_cells (Codec.colLetter_compute <$> cols) r ((λ c, get_cell r c m) <$> cols) acc
  = foldl put_cell acc (c ← cols; [(cell_a1 r c, get_cell r c m)]).
Proof.
  unfold row_cells. induction cols as [|c cols IH]; intros acc; [done|].
  rewrite !fmap_cons, bind_cons. cbn [zip_with foldl app]. rewrite IH. done.
Qed.

Lemma build_rows_entries (m : gmap (Z * Z) string) (cols rows : list Z) :
  ∀ acc : gmap string string,
  foldl (λ acc' (rv : Z * list string),
           row_cells (Codec.colLetter_compute <$> cols) rv.1 rv.2 acc')
        acc (zip rows ((λ r, (λ c, get_cell r c m) <$> cols) <$> rows))
  = foldl put_cell acc (r ← rows; c ← cols; [(cell_a1 r c, get_cell r c m)]).
Proof.
  induction rows as [|r rows IH]; intros acc; [done|].
  rewrite !fmap_cons, bind_cons, foldl_app. cbn [zip_with foldl fst snd].
  rewrite row_cells_entries. apply IH.
Qed.

Lemma built_cells_entries (s : Sheet) :
  built_cells s
  = foldl put_cell ∅ (block_entries (Z.min (r_rows (sheet_getDataRange s)) MAX_ROWS)
                                    (r_cols (sheet_getDataRange s)) (cells s)).
Proof.
  unfold built_cells, read_block, build_cells, rect_values, block_entries.
  cbn [sheet_getDataRange r_row r_col r_rows r_cols].
  rewrite length_fmap, length_seqZ, Z2Nat.id by (unfold MAX_ROWS; lia).
  apply build_rows_entries.
Qed.

Lemma elem_of_block_entries (nr nc : Z) (m : gmap (Z * Z) string) (k v : string) :
  (k, v) ∈ block_entries nr nc m
  ↔ ∃ r c, 1 ≤ r ≤ nr ∧ 1 ≤ c ≤ nc ∧ k = cell_a1 r c ∧ v = get_cell r c m.
Proof.
  unfold block_entries. rewrite list_elem_of_bind. split.
  - intros (r & Hc & Hr). apply list_elem_of_bind in Hc as (c & Hkv & Hc).
    apply list_elem_of_singleton in Hkv. injection Hkv as -> ->.
    apply elem_of_seqZ in Hr, Hc. exists r, c. repeat split; lia.
  - intros (r & c & Hr & Hc & -> & ->). exists r. split; [|apply elem_of_seqZ; lia].
    apply list_elem_of_bind. exists c. split; [apply list_elem_of_here|].
    apply elem_of_seqZ. lia.
Qed.

Lemma block_entries_keys (nr nc : Z) (m : gmap (Z * Z) string) :
  NoDup (block_entries nr nc m).*1.
Proof.
  unfold block_entries. rewrite fmap_bind_list.
  apply NoDup_bind; [| |apply NoDup_seqZ].
  - intros r r' k Hr Hr' Hk Hk'. rewrite fmap_bind_list in Hk, Hk'.
    apply list_elem_of_bind in Hk as (c & Hk & Hc).
    apply list_elem_of_bind in Hk' as (c' & Hk' & Hc').
    simpl in Hk, Hk'. apply list_elem_of_singleton in Hk, Hk'. subst k.
    apply elem_of_seqZ in Hr, Hr', Hc, Hc'.
    apply cell_a1_inj in Hk' as [? ?]; lia.
  - intros r Hr. rewrite fmap_bind_list. apply elem_of_seqZ in Hr.
    apply NoDup_bind; [| |apply NoDup_seqZ].
    + intros c c' k Hc Hc' Hk Hk'. simpl in Hk, Hk'.
      apply list_elem_of_singleton in Hk, Hk'. subst k.
      apply elem_of_seqZ in Hc, Hc'.
      apply cell_a1_inj in Hk' as [? ?]; lia.
    + intros c _. simpl. apply NoDup_singleton.
Qed.

(** X15. What [_readSheetData] returns below the size guard: the [cells]
    object has, for every cell of the block that was read (the data range,
    cut at MAX_ROWS rows), an entry under the cell's A1 name exactly when
    the cell is not empty, holding the cell's content; and it has no other
    key.  No two cells share a key. *)
Theorem readSheetData_cells (w : World) (sh : nat) (s : Sheet) :
  cache_sound (colCache w) →
  sheets (book w) !! sh = Some s →
  Z.of_nat (size (built_cells s)) ≤ MAX_CELLS →
  ∃ d w',
    _readSheetData sh w = (Returned d, w')
    ∧ (∀ r c,
         1 ≤ r ≤ Z.min (r_rows (sheet_getDataRange s)) MAX_ROWS →
         1 ≤ c ≤ r_cols (sheet_getDataRange s) →
         sd_cells d !! cell_a1 r c
         = if decide (get_cell r c (cells s) = EmptyString) then None
           else Some (get_cell r c (cells s)))
    ∧ (∀ k v,
         sd_cells d !! k = Some v →
         ∃ r c, 1 ≤ r ≤ Z.min (r_rows (sheet_getDataRange s)) MAX_ROWS
                ∧ 1 ≤ c ≤ r_cols (sheet_getDataRange s)
                ∧ k = cell_a1 r c ∧ v = get_cell r c (cells s) ∧ v ≠ EmptyString).
Proof.
  intros Hsound Hsh Hsmall.
  destruct (readSheetData_run w sh s Hsound Hsh) as (cache' & Hrun & _).
  assert (Hd : sd_cells (payload_of s (book w)) = built_cells s).
  { unfold payload_of.
    by destruct (Z.ltb_spec MAX_CELLS (Z.of_nat (size (built_cells s)))); [lia|]. }
  assert (Hin : ∀ r c,
            1 ≤ r ≤ Z.min (r_rows (sheet_getDataRange s)) MAX_ROWS →
            1 ≤ c ≤ r_cols (sheet_getDataRange s) →
            built_cells s !! cell_a1 r c
            = if decide (get_cell r c (cells s) = EmptyString) then None
              else Some (get_cell r c (cells s))).
  { intros r c Hr Hc. rewrite built_cells_entries.
    rewrite (put_cells_lookup _ ∅ (cell_a1 r c) (get_cell r c (cells s)));
      [by rewrite lookup_empty|apply block_entries_keys|].
    apply elem_of_block_entries. by exists r, c. }
  exists (payload_of s (book w)), (mkWorld (book w) cache' (trace w)).
  rewrite Hd. split; [exact Hrun|split].
  - exact Hin.
  - intros k v Hk.
    destruct (decide (k ∈ (block_entries (Z.min (r_rows (sheet_getDataRange s)) MAX_ROWS)
                             (r_cols (sheet_getDataRange s)) (cells s)).*1)) as [Hkey|Hkey].
    + apply list_elem_of_fmap in Hkey as ([k' v'] & -> & Hkv).
      apply elem_of_block_entries in Hkv as (r & c & Hr & Hc & Hk' & Hv'). simpl in Hk.
      exists r, c. split; [done|]. split; [done|]. split; [done|].
      rewrite Hk', (Hin r c Hr Hc) in Hk. case_decide; [done|].
      injection Hk as <-. done.
    + rewrite built_cells_entries, put_cells_other, lookup_empty in Hk by done. done.
Qed.

Lemma readSheetData_cells_witness :
  ∃ d w',
    _readSheetData 0 (one_sheet_world orders_sheet) = (Returned d, w')
    ∧ (∀ r c,
         1 ≤ r ≤ Z.min (r_rows (sheet_getDataRange orders_sheet)) MAX_ROWS →
         1 ≤ c ≤ r_cols (sheet_getDataRange orders_sheet) →
         sd_cells d !! cell_a1 r c
         = if decide (get_cell r c (cells orders_sheet) = EmptyString) then None
           else Some (get_cell r c (cells orders_sheet)))
    ∧ (∀ k v,
         sd_cells d !! k = Some v →
         ∃ r c, 1 ≤ r ≤ Z.min (r_rows (sheet_getDataRange orders_sheet)) MAX_ROWS
                ∧ 1 ≤ c ≤ r_cols (sheet_getDataRange orders_sheet)
                ∧ k = cell_a1 r c ∧ v = get_cell r c (cells orders_sheet)
                ∧ v ≠ EmptyString).
Proof.
  apply (readSheetData_cells (one_sheet_world orders_sheet) 0 orders_sheet).
  - intros k s. simpl. by rewrite lookup_empty.
  - reflexivity.
  - by vm_compute.
Defined.

(** ** Listing and reading sheets by name *)

(** X16. [getAllSheets] lists the sheets in workbook order, each with its
    name and its last row with content; when sheet names are unique, as the
    host keeps them, exactly the active sheet is flagged [isActive].  The
    call changes nothing. *)
Theorem getAllSheets_one_active (w : World) (a : Sheet) :
  NoDup (sheetName <$> sheets (book w)) →
  sheets (book w) !! activeIndex (book w) = Some a →
  ∃ infos,
    getAllSheets w = (Returned infos, w)
    ∧ length infos = length (sheets (book w))
    ∧ ∀ i s, sheets (book w) !! i = Some s →
             infos !! i = Some (mkSheetInfo (sheetName s) (last_row (cells s))
                                            (bool_decide (i = activeIndex (book w)))).
Proof.
  intros Hnd Ha. unfold getAllSheets.
  assert (Hactive : getActiveSheet w = (Returned (activeIndex (book w)), w)).
  { unfold getActiveSheet. by rewrite Ha. }
  rewrite (bind_returned _ _ _ _ _ Hactive).
  rewrite (bind_returned _ _ _ _ _ (sheet_getName_ok _ a w Ha)).
  unfold get_book. unfold_monad.
  eexists. split; [reflexivity|]. split; [by rewrite length_fmap|].
  intros i s Hi. rewrite list_lookup_fmap, Hi. simpl. do 2 f_equal.
  apply bool_decide_ext. split.
  - intros Hname. apply (NoDup_lookup _ i (activeIndex (book w)) (sheetName s) Hnd).
    + by rewrite list_lookup_fmap, Hi.
    + by rewrite list_lookup_fmap, Ha, Hname.
  - intros ->. congruence.
Qed.

Lemma getAllSheets_one_active_witness :
  ∃ infos,
    getAllSheets two_sheet_world = (Returned infos, two_sheet_world)
    ∧ length infos = length (sheets (book two_sheet_world))
    ∧ ∀ i s, sheets (book two_sheet_world) !! i = Some s →
             infos !! i = Some (mkSheetInfo (sheetName s) (last_row (cells s))
                                  (bool_decide (i = activeIndex (book two_sheet_world)))).
Proof.
  apply (getAllSheets_one_active two_sheet_world orders_sheet).
  - apply (bool_decide_unpack _). by vm_compute.
  - reflexivity.
Defined.

Lemma readSheetData_returns (w : World) (sh : nat) (s : Sheet) :
  cache_sound (colCache w) →
  sheets (book w) !! sh = Some s →
  ∃ d w', _readSheetData sh w = (Returned d, w')
          ∧ book w' = book w ∧ sd_sheetName d = sheetName s.
Proof.
  intros Hsound Hsh.
  destruct (readSheetData_run w sh s Hsound Hsh) as (cache' & Hrun & _).
  exists (payload_of s (book w)), (mkWorld (book w) cache' (trace w)).
  split; [exact Hrun|]. split; [reflexivity|].
  unfold payload_of. by destruct (MAX_CELLS <? _).
Qed.

(** X17. [getSheetDataByName] never throws on a workbook that has a sheet,
    and never changes the workbook.  It answers with the error object
    exactly when a name is given that no sheet has (where [_getSheet] would
    throw); otherwise the payload is that of an existing sheet, the named
    one when a name is given. *)
Theorem getSheetDataByName_never_throws (w : World) (name : option string) :
  cache_sound (colCache w) →
  sheets (book w) ≠ [] →
  ∃ r w',
    getSheetDataByName name w = (Returned r, w')
    ∧ book w' = book w
    ∧ match r with
      | inl msg =>
          js_truthy name = true
          ∧ (js_str name ∉ sheetName <$> sheets (book w))
          ∧ msg = "Sheet not found: " +:+ js_str name
      | inr d =>
          sd_sheetName d ∈ sheetName <$> sheets (book w)
          ∧ (js_truthy name = true → name = Some (sd_sheetName d))
      end.
Proof.
  intros Hsound Hne. unfold getSheetDataByName, sheet_or_active.
  destruct (js_truthy name) eqn:Htruthy.
  - destruct name as [n|]; [|done]. simpl.
    destruct (list_find (λ s', sheetName s' = n) (sheets (book w))) as [[sh s]|] eqn:Hfind.
    + destruct (getSheetByName_found n sh s w Hfind) as [Hget _].
      apply list_find_Some in Hfind as (Hsh & Hname & _).
      destruct (readSheetData_returns w sh s Hsound Hsh) as (d & w' & Hread & Hbook & Hd).
      rewrite (bind_returned _ _ _ _ _ Hget). cbv beta iota.
      rewrite (bind_returned _ _ _ _ _ Hread).
      exists (inr d), w'. split; [done|]. split; [done|]. split.
      * rewrite Hd. apply list_elem_of_fmap. exists s. split; [done|].
        by eapply list_elem_of_lookup_2.
      * intros _. by rewrite Hd, Hname.
    + assert (Hget : getSheetByName (Some n) w = (Returned None, w)).
      { unfold getSheetByName. simpl. by rewrite Hfind. }
      rewrite (bind_returned _ _ _ _ _ Hget).
      exists (inl ("Sheet not found: " +:+ n)), w. split; [done|]. split; [done|].
      split; [done|]. split; [|done].
      apply list_find_None in Hfind. rewrite Forall_forall in Hfind.
      intros Hin. apply list_elem_of_fmap in Hin as (s & Hs & Hin).
      by apply (Hfind s Hin).
  - assert (Hactive : ∃ sh s, getActiveSheet w = (Returned sh, w)
                              ∧ sheets (book w) !! sh = Some s).
    { unfold getActiveSheet.
      destruct (sheets (book w) !! activeIndex (book w)) as [s|] eqn:Ha.
      - by exists (activeIndex (book w)), s.
      - destruct (sheets (book w)) as [|s0 l] eqn:Hl; [done|]. by exists 0%nat, s0. }
    destruct Hactive as (sh & s & Hactive & Hsh).
    destruct (readSheetData_returns w sh s Hsound Hsh) as (d & w' & Hread & Hbook & Hd).
    rewrite (bind_returned _ _ _ _ _ (bind_returned _ _ _ _ _ Hactive
               : (getActiveSheet ≫= λ sh0, mret (Some sh0)) w = (Returned (Some sh), w))).
    cbv beta iota. rewrite (bind_returned _ _ _ _ _ Hread).
    exists (inr d), w'. split; [done|]. split; [done|]. split; [|done].
    rewrite Hd. apply list_elem_of_fmap. exists s. split; [done|].
    by eapply list_elem_of_lookup_2.
Qed.

Lemma getSheetDataByName_never_throws_witness :
  ∃ r w',
    getSheetDataByName (Some "Archive") two_sheet_world = (Returned r, w')
    ∧ book w' = book two_sheet_world
    ∧ match r with
      | inl msg =>
          js_truthy (Some "Archive") = true
          ∧ (js_str (Some "Archive") ∉ sheetName <$> sheets (book two_sheet_world))
          ∧ msg = "Sheet not found: " +:+ js_str (Some "Archive")
      | inr d =>
          sd_sheetName d ∈ sheetName <$> sheets (book two_sheet_world)
          ∧ (js_truthy (Some "Archive") = true → Some "Archive" = Some (sd_sheetName d))
      end.
Proof.
  apply (getSheetDataByName_never_throws two_sheet_world (Some "Archive")).
  - intros k s. simpl. by rewrite lookup_empty.
  - discriminate.
Defined.
